(** * Redzone Recruiting: the client-side state model of [src/app/page.tsx]

    A shallow embedding of the page component: the entity records, the
    derived values ([computeFitScore], the profile completion
    percentage), the mutation handlers ([handleProfileChange],
    [addAchievement], [removeAchievement], [addSchool], [removeSchool],
    [logOutreach], [sendToBot]), the profile export/import pair, the
    playbook checklist, the form inputs with the buttons that submit
    them, the outreach table, and the initialisers and effects that keep
    the cells in [localStorage]; together with the parts of the
    JavaScript host they call ([String.prototype.trim], [toLowerCase],
    [includes], [parseFloat], binary64 arithmetic, [Math.round],
    [Date.prototype.toISOString], Number::toString, [JSON.stringify] and
    [JSON.parse]).

    Conventions.
    - A JavaScript string is the list of its UTF-16 code units, each a [Z]
      from 0 to 65535.
    - A JavaScript number is a binary64 value; finite values are carried as
      the exact rational they denote, in lowest terms, and every
      arithmetic operation rounds its exact result to the nearest
      binary64, ties to even.  The sign of zero is not tracked: the
      program never divides by zero and never prints a zero.
    - An id is the integer [Date.now()] returned; ids are kept as
      integers, and [Date.now() + 1] is integer addition.
    - [Date.now()] and [new Date()] read the wall clock; each read is an
      explicit argument (milliseconds since the epoch) of the handler that
      performs it.
    - React state cells are the fields of [AppState]; a handler is a
      function from the state it was rendered with to the state after all
      the updaters it queued have run.  React applies the updaters of one
      handler before the next render, so the states in between are not
      observable. *)

From Stdlib Require Import List Sorted ZArith QArith Qround Qabs Qpower Qcanon
  String Ascii Bool Lia.
Import ListNotations.
Local Open Scope Z_scope.

(* ================================================================== *)
(** * The JavaScript host *)
(* ================================================================== *)

Module JS.

(** ** Strings *)

Abbreviation codeunit := Z (only parsing).
Abbreviation jsstring := (list Z) (only parsing).

(** Literals of the source are written as Rocq strings of ASCII
    characters. *)
Definition str (s : string) : jsstring :=
  map (fun c => Z.of_N (N_of_ascii c)) (list_ascii_of_string s).

Definition isCodeUnit (c : Z) : bool := (0 <=? c) && (c <? 65536).
Definition wfString (s : jsstring) : bool := forallb isCodeUnit s.

Fixpoint string_eqb (a b : jsstring) : bool :=
  match a, b with
  | [], [] => true
  | c :: a', d :: b' => (c =? d) && string_eqb a' b'
  | _, _ => false
  end.

(** [s.startsWith(p)] at position 0. *)
Fixpoint startsWith (p s : jsstring) : bool :=
  match p, s with
  | [], _ => true
  | c :: p', d :: s' => (c =? d) && startsWith p' s'
  | _ :: _, [] => false
  end.

(** [s.includes(k)]: [k] occurs in [s] as a contiguous run of code units. *)
Fixpoint includes (s k : jsstring) : bool :=
  startsWith k s ||
  match s with
  | [] => false
  | _ :: s' => includes s' k
  end.

(** *** toLowerCase *)

(** [s.toLowerCase()] is the Default Case Conversion of Unicode applied
    to the code points of [s]: the simple lower-case mapping of each
    code point, with the two mappings of SpecialCasing that hold in every
    locale, U+0130 and the final sigma.  The tables are those of Unicode
    14.0.  The code units that come out as Basic Latin letters are the
    same in every version. *)

Definition leadSurrogate (c : codeunit) : bool :=
  (55296 <=? c) && (c <=? 56319).

Definition trailSurrogate (c : codeunit) : bool :=
  (56320 <=? c) && (c <=? 57343).

(** StringToCodePoints: a lead surrogate followed by a trail surrogate
    is one code point, any other code unit is a code point on its own. *)
Fixpoint codePoints (s : jsstring) : list Z :=
  match s with
  | [] => []
  | c :: s' =>
    match s' with
    | d :: s'' =>
      if leadSurrogate c && trailSurrogate d
      then (65536 + (c - 55296) * 1024 + (d - 56320)) :: codePoints s''
      else c :: codePoints s'
    | [] => [c]
    end
  end.

(** CodePointsToString, one code point. *)
Definition encodeCodePoint (cp : Z) : jsstring :=
  if cp <? 65536 then [cp]
  else [55296 + (cp - 65536) / 1024; 56320 + (cp - 65536) mod 1024].

(** The simple lower-case mappings: [(first, last, step, delta)] maps
    each of the code points first, first + step, ..., last to itself
    plus delta.  Every other code point maps to itself. *)
Definition lowerTable : list (Z * Z * Z * Z) :=
  [ (65, 90, 1, 32); (192, 214, 1, 32); (216, 222, 1, 32);
    (256, 302, 2, 1); (306, 310, 2, 1); (313, 327, 2, 1);
    (330, 374, 2, 1); (376, 376, 1, -121); (377, 381, 2, 1);
    (385, 385, 1, 210); (386, 388, 2, 1); (390, 390, 1, 206);
    (391, 391, 1, 1); (393, 394, 1, 205); (395, 395, 1, 1);
    (398, 398, 1, 79); (399, 399, 1, 202); (400, 400, 1, 203);
    (401, 401, 1, 1); (403, 403, 1, 205); (404, 404, 1, 207);
    (406, 406, 1, 211); (407, 407, 1, 209); (408, 408, 1, 1);
    (412, 412, 1, 211); (413, 413, 1, 213); (415, 415, 1, 214);
    (416, 420, 2, 1); (422, 422, 1, 218); (423, 423, 1, 1);
    (425, 425, 1, 218); (428, 428, 1, 1); (430, 430, 1, 218);
    (431, 431, 1, 1); (433, 434, 1, 217); (435, 437, 2, 1);
    (439, 439, 1, 219); (440, 440, 1, 1); (444, 444, 1, 1);
    (452, 452, 1, 2); (453, 453, 1, 1); (455, 455, 1, 2);
    (456, 456, 1, 1); (458, 458, 1, 2); (459, 475, 2, 1);
    (478, 494, 2, 1); (497, 497, 1, 2); (498, 500, 2, 1);
    (502, 502, 1, -97); (503, 503, 1, -56); (504, 542, 2, 1);
    (544, 544, 1, -130); (546, 562, 2, 1); (570, 570, 1, 10795);
    (571, 571, 1, 1); (573, 573, 1, -163); (574, 574, 1, 10792);
    (577, 577, 1, 1); (579, 579, 1, -195); (580, 580, 1, 69);
    (581, 581, 1, 71); (582, 590, 2, 1); (880, 882, 2, 1);
    (886, 886, 1, 1); (895, 895, 1, 116); (902, 902, 1, 38);
    (904, 906, 1, 37); (908, 908, 1, 64); (910, 911, 1, 63);
    (913, 929, 1, 32); (931, 939, 1, 32); (975, 975, 1, 8);
    (984, 1006, 2, 1); (1012, 1012, 1, -60); (1015, 1015, 1, 1);
    (1017, 1017, 1, -7); (1018, 1018, 1, 1); (1021, 1023, 1, -130);
    (1024, 1039, 1, 80); (1040, 1071, 1, 32); (1120, 1152, 2, 1);
    (1162, 1214, 2, 1); (1216, 1216, 1, 15); (1217, 1229, 2, 1);
    (1232, 1326, 2, 1); (1329, 1366, 1, 48); (4256, 4293, 1, 7264);
    (4295, 4295, 1, 7264); (4301, 4301, 1, 7264); (5024, 5103, 1, 38864);
    (5104, 5109, 1, 8); (7312, 7354, 1, -3008); (7357, 7359, 1, -3008);
    (7680, 7828, 2, 1); (7838, 7838, 1, -7615); (7840, 7934, 2, 1);
    (7944, 7951, 1, -8); (7960, 7965, 1, -8); (7976, 7983, 1, -8);
    (7992, 7999, 1, -8); (8008, 8013, 1, -8); (8025, 8031, 2, -8);
    (8040, 8047, 1, -8); (8072, 8079, 1, -8); (8088, 8095, 1, -8);
    (8104, 8111, 1, -8); (8120, 8121, 1, -8); (8122, 8123, 1, -74);
    (8124, 8124, 1, -9); (8136, 8139, 1, -86); (8140, 8140, 1, -9);
    (8152, 8153, 1, -8); (8154, 8155, 1, -100); (8168, 8169, 1, -8);
    (8170, 8171, 1, -112); (8172, 8172, 1, -7); (8184, 8185, 1, -128);
    (8186, 8187, 1, -126); (8188, 8188, 1, -9); (8486, 8486, 1, -7517);
    (8490, 8490, 1, -8383); (8491, 8491, 1, -8262); (8498, 8498, 1, 28);
    (8544, 8559, 1, 16); (8579, 8579, 1, 1); (9398, 9423, 1, 26);
    (11264, 11311, 1, 48); (11360, 11360, 1, 1); (11362, 11362, 1, -10743);
    (11363, 11363, 1, -3814); (11364, 11364, 1, -10727); (11367, 11371, 2, 1);
    (11373, 11373, 1, -10780); (11374, 11374, 1, -10749); (11375, 11375, 1, -10783);
    (11376, 11376, 1, -10782); (11378, 11378, 1, 1); (11381, 11381, 1, 1);
    (11390, 11391, 1, -10815); (11392, 11490, 2, 1); (11499, 11501, 2, 1);
    (11506, 11506, 1, 1); (42560, 42604, 2, 1); (42624, 42650, 2, 1);
    (42786, 42798, 2, 1); (42802, 42862, 2, 1); (42873, 42875, 2, 1);
    (42877, 42877, 1, -35332); (42878, 42886, 2, 1); (42891, 42891, 1, 1);
    (42893, 42893, 1, -42280); (42896, 42898, 2, 1); (42902, 42920, 2, 1);
    (42922, 42922, 1, -42308); (42923, 42923, 1, -42319); (42924, 42924, 1, -42315);
    (42925, 42925, 1, -42305); (42926, 42926, 1, -42308); (42928, 42928, 1, -42258);
    (42929, 42929, 1, -42282); (42930, 42930, 1, -42261); (42931, 42931, 1, 928);
    (42932, 42946, 2, 1); (42948, 42948, 1, -48); (42949, 42949, 1, -42307);
    (42950, 42950, 1, -35384); (42951, 42953, 2, 1); (42960, 42960, 1, 1);
    (42966, 42968, 2, 1); (42997, 42997, 1, 1); (65313, 65338, 1, 32);
    (66560, 66599, 1, 40); (66736, 66771, 1, 40); (66928, 66938, 1, 39);
    (66940, 66954, 1, 39); (66956, 66962, 1, 39); (66964, 66965, 1, 39);
    (68736, 68786, 1, 64); (71840, 71871, 1, 32); (93760, 93791, 1, 32);
    (125184, 125217, 1, 34) ].

Definition lowerCodePoint (cp : Z) : Z :=
  match find (fun r : Z * Z * Z * Z =>
                let '(first, last, step, _) := r in
                (first <=? cp) && (cp <=? last)
                && ((cp - first) mod step =? 0)) lowerTable with
  | Some (_, _, _, delta) => cp + delta
  | None => cp
  end.

Definition inRanges (t : list (Z * Z)) (cp : Z) : bool :=
  existsb (fun r : Z * Z => (fst r <=? cp) && (cp <=? snd r)) t.

(** The code points with the property Case_Ignorable. *)
Definition caseIgnorableTable : list (Z * Z) :=
  [ (39, 39); (46, 46); (58, 58); (94, 94); (96, 96);
    (168, 168); (173, 173); (175, 175); (180, 180); (183, 184);
    (688, 879); (884, 885); (890, 890); (900, 901); (903, 903);
    (1155, 1161); (1369, 1369); (1375, 1375); (1425, 1469); (1471, 1471);
    (1473, 1474); (1476, 1477); (1479, 1479); (1524, 1524); (1536, 1541);
    (1552, 1562); (1564, 1564); (1600, 1600); (1611, 1631); (1648, 1648);
    (1750, 1757); (1759, 1768); (1770, 1773); (1807, 1807); (1809, 1809);
    (1840, 1866); (1958, 1968); (2027, 2037); (2042, 2042); (2045, 2045);
    (2070, 2093); (2137, 2139); (2184, 2184); (2192, 2193); (2200, 2207);
    (2249, 2306); (2362, 2362); (2364, 2364); (2369, 2376); (2381, 2381);
    (2385, 2391); (2402, 2403); (2417, 2417); (2433, 2433); (2492, 2492);
    (2497, 2500); (2509, 2509); (2530, 2531); (2558, 2558); (2561, 2562);
    (2620, 2620); (2625, 2626); (2631, 2632); (2635, 2637); (2641, 2641);
    (2672, 2673); (2677, 2677); (2689, 2690); (2748, 2748); (2753, 2757);
    (2759, 2760); (2765, 2765); (2786, 2787); (2810, 2815); (2817, 2817);
    (2876, 2876); (2879, 2879); (2881, 2884); (2893, 2893); (2901, 2902);
    (2914, 2915); (2946, 2946); (3008, 3008); (3021, 3021); (3072, 3072);
    (3076, 3076); (3132, 3132); (3134, 3136); (3142, 3144); (3146, 3149);
    (3157, 3158); (3170, 3171); (3201, 3201); (3260, 3260); (3263, 3263);
    (3270, 3270); (3276, 3277); (3298, 3299); (3328, 3329); (3387, 3388);
    (3393, 3396); (3405, 3405); (3426, 3427); (3457, 3457); (3530, 3530);
    (3538, 3540); (3542, 3542); (3633, 3633); (3636, 3642); (3654, 3662);
    (3761, 3761); (3764, 3772); (3782, 3782); (3784, 3789); (3864, 3865);
    (3893, 3893); (3895, 3895); (3897, 3897); (3953, 3966); (3968, 3972);
    (3974, 3975); (3981, 3991); (3993, 4028); (4038, 4038); (4141, 4144);
    (4146, 4151); (4153, 4154); (4157, 4158); (4184, 4185); (4190, 4192);
    (4209, 4212); (4226, 4226); (4229, 4230); (4237, 4237); (4253, 4253);
    (4348, 4348); (4957, 4959); (5906, 5908); (5938, 5939); (5970, 5971);
    (6002, 6003); (6068, 6069); (6071, 6077); (6086, 6086); (6089, 6099);
    (6103, 6103); (6109, 6109); (6155, 6159); (6211, 6211); (6277, 6278);
    (6313, 6313); (6432, 6434); (6439, 6440); (6450, 6450); (6457, 6459);
    (6679, 6680); (6683, 6683); (6742, 6742); (6744, 6750); (6752, 6752);
    (6754, 6754); (6757, 6764); (6771, 6780); (6783, 6783); (6823, 6823);
    (6832, 6862); (6912, 6915); (6964, 6964); (6966, 6970); (6972, 6972);
    (6978, 6978); (7019, 7027); (7040, 7041); (7074, 7077); (7080, 7081);
    (7083, 7085); (7142, 7142); (7144, 7145); (7149, 7149); (7151, 7153);
    (7212, 7219); (7222, 7223); (7288, 7293); (7376, 7378); (7380, 7392);
    (7394, 7400); (7405, 7405); (7412, 7412); (7416, 7417); (7468, 7530);
    (7544, 7544); (7579, 7679); (8125, 8125); (8127, 8129); (8141, 8143);
    (8157, 8159); (8173, 8175); (8189, 8190); (8203, 8207); (8216, 8217);
    (8228, 8228); (8231, 8231); (8234, 8238); (8288, 8292); (8294, 8303);
    (8305, 8305); (8319, 8319); (8336, 8348); (8400, 8432); (11388, 11389);
    (11503, 11505); (11631, 11631); (11647, 11647); (11744, 11775); (11823, 11823);
    (12293, 12293); (12330, 12333); (12337, 12341); (12347, 12347); (12441, 12446);
    (12540, 12542); (40981, 40981); (42232, 42237); (42508, 42508); (42607, 42610);
    (42612, 42621); (42623, 42623); (42652, 42655); (42736, 42737); (42752, 42785);
    (42864, 42864); (42888, 42890); (42994, 42996); (43000, 43001); (43010, 43010);
    (43014, 43014); (43019, 43019); (43045, 43046); (43052, 43052); (43204, 43205);
    (43232, 43249); (43263, 43263); (43302, 43309); (43335, 43345); (43392, 43394);
    (43443, 43443); (43446, 43449); (43452, 43453); (43471, 43471); (43493, 43494);
    (43561, 43566); (43569, 43570); (43573, 43574); (43587, 43587); (43596, 43596);
    (43632, 43632); (43644, 43644); (43696, 43696); (43698, 43700); (43703, 43704);
    (43710, 43711); (43713, 43713); (43741, 43741); (43756, 43757); (43763, 43764);
    (43766, 43766); (43867, 43871); (43881, 43883); (44005, 44005); (44008, 44008);
    (44013, 44013); (64286, 64286); (64434, 64450); (65024, 65039); (65043, 65043);
    (65056, 65071); (65106, 65106); (65109, 65109); (65279, 65279); (65287, 65287);
    (65294, 65294); (65306, 65306); (65342, 65342); (65344, 65344); (65392, 65392);
    (65438, 65439); (65507, 65507); (65529, 65531); (66045, 66045); (66272, 66272);
    (66422, 66426); (67456, 67461); (67463, 67504); (67506, 67514); (68097, 68099);
    (68101, 68102); (68108, 68111); (68152, 68154); (68159, 68159); (68325, 68326);
    (68900, 68903); (69291, 69292); (69446, 69456); (69506, 69509); (69633, 69633);
    (69688, 69702); (69744, 69744); (69747, 69748); (69759, 69761); (69811, 69814);
    (69817, 69818); (69821, 69821); (69826, 69826); (69837, 69837); (69888, 69890);
    (69927, 69931); (69933, 69940); (70003, 70003); (70016, 70017); (70070, 70078);
    (70089, 70092); (70095, 70095); (70191, 70193); (70196, 70196); (70198, 70199);
    (70206, 70206); (70367, 70367); (70371, 70378); (70400, 70401); (70459, 70460);
    (70464, 70464); (70502, 70508); (70512, 70516); (70712, 70719); (70722, 70724);
    (70726, 70726); (70750, 70750); (70835, 70840); (70842, 70842); (70847, 70848);
    (70850, 70851); (71090, 71093); (71100, 71101); (71103, 71104); (71132, 71133);
    (71219, 71226); (71229, 71229); (71231, 71232); (71339, 71339); (71341, 71341);
    (71344, 71349); (71351, 71351); (71453, 71455); (71458, 71461); (71463, 71467);
    (71727, 71735); (71737, 71738); (71995, 71996); (71998, 71998); (72003, 72003);
    (72148, 72151); (72154, 72155); (72160, 72160); (72193, 72202); (72243, 72248);
    (72251, 72254); (72263, 72263); (72273, 72278); (72281, 72283); (72330, 72342);
    (72344, 72345); (72752, 72758); (72760, 72765); (72767, 72767); (72850, 72871);
    (72874, 72880); (72882, 72883); (72885, 72886); (73009, 73014); (73018, 73018);
    (73020, 73021); (73023, 73029); (73031, 73031); (73104, 73105); (73109, 73109);
    (73111, 73111); (73459, 73460); (78896, 78904); (92912, 92916); (92976, 92982);
    (92992, 92995); (94031, 94031); (94095, 94111); (94176, 94177); (94179, 94180);
    (110576, 110579); (110581, 110587); (110589, 110590); (113821, 113822); (113824, 113827);
    (118528, 118573); (118576, 118598); (119143, 119145); (119155, 119170); (119173, 119179);
    (119210, 119213); (119362, 119364); (121344, 121398); (121403, 121452); (121461, 121461);
    (121476, 121476); (121499, 121503); (121505, 121519); (122880, 122886); (122888, 122904);
    (122907, 122913); (122915, 122916); (122918, 122922); (123184, 123197); (123566, 123566);
    (123628, 123631); (125136, 125142); (125252, 125259); (127995, 127999); (917505, 917505);
    (917536, 917631); (917760, 917999) ].

(** The code points with the property Cased, those that are
    case-ignorable too left out: the table is consulted after the other
    one. *)
Definition casedTable : list (Z * Z) :=
  [ (65, 90); (97, 122); (170, 170); (181, 181); (186, 186);
    (192, 214); (216, 246); (248, 442); (444, 447); (452, 659);
    (661, 687); (880, 883); (886, 887); (891, 893); (895, 895);
    (902, 902); (904, 906); (908, 908); (910, 929); (931, 1013);
    (1015, 1153); (1162, 1327); (1329, 1366); (1376, 1416); (4256, 4293);
    (4295, 4295); (4301, 4301); (4304, 4346); (4349, 4351); (5024, 5109);
    (5112, 5117); (7296, 7304); (7312, 7354); (7357, 7359); (7424, 7467);
    (7531, 7543); (7545, 7578); (7680, 7957); (7960, 7965); (7968, 8005);
    (8008, 8013); (8016, 8023); (8025, 8025); (8027, 8027); (8029, 8029);
    (8031, 8061); (8064, 8116); (8118, 8124); (8126, 8126); (8130, 8132);
    (8134, 8140); (8144, 8147); (8150, 8155); (8160, 8172); (8178, 8180);
    (8182, 8188); (8450, 8450); (8455, 8455); (8458, 8467); (8469, 8469);
    (8473, 8477); (8484, 8484); (8486, 8486); (8488, 8488); (8490, 8493);
    (8495, 8500); (8505, 8505); (8508, 8511); (8517, 8521); (8526, 8526);
    (8544, 8575); (8579, 8580); (9398, 9449); (11264, 11387); (11390, 11492);
    (11499, 11502); (11506, 11507); (11520, 11557); (11559, 11559); (11565, 11565);
    (42560, 42605); (42624, 42651); (42786, 42863); (42865, 42887); (42891, 42894);
    (42896, 42954); (42960, 42961); (42963, 42963); (42965, 42969); (42997, 42998);
    (43002, 43002); (43824, 43866); (43872, 43880); (43888, 43967); (64256, 64262);
    (64275, 64279); (65313, 65338); (65345, 65370); (66560, 66639); (66736, 66771);
    (66776, 66811); (66928, 66938); (66940, 66954); (66956, 66962); (66964, 66965);
    (66967, 66977); (66979, 66993); (66995, 67001); (67003, 67004); (68736, 68786);
    (68800, 68850); (71840, 71903); (93760, 93823); (119808, 119892); (119894, 119964);
    (119966, 119967); (119970, 119970); (119973, 119974); (119977, 119980); (119982, 119993);
    (119995, 119995); (119997, 120003); (120005, 120069); (120071, 120074); (120077, 120084);
    (120086, 120092); (120094, 120121); (120123, 120126); (120128, 120132); (120134, 120134);
    (120138, 120144); (120146, 120485); (120488, 120512); (120514, 120538); (120540, 120570);
    (120572, 120596); (120598, 120628); (120630, 120654); (120656, 120686); (120688, 120712);
    (120714, 120744); (120746, 120770); (120772, 120779); (122624, 122633); (122635, 122654);
    (125184, 125251); (127280, 127305); (127312, 127337); (127344, 127369) ].

Definition caseIgnorable (cp : Z) : bool := inRanges caseIgnorableTable cp.

Definition cased (cp : Z) : bool := inRanges casedTable cp.

(** The second half of Final_Sigma: a cased letter follows, with
    nothing but case-ignorable code points in between. *)
Fixpoint casedFollows (l : list Z) : bool :=
  match l with
  | [] => false
  | cp :: l' => if caseIgnorable cp then casedFollows l' else cased cp
  end.

(** toLowercase on code points.  [casedBefore] is the first half of
    Final_Sigma: a cased letter precedes, with nothing but
    case-ignorable code points in between.  A capital sigma, U+03A3, is
    the final sigma U+03C2 under Final_Sigma and the small sigma U+03C3
    otherwise; U+0130 is [i] and the combining dot above. *)
Fixpoint lowerPoints (casedBefore : bool) (l : list Z) : list Z :=
  match l with
  | [] => []
  | cp :: l' =>
    (if cp =? 931
     then [if casedBefore && negb (casedFollows l') then 962 else 963]
     else if cp =? 304 then [105; 775]
     else [lowerCodePoint cp])
    ++ lowerPoints (if caseIgnorable cp then casedBefore else cased cp) l'
  end.

Definition toLowerCase (s : jsstring) : jsstring :=
  flat_map encodeCodePoint (lowerPoints false (codePoints s)).

(** WhiteSpace and LineTerminator code points of ECMAScript, the set
    stripped by [trim] and skipped by [parseFloat]. *)
Definition isWhiteSpace (c : codeunit) : bool :=
  ((9 <=? c) && (c <=? 13)) || (c =? 32) || (c =? 160) || (c =? 5760)
  || ((8192 <=? c) && (c <=? 8202)) || (c =? 8232) || (c =? 8233)
  || (c =? 8239) || (c =? 8287) || (c =? 12288) || (c =? 65279).

Fixpoint trimStart (s : jsstring) : jsstring :=
  match s with
  | [] => []
  | c :: s' => if isWhiteSpace c then trimStart s' else s
  end.

Definition trimEnd (s : jsstring) : jsstring := rev (trimStart (rev s)).

Definition trim (s : jsstring) : jsstring := trimEnd (trimStart s).

(** Truthiness of a string: the empty string is the only falsy one. *)
Definition truthy (s : jsstring) : bool :=
  match s with [] => false | _ :: _ => true end.

(** [s.split(sep)[0]] for a one-unit separator: everything before the
    first occurrence of [sep], or all of [s] when there is none. *)
Fixpoint splitHead (sep : codeunit) (s : jsstring) : jsstring :=
  match s with
  | [] => []
  | c :: s' => if c =? sep then [] else c :: splitHead sep s'
  end.

(** ** Numbers *)

Inductive jsnumber :=
| NaN
| PInf
| NInf
| Fin (q : Q).

Definition num (z : Z) : jsnumber := Fin (inject_Z z).

(** floor(log2 a) for a positive rational. *)
Definition Qlog2_floor (a : Q) : Z :=
  let k := Z.log2 (Qnum a) - Z.log2 (Zpos (Qden a)) in
  if Qle_bool (2 ^ k)%Q a then k else k - 1.

(** Nearest integer of a non-negative rational, ties to the even one. *)
Definition Qround_even (x : Q) : Z :=
  let f := Qfloor x in
  match (x - inject_Z f ?= 1 # 2)%Q with
  | Lt => f
  | Gt => f + 1
  | Eq => if Z.even f then f else f + 1
  end.

(** The binary64 value nearest to the real [x] (roundTiesToEven): 53
    significant bits, least exponent -1074 (subnormals), overflow to an
    infinity at 2^1024. *)
Definition binary64 (x : Q) : jsnumber :=
  match Qnum x with
  | 0 => Fin 0
  | _ =>
    let a := Qabs x in
    let e := Z.max (-1074) (Qlog2_floor a - 52) in
    let m := Qround_even (a / 2 ^ e)%Q in
    let r := (inject_Z m * 2 ^ e)%Q in
    if Qle_bool (2 ^ 1024)%Q r
    then (if Qnum x <? 0 then NInf else PInf)
    else Fin (Qred (if Qnum x <? 0 then - r else r)%Q)
  end.

Definition isNaN (x : jsnumber) : bool :=
  match x with NaN => true | _ => false end.

Definition Qneg (q : Q) : bool := Qnum q <? 0.
Definition Qzero (q : Q) : bool := Qnum q =? 0.

(** [x / y]. *)
Definition div (x y : jsnumber) : jsnumber :=
  match x, y with
  | NaN, _ | _, NaN => NaN
  | (PInf | NInf), (PInf | NInf) => NaN
  | PInf, Fin b => if Qneg b then NInf else PInf
  | NInf, Fin b => if Qneg b then PInf else NInf
  | Fin _, (PInf | NInf) => Fin 0
  | Fin a, Fin b =>
    if Qzero b
    then (if Qzero a then NaN else if Qneg a then NInf else PInf)
    else binary64 (a / b)
  end.

(** [x * y]. *)
Definition mul (x y : jsnumber) : jsnumber :=
  match x, y with
  | NaN, _ | _, NaN => NaN
  | PInf, PInf | NInf, NInf => PInf
  | PInf, NInf | NInf, PInf => NInf
  | PInf, Fin b | Fin b, PInf =>
    if Qzero b then NaN else if Qneg b then NInf else PInf
  | NInf, Fin b | Fin b, NInf =>
    if Qzero b then NaN else if Qneg b then PInf else NInf
  | Fin a, Fin b => binary64 (a * b)
  end.

(** [Math.round]: the nearest integer, ties towards +infinity.  Every
    binary64 of magnitude 2^52 or more is an integer already, so the
    result is always representable and no rounding step follows. *)
Definition Math_round (x : jsnumber) : jsnumber :=
  match x with
  | Fin q => Fin (inject_Z (Qfloor (q + (1 # 2))))
  | _ => x
  end.

Definition Math_max (x y : jsnumber) : jsnumber :=
  match x, y with
  | NaN, _ | _, NaN => NaN
  | PInf, _ | _, PInf => PInf
  | NInf, v | v, NInf => v
  | Fin a, Fin b => if Qle_bool a b then Fin b else Fin a
  end.

Definition Math_min (x y : jsnumber) : jsnumber :=
  match x, y with
  | NaN, _ | _, NaN => NaN
  | NInf, _ | _, NInf => NInf
  | PInf, v | v, PInf => v
  | Fin a, Fin b => if Qle_bool a b then Fin a else Fin b
  end.

(** ** parseFloat *)

Definition isDigit (c : codeunit) : bool := (48 <=? c) && (c <=? 57).

(** The longest run of decimal digits at the head of [s], and the rest. *)
Fixpoint takeDigits (s : jsstring) : list codeunit * jsstring :=
  match s with
  | c :: s' =>
    if isDigit c
    then let '(ds, r) := takeDigits s' in (c :: ds, r)
    else ([], s)
  | [] => ([], [])
  end.

(** The natural number written by a run of decimal digits. *)
Definition digitsValue (ds : list codeunit) : Z :=
  fold_left (fun acc d => 10 * acc + (d - 48)) ds 0.

(** An optional sign, then whatever follows. *)
Definition takeSign (s : jsstring) : bool * jsstring :=
  match s with
  | c :: r =>
    if c =? 45 then (true, r)
    else if c =? 43 then (false, r)
    else (false, s)
  | [] => (false, [])
  end.

(** ExponentPart: [e] or [E], an optional sign, at least one digit.  When
    the part is not complete the literal ends before it. *)
Definition takeExponent (s : jsstring) : Z :=
  match s with
  | c :: r =>
    if (c =? 101) || (c =? 69)
    then let '(neg, r') := takeSign r in
         let '(ds, _) := takeDigits r' in
         match ds with
         | [] => 0
         | _ => if neg then - digitsValue ds else digitsValue ds
         end
    else 0
  | [] => 0
  end.

(** The real number written by integer digits [ip], fraction digits [fp]
    and decimal exponent [ex]. *)
Definition decimalValue (ip fp : list codeunit) (ex : Z) : Q :=
  (inject_Z (digitsValue (ip ++ fp)) * 10 ^ (ex - Z.of_nat (List.length fp)))%Q.

(** The value of the longest StrUnsignedDecimalLiteral at the head of
    [s], negated when [neg]; [NaN] when [s] does not start with one.
    A literal is [Infinity], or digits with an optional point, fraction
    and exponent, or a point, digits and an optional exponent. *)
Definition parseLiteral (neg : bool) (s : jsstring) : jsnumber :=
  if startsWith (str "Infinity") s then (if neg then NInf else PInf)
  else
    let '(ip, s3) := takeDigits s in
    let '(fp, s4) :=
      match s3 with
      | c :: r => if c =? 46 then takeDigits r else ([], s3)
      | [] => ([], s3)
      end in
    match ip, fp with
    | [], [] => NaN
    | _, _ =>
      let v := decimalValue ip fp (takeExponent s4) in
      binary64 (if neg then - v else v)%Q
    end.

(** [parseFloat(s)]: skip leading white space, take the longest prefix
    that is a StrDecimalLiteral, and round its value to binary64; [NaN]
    when no prefix is one.  The value is rounded correctly whatever the
    number of digits, as the engines in use do. *)
Definition parseFloat (s : jsstring) : jsnumber :=
  let '(neg, s2) := takeSign (trimStart s) in
  parseLiteral neg s2.

(** ** Dates *)

(** [n] decimal digits of [v], most significant first, zero padded. *)
Fixpoint padDigits (n : nat) (v : Z) : jsstring :=
  match n with
  | O => []
  | S n' => padDigits n' (v / 10) ++ [48 + v mod 10]
  end.

Definition msPerDay : Z := 86400000.

(** Year, month and day of the proleptic Gregorian calendar, in UTC, for
    a day number counted from 1970-01-01. *)
Definition civilFromDays (day : Z) : Z * Z * Z :=
  let z := day + 719468 in
  let era := z / 146097 in
  let doe := z - era * 146097 in
  let yoe := (doe - doe / 1460 + doe / 36524 - doe / 146096) / 365 in
  let doy := doe - (365 * yoe + yoe / 4 - yoe / 100) in
  let mp := (5 * doy + 2) / 153 in
  let d := doy - (153 * mp + 2) / 5 + 1 in
  let m := if mp <? 10 then mp + 3 else mp - 9 in
  let y := yoe + era * 400 + (if m <=? 2 then 1 else 0) in
  (y, m, d).

(** The year of an ISO date-time: four digits from 0 to 9999, otherwise a
    sign and six digits. *)
Definition isoYear (y : Z) : jsstring :=
  if (0 <=? y) && (y <=? 9999) then padDigits 4 y
  else (if y <? 0 then 45 else 43) :: padDigits 6 (Z.abs y).

Definition isoDate (t : Z) : jsstring :=
  let '(y, m, d) := civilFromDays (t / msPerDay) in
  isoYear y ++ [45] ++ padDigits 2 m ++ [45] ++ padDigits 2 d.

Definition isoTime (t : Z) : jsstring :=
  let ms := t mod msPerDay in
  padDigits 2 (ms / 3600000) ++ [58] ++ padDigits 2 (ms / 60000 mod 60)
  ++ [58] ++ padDigits 2 (ms / 1000 mod 60) ++ [46] ++ padDigits 3 (ms mod 1000).

(** [new Date(t).toISOString()]: YYYY-MM-DDTHH:mm:ss.sssZ. *)
Definition toISOString (t : Z) : jsstring :=
  isoDate t ++ [84] ++ isoTime t ++ [90].

End JS.

Import JS.

(* ================================================================== *)
(** * The page component *)
(* ================================================================== *)

(** ** Entity records *)

(** The types of the source, field by field. *)

Module Achievement.
Record t := mk { id : Z; text : jsstring }.
End Achievement.

Module Profile.
Record t := mk {
  name : jsstring;
  email : jsstring;
  phone : jsstring;
  position : jsstring;
  height : jsstring;
  weight : jsstring;
  gpa : jsstring;
  testScores : jsstring;
  achievements : list Achievement.t
}.
End Profile.

Module School.
Record t := mk {
  id : Z;
  name : jsstring;
  division : jsstring;
  contact : jsstring;
  fitScore : jsnumber
}.
End School.

Module Outreach.
Record t := mk {
  id : Z;
  schoolId : Z;
  date : jsstring;
  message : jsstring
}.
End Outreach.

Module BotMessage.
Inductive sender := user | bot.
Record t := mk { id : Z; from : sender; text : jsstring }.
End BotMessage.

Definition emptyProfile : Profile.t :=
  Profile.mk [] [] [] [] [] [] [] [] [].

(** ** Derived values *)

Definition computeFitScore (gpa : jsstring) : jsnumber :=
  let gpaNum := parseFloat gpa in
  if isNaN gpaNum then num 50
  else Math_min (num 100)
         (Math_max (num 0) (Math_round (mul (div gpaNum (num 4)) (num 100)))).

Definition completedFields (profile : Profile.t) : Z :=
  Z.of_nat (List.length (filter truthy
    [Profile.name profile; Profile.email profile; Profile.phone profile;
     Profile.position profile; Profile.height profile; Profile.weight profile;
     Profile.gpa profile; Profile.testScores profile])).

(** The two integer additions of the source are exact in binary64 and are
    done in [Z]; the division and the multiplication round. *)
Definition profileCompletion (profile : Profile.t) : jsnumber :=
  Math_round
    (mul (div (num (completedFields profile
                    + Z.of_nat (List.length (Profile.achievements profile))))
              (num (8 + 1)))
         (num 100)).

(** ** State cells and their setters *)

Record AppState := mkState {
  profile : Profile.t;
  schools : list School.t;
  outreach : list Outreach.t;
  botMessages : list BotMessage.t;
  reelPlan : jsstring;
  brandName : jsstring;
  botName : jsstring
}.

Definition setProfile (f : Profile.t -> Profile.t) (st : AppState) : AppState :=
  mkState (f (profile st)) (schools st) (outreach st) (botMessages st)
          (reelPlan st) (brandName st) (botName st).

Definition setSchools (f : list School.t -> list School.t) (st : AppState)
  : AppState :=
  mkState (profile st) (f (schools st)) (outreach st) (botMessages st)
          (reelPlan st) (brandName st) (botName st).

Definition setOutreach (f : list Outreach.t -> list Outreach.t) (st : AppState)
  : AppState :=
  mkState (profile st) (schools st) (f (outreach st)) (botMessages st)
          (reelPlan st) (brandName st) (botName st).

Definition setBotMessages (f : list BotMessage.t -> list BotMessage.t)
  (st : AppState) : AppState :=
  mkState (profile st) (schools st) (outreach st) (f (botMessages st))
          (reelPlan st) (brandName st) (botName st).

(** ** Profile handlers *)

(** [keyof Profile] and the type [Profile[K]] of the value at each key. *)
Inductive ProfileKey :=
| Kname | Kemail | Kphone | Kposition | Kheight | Kweight | Kgpa
| KtestScores | Kachievements.

Definition ProfileValue (k : ProfileKey) : Type :=
  match k with
  | Kachievements => list Achievement.t
  | _ => jsstring
  end.

(** The object [{ ...prev, [field]: value }]. *)
Definition withField (field : ProfileKey)
  : ProfileValue field -> Profile.t -> Profile.t :=
  match field with
  | Kname => fun v p =>
      Profile.mk v (Profile.email p) (Profile.phone p) (Profile.position p)
        (Profile.height p) (Profile.weight p) (Profile.gpa p)
        (Profile.testScores p) (Profile.achievements p)
  | Kemail => fun v p =>
      Profile.mk (Profile.name p) v (Profile.phone p) (Profile.position p)
        (Profile.height p) (Profile.weight p) (Profile.gpa p)
        (Profile.testScores p) (Profile.achievements p)
  | Kphone => fun v p =>
      Profile.mk (Profile.name p) (Profile.email p) v (Profile.position p)
        (Profile.height p) (Profile.weight p) (Profile.gpa p)
        (Profile.testScores p) (Profile.achievements p)
  | Kposition => fun v p =>
      Profile.mk (Profile.name p) (Profile.email p) (Profile.phone p) v
        (Profile.height p) (Profile.weight p) (Profile.gpa p)
        (Profile.testScores p) (Profile.achievements p)
  | Kheight => fun v p =>
      Profile.mk (Profile.name p) (Profile.email p) (Profile.phone p)
        (Profile.position p) v (Profile.weight p) (Profile.gpa p)
        (Profile.testScores p) (Profile.achievements p)
  | Kweight => fun v p =>
      Profile.mk (Profile.name p) (Profile.email p) (Profile.phone p)
        (Profile.position p) (Profile.height p) v (Profile.gpa p)
        (Profile.testScores p) (Profile.achievements p)
  | Kgpa => fun v p =>
      Profile.mk (Profile.name p) (Profile.email p) (Profile.phone p)
        (Profile.position p) (Profile.height p) (Profile.weight p) v
        (Profile.testScores p) (Profile.achievements p)
  | KtestScores => fun v p =>
      Profile.mk (Profile.name p) (Profile.email p) (Profile.phone p)
        (Profile.position p) (Profile.height p) (Profile.weight p)
        (Profile.gpa p) v (Profile.achievements p)
  | Kachievements => fun v p =>
      Profile.mk (Profile.name p) (Profile.email p) (Profile.phone p)
        (Profile.position p) (Profile.height p) (Profile.weight p)
        (Profile.gpa p) (Profile.testScores p) v
  end.

Definition handleProfileChange (field : ProfileKey) (value : ProfileValue field)
  (st : AppState) : AppState :=
  setProfile (fun prev => withField field value prev) st.

Definition addAchievement (now : Z) (text : jsstring) (st : AppState)
  : AppState :=
  if negb (truthy (trim text)) then st
  else
    let newAch := Achievement.mk now text in
    setProfile (fun prev =>
      withField Kachievements (Profile.achievements prev ++ [newAch]) prev) st.

Definition removeAchievement (id : Z) (st : AppState) : AppState :=
  setProfile (fun prev =>
    withField Kachievements
      (filter (fun a => negb (Achievement.id a =? id))
              (Profile.achievements prev)) prev) st.

(** ** School and outreach handlers *)

(** [now] is the value of the one [Date.now()] call. *)
Definition addSchool (now : Z) (name division contact : jsstring)
  (st : AppState) : AppState :=
  if negb (truthy (trim name)) then st
  else
    let newSchool :=
      School.mk now name division contact
                (computeFitScore (Profile.gpa (profile st))) in
    setSchools (fun prev => prev ++ [newSchool]) st.

(** Two updaters queued by one handler: the schools are filtered, then
    the outreach entries. *)
Definition removeSchool (id : Z) (st : AppState) : AppState :=
  let st1 := setSchools (filter (fun s => negb (School.id s =? id))) st in
  setOutreach (filter (fun o => negb (Outreach.schoolId o =? id))) st1.

(** [now] is the value of [Date.now()], [today] the time value of the
    [new Date()] that follows it. *)
Definition logOutreach (now today : Z) (schoolId : Z) (message : jsstring)
  (st : AppState) : AppState :=
  match find (fun s => School.id s =? schoolId) (schools st) with
  | None => st
  | Some school =>
    if negb (truthy (trim message)) then st
    else
      let newEntry :=
        Outreach.mk now (School.id school)
                    (splitHead 84 (toISOString today)) message in
      setOutreach (fun prev => prev ++ [newEntry]) st
  end.

(** ** The bot *)

Definition greeting (botName : jsstring) : jsstring :=
  str "Hello! I'm " ++ botName
  ++ str ". How can I assist with your recruiting journey today?".

Definition profileReply : jsstring :=
  str "Make sure your profile includes your position, height, weight, GPA, and test scores. College coaches look for complete information!".

Definition schoolReply : jsstring :=
  str "When building your target school list, consider a mix of reach, match, and safety schools across divisions.".

Definition outreachReply : jsstring :=
  str "Consistent outreach is key: send introductory emails, follow up every couple weeks, and personalize each message for the coach.".

(** The range in this reply is written with an en dash, U+2013. *)
Definition reelReply : jsstring :=
  str "Your highlight reel should showcase 20" ++ [8211]
  ++ str "25 of your best plays in the first 90 seconds. Use hudl or YouTube for hosting.".

Definition fallbackReply : jsstring :=
  str "I'm sorry, I don't have an answer for that just yet. Try asking about your profile, school list, outreach, or highlight reel.".

(** The reply computed in the body of [sendToBot]. *)
Definition respond (botName userText : jsstring) : jsstring :=
  let lower := toLowerCase userText in
  if includes lower (str "hello") || includes lower (str "hi")
  then greeting botName
  else if includes lower (str "profile") then profileReply
  else if includes lower (str "school") || includes lower (str "list")
  then schoolReply
  else if includes lower (str "outreach") then outreachReply
  else if includes lower (str "highlight") || includes lower (str "reel")
  then reelReply
  else fallbackReply.

(** [now1] and [now2] are the values of the first and the second
    [Date.now()] call. *)
Definition sendToBot (now1 now2 : Z) (userText : jsstring) (st : AppState)
  : AppState :=
  if negb (truthy (trim userText)) then st
  else
    let userMsg := BotMessage.mk now1 BotMessage.user userText in
    let st1 := setBotMessages (fun prev => prev ++ [userMsg]) st in
    let reply := respond (botName st) userText in
    let botMsg := BotMessage.mk (now2 + 1) BotMessage.bot reply in
    setBotMessages (fun prev => prev ++ [botMsg]) st1.

(** ** The response engine as a rule table *)



(* ================================================================== *)
(** * JSON *)
(* ================================================================== *)

Module JSON.

(** The values [JSON.parse] returns.  The properties of an object are
    kept in creation order. *)
#[warnings="-register-all"]
Inductive jsvalue :=
| JNull
| JBool (b : bool)
| JNum (n : jsnumber)
| JStr (s : jsstring)
| JArr (items : list jsvalue)
| JObj (props : list (jsstring * jsvalue)).

(** ** Serialization: the pieces of [JSON.stringify(value, null, 2)] *)

Definition hexDigit (v : Z) : codeunit :=
  if v <? 10 then 48 + v else 87 + v.

(** UnicodeEscape: a backslash, [u], four lowercase hexadecimal digits. *)
Definition unicodeEscape (c : codeunit) : jsstring :=
  [92; 117; hexDigit (c / 4096 mod 16); hexDigit (c / 256 mod 16);
   hexDigit (c / 16 mod 16); hexDigit (c mod 16)].

Definition isLeadSurrogate (c : codeunit) : bool :=
  (55296 <=? c) && (c <=? 56319).

Definition isTrailSurrogate (c : codeunit) : bool :=
  (56320 <=? c) && (c <=? 57343).

(** One code point that is a single code unit. *)
Definition quoteUnit (c : codeunit) : jsstring :=
  if c =? 8 then [92; 98]
  else if c =? 9 then [92; 116]
  else if c =? 10 then [92; 110]
  else if c =? 12 then [92; 102]
  else if c =? 13 then [92; 114]
  else if c =? 34 then [92; 34]
  else if c =? 92 then [92; 92]
  else if (c <? 32) || isLeadSurrogate c || isTrailSurrogate c
  then unicodeEscape c
  else [c].

(** The body of QuoteJSONString: a surrogate pair is one code point and
    is copied; a surrogate on its own is escaped. *)
Fixpoint quoteUnits (s : jsstring) : jsstring :=
  match s with
  | [] => []
  | c :: s' =>
    match s' with
    | d :: s'' =>
      if isLeadSurrogate c && isTrailSurrogate d
      then c :: d :: quoteUnits s''
      else quoteUnit c ++ quoteUnits s'
    | [] => quoteUnit c
    end
  end.

Definition QuoteJSONString (s : jsstring) : jsstring :=
  34 :: quoteUnits s ++ [34].

(** The decimal digits of a non-negative integer, accumulated from the
    least significant one. *)
Fixpoint natDigits (fuel : nat) (n : Z) (acc : jsstring) : jsstring :=
  match fuel with
  | O => acc
  | S f =>
    let acc' := (48 + n mod 10) :: acc in
    if n <? 10 then acc' else natDigits f (n / 10) acc'
  end.

Definition decimalDigits (n : Z) : jsstring :=
  natDigits (S (Z.to_nat (Z.log2 n))) n [].

(** Number::toString on an integer below 10^21 in magnitude: its decimal
    digits, with a minus sign when negative. *)
Definition Number_toString (z : Z) : jsstring :=
  if z <? 0 then 45 :: decimalDigits (- z) else decimalDigits z.

Definition indent (depth : nat) : jsstring := repeat 32 (2 * depth).

Fixpoint joinWith (sep : jsstring) (parts : list jsstring) : jsstring :=
  match parts with
  | [] => []
  | p :: rest =>
    match rest with
    | [] => p
    | _ :: _ => p ++ sep ++ joinWith sep rest
    end
  end.

(** SerializeJSONArray with gap of two spaces, for elements already
    serialized one level deeper. *)
Definition serializeArray (depth : nat) (items : list jsstring) : jsstring :=
  match items with
  | [] => [91; 93]
  | _ :: _ =>
    [91; 10] ++ indent (S depth)
    ++ joinWith ([44; 10] ++ indent (S depth)) items
    ++ [10] ++ indent depth ++ [93]
  end.

Definition serializeMember (m : jsstring * jsstring) : jsstring :=
  QuoteJSONString (fst m) ++ [58; 32] ++ snd m.

(** SerializeJSONObject with gap of two spaces, for property values
    already serialized one level deeper. *)
Definition serializeObject (depth : nat) (members : list (jsstring * jsstring))
  : jsstring :=
  match members with
  | [] => [123; 125]
  | _ :: _ =>
    [123; 10] ++ indent (S depth)
    ++ joinWith ([44; 10] ++ indent (S depth)) (map serializeMember members)
    ++ [10] ++ indent depth ++ [125]
  end.

(** ** Parsing: [JSON.parse] *)

Definition isJSONWhiteSpace (c : codeunit) : bool :=
  (c =? 9) || (c =? 10) || (c =? 13) || (c =? 32).

Fixpoint skipWS (s : jsstring) : jsstring :=
  match s with
  | [] => []
  | c :: s' => if isJSONWhiteSpace c then skipWS s' else s
  end.

Fixpoint stripPrefix (p s : jsstring) : option jsstring :=
  match p, s with
  | [], _ => Some s
  | c :: p', d :: s' => if c =? d then stripPrefix p' s' else None
  | _ :: _, [] => None
  end.

Definition hexValue (c : codeunit) : option Z :=
  if isDigit c then Some (c - 48)
  else if (97 <=? c) && (c <=? 102) then Some (c - 87)
  else if (65 <=? c) && (c <=? 70) then Some (c - 55)
  else None.

(** The code unit written by a one-letter escape. *)
Definition escapeValue (e : codeunit) : option codeunit :=
  if e =? 34 then Some 34
  else if e =? 92 then Some 92
  else if e =? 47 then Some 47
  else if e =? 98 then Some 8
  else if e =? 102 then Some 12
  else if e =? 110 then Some 10
  else if e =? 114 then Some 13
  else if e =? 116 then Some 9
  else None.

(** A string literal after its opening quote: the string and the input
    after the closing quote. *)
Fixpoint parseStringBody (s : jsstring) : option (jsstring * jsstring) :=
  match s with
  | [] => None
  | c :: r =>
    if c =? 34 then Some ([], r)
    else if c =? 92 then
      match r with
      | [] => None
      | e :: r1 =>
        if e =? 117 then
          match r1 with
          | h1 :: h2 :: h3 :: h4 :: r2 =>
            match hexValue h1, hexValue h2, hexValue h3, hexValue h4 with
            | Some a, Some b, Some c', Some d =>
              match parseStringBody r2 with
              | Some (t, rest) =>
                Some ((4096 * a + 256 * b + 16 * c' + d) :: t, rest)
              | None => None
              end
            | _, _, _, _ => None
            end
          | _ => None
          end
        else
          match escapeValue e with
          | Some u =>
            match parseStringBody r1 with
            | Some (t, rest) => Some (u :: t, rest)
            | None => None
            end
          | None => None
          end
      end
    else if c <? 32 then None
    else
      match parseStringBody r with
      | Some (t, rest) => Some (c :: t, rest)
      | None => None
      end
  end.

(** The exponent of a JSON number: absent, or complete. *)
Definition parseExponent (s : jsstring) : option (Z * jsstring) :=
  match s with
  | c :: r =>
    if (c =? 101) || (c =? 69)
    then let '(neg, r') := takeSign r in
         let '(ds, rest) := takeDigits r' in
         match ds with
         | [] => None
         | _ :: _ =>
           Some (if neg then - digitsValue ds else digitsValue ds, rest)
         end
    else Some (0, s)
  | [] => Some (0, [])
  end.

(** The fraction of a JSON number: absent, or a point and at least one
    digit. *)
Definition parseFraction (s : jsstring) : option (list codeunit * jsstring) :=
  match s with
  | c :: r =>
    if c =? 46
    then let '(fp, rest) := takeDigits r in
         match fp with
         | [] => None
         | _ :: _ => Some (fp, rest)
         end
    else Some ([], s)
  | [] => Some ([], [])
  end.

(** A JSON number: an optional minus, an integer part without a
    superfluous leading zero, a fraction, an exponent.  Its value is
    rounded to binary64. *)
Definition parseNumber (s : jsstring) : option (jsnumber * jsstring) :=
  let '(neg, s1) :=
    match s with
    | c :: r => if c =? 45 then (true, r) else (false, s)
    | [] => (false, [])
    end in
  let '(ip, s2) := takeDigits s1 in
  match ip with
  | [] => None
  | d :: ds =>
    if (d =? 48) && truthy ds then None
    else
      match parseFraction s2 with
      | None => None
      | Some (fp, s3) =>
        match parseExponent s3 with
        | None => None
        | Some (ex, s4) =>
          let v := decimalValue ip fp ex in
          Some (binary64 (if neg then - v else v)%Q, s4)
        end
      end
  end.

(** CreateDataProperty on an object under construction: a repeated key
    keeps its place and takes the later value.  (Keys that are array
    indices are not moved to the front.) *)
Fixpoint objSet (k : jsstring) (v : jsvalue) (props : list (jsstring * jsvalue))
  : list (jsstring * jsvalue) :=
  match props with
  | [] => [(k, v)]
  | (k', v') :: rest =>
    if string_eqb k' k then (k', v) :: rest else (k', v') :: objSet k v rest
  end.

Definition mkObject (members : list (jsstring * jsvalue))
  : list (jsstring * jsvalue) :=
  fold_left (fun acc m => objSet (fst m) (snd m) acc) members [].

Definition literal (p : string) (v : jsvalue) (s : jsstring)
  : option (jsvalue * jsstring) :=
  match stripPrefix (str p) s with
  | Some r => Some (v, r)
  | None => None
  end.

(** Recursive descent.  [fuel] bounds the number of nested calls. *)
Fixpoint parseValue (fuel : nat) (s : jsstring) {struct fuel}
  : option (jsvalue * jsstring) :=
  match fuel with
  | O => None
  | S f =>
    match skipWS s with
    | [] => None
    | c :: r =>
      if c =? 34 then
        match parseStringBody r with
        | Some (t, r') => Some (JStr t, r')
        | None => None
        end
      else if c =? 91 then
        match skipWS r with
        | [] => None
        | c' :: r' =>
          if c' =? 93 then Some (JArr [], r')
          else
            match parseElements f r with
            | Some (vs, r'') => Some (JArr vs, r'')
            | None => None
            end
        end
      else if c =? 123 then
        match skipWS r with
        | [] => None
        | c' :: r' =>
          if c' =? 125 then Some (JObj [], r')
          else
            match parseMembers f r with
            | Some (ms, r'') => Some (JObj (mkObject ms), r'')
            | None => None
            end
        end
      else if c =? 110 then literal "null" JNull (c :: r)
      else if c =? 116 then literal "true" (JBool true) (c :: r)
      else if c =? 102 then literal "false" (JBool false) (c :: r)
      else
        match parseNumber (c :: r) with
        | Some (n, r') => Some (JNum n, r')
        | None => None
        end
    end
  end

with parseElements (fuel : nat) (s : jsstring) {struct fuel}
  : option (list jsvalue * jsstring) :=
  match fuel with
  | O => None
  | S f =>
    match parseValue f s with
    | None => None
    | Some (v, r) =>
      match skipWS r with
      | [] => None
      | c :: r' =>
        if c =? 44 then
          match parseElements f r' with
          | Some (vs, r'') => Some (v :: vs, r'')
          | None => None
          end
        else if c =? 93 then Some ([v], r')
        else None
      end
    end
  end

with parseMembers (fuel : nat) (s : jsstring) {struct fuel}
  : option (list (jsstring * jsvalue) * jsstring) :=
  match fuel with
  | O => None
  | S f =>
    match skipWS s with
    | [] => None
    | q :: r0 =>
      if q =? 34 then
        match parseStringBody r0 with
        | None => None
        | Some (k, r1) =>
          match skipWS r1 with
          | [] => None
          | colon :: r2 =>
            if colon =? 58 then
              match parseValue f r2 with
              | None => None
              | Some (v, r3) =>
                match skipWS r3 with
                | [] => None
                | c :: r4 =>
                  if c =? 44 then
                    match parseMembers f r4 with
                    | Some (ms, r5) => Some ((k, v) :: ms, r5)
                    | None => None
                    end
                  else if c =? 125 then Some ([(k, v)], r4)
                  else None
                end
              end
            else None
          end
        end
      else None
    end
  end.

(** [JSON.parse(text)]: one value, white space around it, nothing else.
    [None] stands for the SyntaxError. *)
Definition parse (text : jsstring) : option jsvalue :=
  match parseValue (2 * List.length text + 2) text with
  | Some (v, r) =>
    match skipWS r with
    | [] => Some v
    | _ :: _ => None
    end
  | None => None
  end.

End JSON.

Import JSON.

(** ** Profile export and import *)

(** The object a typed profile is at run time. *)
Definition achievementValue (a : Achievement.t) : jsvalue :=
  JObj [ (str "id", JNum (num (Achievement.id a)));
         (str "text", JStr (Achievement.text a)) ].

Definition profileValue (p : Profile.t) : jsvalue :=
  JObj [ (str "name", JStr (Profile.name p));
         (str "email", JStr (Profile.email p));
         (str "phone", JStr (Profile.phone p));
         (str "position", JStr (Profile.position p));
         (str "height", JStr (Profile.height p));
         (str "weight", JStr (Profile.weight p));
         (str "gpa", JStr (Profile.gpa p));
         (str "testScores", JStr (Profile.testScores p));
         (str "achievements",
          JArr (map achievementValue (Profile.achievements p))) ].

(** [JSON.stringify(profile, null, 2)] at the type [Profile]. *)
Definition stringifyAchievement (depth : nat) (a : Achievement.t) : jsstring :=
  serializeObject depth
    [ (str "id", Number_toString (Achievement.id a));
      (str "text", QuoteJSONString (Achievement.text a)) ].

Definition stringifyProfile (p : Profile.t) : jsstring :=
  serializeObject 0
    [ (str "name", QuoteJSONString (Profile.name p));
      (str "email", QuoteJSONString (Profile.email p));
      (str "phone", QuoteJSONString (Profile.phone p));
      (str "position", QuoteJSONString (Profile.position p));
      (str "height", QuoteJSONString (Profile.height p));
      (str "weight", QuoteJSONString (Profile.weight p));
      (str "gpa", QuoteJSONString (Profile.gpa p));
      (str "testScores", QuoteJSONString (Profile.testScores p));
      (str "achievements",
       serializeArray 1
         (map (stringifyAchievement 2) (Profile.achievements p))) ].

(** The text [downloadProfile] offers as [profile.json].  The data URL
    around it and the file dialog are the browser's. *)
Definition exportProfile (p : Profile.t) : jsstring := stringifyProfile p.

(** The [onload] callback of [importProfile], on the text of the chosen
    file.  The cast [obj as Profile] checks nothing, so the profile cell
    is a [jsvalue] here; the second component lists the alerts shown. *)
Definition importProfile (result : jsstring) (cell : jsvalue)
  : jsvalue * list jsstring :=
  match JSON.parse result with
  | Some obj => (obj, [])
  | None => (cell, [str "Invalid profile JSON"])
  end.

(** ** Vocabulary of the properties *)

(** An outreach entry resolves when some school of the list has the id
    it refers to; an entry that does not resolve is dangling. *)
Definition resolves (schools : list School.t) (o : Outreach.t) : Prop :=
  exists s, In s schools /\ School.id s = Outreach.schoolId o.

Definition referentiallyIntact (st : AppState) : Prop :=
  forall o, In o (outreach st) -> resolves (schools st) o.

(** The number of outreach entries that refer to school [S]. *)
Definition countForSchool (S : Z) (l : list Outreach.t) : nat :=
  List.length (filter (fun o => Outreach.schoolId o =? S) l).

(** One call of [handleProfileChange], and a run of such calls. *)
Inductive ProfileEdit :=
| Edit (field : ProfileKey) (value : ProfileValue field).

Definition applyEdit (st : AppState) (e : ProfileEdit) : AppState :=
  match e with
  | Edit field value => handleProfileChange field value st
  end.

Definition applyEdits (edits : list ProfileEdit) (st : AppState) : AppState :=
  fold_left applyEdit edits st.

(** All eight scalar fields of a profile are non-empty. *)
Definition allFilled (p : Profile.t) : Prop :=
  Profile.name p <> [] /\ Profile.email p <> [] /\ Profile.phone p <> [] /\
  Profile.position p <> [] /\ Profile.height p <> [] /\
  Profile.weight p <> [] /\ Profile.gpa p <> [] /\
  Profile.testScores p <> [].

(** [clamp(x, lo, hi)] and the fit score as section 4.3 words it:
    round(clamp(gpa / 4 * 100, 0, 100)). *)
Definition clamp (x lo hi : jsnumber) : jsnumber :=
  Math_min hi (Math_max lo x).

Definition fitScoreOf (gpaNum : jsnumber) : jsnumber :=
  Math_round (clamp (mul (div gpaNum (num 4)) (num 100)) (num 0) (num 100)).

(** The keyword test of a rule on the lower-cased input. *)
Definition mentions (lower : jsstring) (k : string) : bool :=
  includes lower (str k).




(** ** The grammar of [parseFloat] *)

Definition digitsOnly (ds : jsstring) : Prop := forallb isDigit ds = true.

Definition noDigit (t : jsstring) : Prop :=
  forallb (fun c => negb (isDigit c)) t = true.

Inductive SignPart : jsstring -> Prop :=
| sign_none : SignPart []
| sign_plus : SignPart [43]
| sign_minus : SignPart [45].

Inductive ExponentPart : jsstring -> Prop :=
| exp_none : ExponentPart []
| exp_some (c : codeunit) (sg ds : jsstring) :
    c = 101 \/ c = 69 -> SignPart sg -> ds <> [] -> digitsOnly ds ->
    ExponentPart (c :: sg ++ ds).

Inductive StrUnsignedDecimalLiteral : jsstring -> Prop :=
| lit_infinity : StrUnsignedDecimalLiteral (str "Infinity")
| lit_point (ip fp e : jsstring) :
    ip <> [] -> digitsOnly ip -> digitsOnly fp -> ExponentPart e ->
    StrUnsignedDecimalLiteral (ip ++ 46 :: fp ++ e)
| lit_fraction (fp e : jsstring) :
    fp <> [] -> digitsOnly fp -> ExponentPart e ->
    StrUnsignedDecimalLiteral (46 :: fp ++ e)
| lit_integer (ip e : jsstring) :
    ip <> [] -> digitsOnly ip -> ExponentPart e ->
    StrUnsignedDecimalLiteral (ip ++ e).

Inductive StrDecimalLiteral : jsstring -> Prop :=
| lit_signed (sg u : jsstring) :
    SignPart sg -> StrUnsignedDecimalLiteral u -> StrDecimalLiteral (sg ++ u).

(** A parseable float: white space, then a complete literal. *)
Definition FloatText (p : jsstring) : Prop :=
  exists w lit,
    p = w ++ lit /\ forallb isWhiteSpace w = true /\ StrDecimalLiteral lit.

(** The head of [r], if any, is not a digit: a run of digits before [r]
    ends there. *)
Definition stops (r : jsstring) : Prop :=
  match r with
  | [] => True
  | c :: _ => isDigit c = false
  end.

(** ** The value of a literal *)

(** The number a run of decimal digits writes: every digit counts for
    the power of ten of its place. *)
Fixpoint digitsMV (ds : jsstring) : Z :=
  match ds with
  | [] => 0
  | d :: r => (d - 48) * 10 ^ Z.of_nat (List.length r) + digitsMV r
  end.

(** The decimal exponent an ExponentPart writes; none is exponent 0. *)
Inductive ExponentMV : jsstring -> Z -> Prop :=
| expMV_none : ExponentMV [] 0
| expMV_some (c : codeunit) (sg ds : jsstring) :
    c = 101 \/ c = 69 -> SignPart sg -> ds <> [] -> digitsOnly ds ->
    ExponentMV (c :: sg ++ ds)
               (match sg with [45] => - digitsMV ds | _ => digitsMV ds end).

(** The real number an unsigned literal writes, [None] for [Infinity]:
    integer digits, plus fraction digits over ten to their number, times
    ten to the exponent. *)
Inductive UnsignedMV : jsstring -> option Q -> Prop :=
| mv_infinity : UnsignedMV (str "Infinity") None
| mv_point (ip fp e : jsstring) (x : Z) :
    ip <> [] -> digitsOnly ip -> digitsOnly fp -> ExponentMV e x ->
    UnsignedMV (ip ++ 46 :: fp ++ e)
      (Some ((inject_Z (digitsMV ip)
              + inject_Z (digitsMV fp) / 10 ^ Z.of_nat (List.length fp))
             * 10 ^ x)%Q)
| mv_fraction (fp e : jsstring) (x : Z) :
    fp <> [] -> digitsOnly fp -> ExponentMV e x ->
    UnsignedMV (46 :: fp ++ e)
      (Some (inject_Z (digitsMV fp) / 10 ^ Z.of_nat (List.length fp)
             * 10 ^ x)%Q)
| mv_integer (ip e : jsstring) (x : Z) :
    ip <> [] -> digitsOnly ip -> ExponentMV e x ->
    UnsignedMV (ip ++ e) (Some (inject_Z (digitsMV ip) * 10 ^ x)%Q).

(** The Number of a signed value: an infinity, or the binary64 nearest
    to the real. *)
Definition numberOf (negative : bool) (v : option Q) : jsnumber :=
  match v with
  | None => if negative then NInf else PInf
  | Some q => binary64 (if negative then - q else q)%Q
  end.

(** [p] is a parseable float that writes the Number [v]: white space, a
    sign, an unsigned literal. *)
Inductive FloatValue : jsstring -> jsnumber -> Prop :=
| float_value (w sg u : jsstring) (v : option Q) :
    forallb isWhiteSpace w = true -> SignPart sg -> UnsignedMV u v ->
    FloatValue (w ++ sg ++ u)
               (numberOf (match sg with [45] => true | _ => false end) v).

(** ** Well-formed profiles *)

(** The integers binary64 represents exactly and without gaps; every
    [Date.now()] reading is one. *)
Definition safeInteger (z : Z) : Prop := - 2 ^ 53 < z < 2 ^ 53.

Definition wfAchievement (a : Achievement.t) : Prop :=
  safeInteger (Achievement.id a) /\ wfString (Achievement.text a) = true.

(** Every string is a list of code units and every id a safe integer. *)
Definition wfProfile (p : Profile.t) : Prop :=
  wfString (Profile.name p) = true /\ wfString (Profile.email p) = true
  /\ wfString (Profile.phone p) = true
  /\ wfString (Profile.position p) = true
  /\ wfString (Profile.height p) = true
  /\ wfString (Profile.weight p) = true
  /\ wfString (Profile.gpa p) = true
  /\ wfString (Profile.testScores p) = true
  /\ Forall wfAchievement (Profile.achievements p).

(** ** Reading serialized values *)

(** What may follow a serialized value: the end of the text, a comma, or
    the line feed before a closing bracket. *)
Definition delimited (rest : list Z) : Prop :=
  match rest with
  | [] => True
  | c :: _ => c = 44 \/ c = 10
  end.

(** [text] is read as [v] by [parseValue] with [fuel] or more, whatever
    delimited text follows. *)
Definition readsAs (fuel : nat) (text : list Z) (v : jsvalue) : Prop :=
  forall k rest, delimited rest ->
    parseValue (fuel + k) (text ++ rest) = Some (v, rest).

(** A property as the typed serializer sees it: its key, the text of
    its value, and the value itself. *)
Definition memberText (m : list Z * list Z * jsvalue) : list Z * list Z :=
  (fst (fst m), snd (fst m)).

Definition memberValue (m : list Z * list Z * jsvalue) : list Z * jsvalue :=
  (fst (fst m), snd m).

Definition memberReads (fuel : nat) (m : list Z * list Z * jsvalue) : Prop :=
  wfString (fst (fst m)) = true /\ readsAs fuel (snd (fst m)) (snd m).

(** ** Well-formed UTF-16 *)

(** No surrogate stands alone: a lead surrogate is followed by a trail
    surrogate, and a trail surrogate follows a lead.  Such a text is
    what [encodeURIComponent] accepts and what a UTF-8 file gives
    back unchanged. *)
Fixpoint wellFormedUTF16 (s : list Z) : bool :=
  match s with
  | [] => true
  | c :: s' =>
    if isLeadSurrogate c then
      match s' with
      | d :: s'' => isTrailSurrogate d && wellFormedUTF16 s''
      | [] => false
      end
    else negb (isTrailSurrogate c) && wellFormedUTF16 s'
  end.

Definition noSurrogate (s : list Z) : bool :=
  forallb (fun c => negb (isLeadSurrogate c) && negb (isTrailSurrogate c)) s.

(** ** Sample data *)

(** Two schools added on 2024-01-01 and three outreach entries logged on
    the three days that follow; every id is the clock reading of its
    creation. *)
Definition stateU : School.t :=
  School.mk 1704067200000 (str "State U") (str "NCAA DI") [] (num 50).

Definition tech : School.t :=
  School.mk 1704067260000 (str "Tech") (str "NAIA") [] (num 50).

Definition demoState : AppState :=
  mkState emptyProfile [stateU; tech]
    [Outreach.mk 1704153600000 1704067200000 (str "2024-01-02") (str "intro");
     Outreach.mk 1704240000000 1704067260000 (str "2024-01-03") (str "intro");
     Outreach.mk 1704326400000 1704067200000 (str "2024-01-04")
                 (str "follow up")]
    [] [] (str "Redzone Recruiting") (str "Recruiting Bot").

(** Two achievements and profiles with every scalar field filled. *)
Definition mvp : Achievement.t := Achievement.mk 1704067200000 (str "MVP").

Definition captain : Achievement.t :=
  Achievement.mk 1704067260000 (str "Team captain").

Definition fullProfile (achievements : list Achievement.t) : Profile.t :=
  Profile.mk (str "Ann Lee") (str "ann@example.org") (str "555-0100")
    (str "QB") (str "6'1") (str "180") (str "4.0") (str "1400")
    achievements.

Definition fullState : AppState :=
  mkState (fullProfile []) [] [] [] [] (str "Redzone Recruiting")
          (str "Recruiting Bot").

(** A profile with a quotation mark, an empty field, a line feed, a
    surrogate pair, a lone surrogate, a Latin-1 letter, a control
    character, a backslash, a code unit above U+00FF and a negative id. *)
Definition mixedProfile : Profile.t :=
  Profile.mk (str "Ann " ++ 34 :: str "Ace" ++ 34 :: str " O'Neil")
    (str "ann@example.org") []
    (10 :: 55357 :: 56832 :: 55357 :: str "QB") (str "6'1") (str "180")
    (str "3.5") (233 :: str "lite 1400")
    [mvp; Achievement.mk (-7) [7; 92; 8211]].

(* ================================================================== *)
(** * The rest of the page component *)
(* ================================================================== *)

(** ** The playbook checklist *)

(** The last step is written with a non-breaking hyphen, U+2011. *)
Definition playbookSteps : list jsstring :=
  [ str "Power Profile"; str "Highlight Reel"; str "School List";
    str "Outreach"; str "Camps"; str "Eligibility"; str "Social";
    str "Follow" ++ 8209 :: str "ups" ].

(** [l.map((v, i) => f(v, i))], the index counted from [i]. *)
Fixpoint mapIndexed {A B : Type} (f : A -> nat -> B) (i : nat) (l : list A)
  : list B :=
  match l with
  | [] => []
  | v :: l' => f v i :: mapIndexed f (S i) l'
  end.

Definition initialPlaybookStatus : list bool :=
  map (fun _ => false) playbookSteps.

(** The updater queued by the checkbox of step [index]. *)
Definition togglePlaybook (index : nat) (prev : list bool) : list bool :=
  mapIndexed (fun v i => if Nat.eqb i index then negb v else v) 0 prev.

(** ** The remaining setters *)

Definition setReelPlan (v : jsstring) (st : AppState) : AppState :=
  mkState (profile st) (schools st) (outreach st) (botMessages st)
          v (brandName st) (botName st).

Definition setBrandName (v : jsstring) (st : AppState) : AppState :=
  mkState (profile st) (schools st) (outreach st) (botMessages st)
          (reelPlan st) v (botName st).

Definition setBotName (v : jsstring) (st : AppState) : AppState :=
  mkState (profile st) (schools st) (outreach st) (botMessages st)
          (reelPlan st) (brandName st) v.

(** ** The form inputs and the buttons *)

(** The input cells of the forms.  [outreachSchoolId] is [undefined]
    until a school is chosen; the value of an option of the select is the
    id of its school. *)
Record Forms := mkForms {
  achInput : jsstring;
  schoolName : jsstring;
  schoolDivision : jsstring;
  schoolContact : jsstring;
  outreachSchoolId : option Z;
  outreachMessage : jsstring;
  botInput : jsstring
}.

Definition initialForms : Forms :=
  mkForms [] [] (str "NCAA DI") [] None [] [].

Definition setAchInput (v : jsstring) (fm : Forms) : Forms :=
  mkForms v (schoolName fm) (schoolDivision fm) (schoolContact fm)
          (outreachSchoolId fm) (outreachMessage fm) (botInput fm).

Definition setSchoolName (v : jsstring) (fm : Forms) : Forms :=
  mkForms (achInput fm) v (schoolDivision fm) (schoolContact fm)
          (outreachSchoolId fm) (outreachMessage fm) (botInput fm).

Definition setSchoolDivision (v : jsstring) (fm : Forms) : Forms :=
  mkForms (achInput fm) (schoolName fm) v (schoolContact fm)
          (outreachSchoolId fm) (outreachMessage fm) (botInput fm).

Definition setSchoolContact (v : jsstring) (fm : Forms) : Forms :=
  mkForms (achInput fm) (schoolName fm) (schoolDivision fm) v
          (outreachSchoolId fm) (outreachMessage fm) (botInput fm).

Definition setOutreachSchoolId (v : Z) (fm : Forms) : Forms :=
  mkForms (achInput fm) (schoolName fm) (schoolDivision fm) (schoolContact fm)
          (Some v) (outreachMessage fm) (botInput fm).

Definition setOutreachMessage (v : jsstring) (fm : Forms) : Forms :=
  mkForms (achInput fm) (schoolName fm) (schoolDivision fm) (schoolContact fm)
          (outreachSchoolId fm) v (botInput fm).

Definition setBotInput (v : jsstring) (fm : Forms) : Forms :=
  mkForms (achInput fm) (schoolName fm) (schoolDivision fm) (schoolContact fm)
          (outreachSchoolId fm) (outreachMessage fm) v.

(** What is on the page: the state cells and the form inputs. *)
Definition Page : Type := AppState * Forms.

(** The [onClick] of the Add button of the achievements. *)
Definition clickAddAchievement (now : Z) (pg : Page) : Page :=
  let '(st, fm) := pg in
  (addAchievement now (achInput fm) st, setAchInput [] fm).

(** The [onClick] of a Remove button of the achievements. *)
Definition clickRemoveAchievement (id : Z) (pg : Page) : Page :=
  let '(st, fm) := pg in (removeAchievement id st, fm).

(** The [onClick] of Add School. *)
Definition clickAddSchool (now : Z) (pg : Page) : Page :=
  let '(st, fm) := pg in
  (addSchool now (schoolName fm) (schoolDivision fm) (schoolContact fm) st,
   setSchoolContact [] (setSchoolDivision (str "NCAA DI")
                          (setSchoolName [] fm))).

(** The [onClick] of a Remove button of the schools table. *)
Definition clickRemoveSchool (id : Z) (pg : Page) : Page :=
  let '(st, fm) := pg in (removeSchool id st, fm).

(** The [onClick] of Add Outreach. *)
Definition clickAddOutreach (now today : Z) (pg : Page) : Page :=
  let '(st, fm) := pg in
  match outreachSchoolId fm with
  | Some id =>
    if truthy (trim (outreachMessage fm))
    then (logOutreach now today id (outreachMessage fm) st,
          setOutreachMessage [] fm)
    else pg
  | None => pg
  end.

(** The [onClick] of Send, and the Enter key in the input beside it. *)
Definition submitBot (now1 now2 : Z) (pg : Page) : Page :=
  let '(st, fm) := pg in
  (sendToBot now1 now2 (botInput fm) st, setBotInput [] fm).

(** ** The outreach table *)

(** The School cell of the row of [entry]. *)
Definition schoolCell (schools : list School.t) (entry : Outreach.t)
  : jsstring :=
  match find (fun s => School.id s =? Outreach.schoolId entry) schools with
  | Some school => School.name school
  | None => str "-"
  end.

(** The rows of the table: date, school, message. *)
Definition outreachRows (st : AppState)
  : list (jsstring * jsstring * jsstring) :=
  map (fun entry =>
         (Outreach.date entry, schoolCell (schools st) entry,
          Outreach.message entry))
      (outreach st).

(* ================================================================== *)
(** * Persistence *)
(* ================================================================== *)

(** ** Number::toString *)

Module NumberToString.

(** floor(log10 q) for a positive rational: an estimate from the binary
    logarithm, corrected by comparison. *)
Definition Qlog10_floor (q : Q) : Z :=
  let approx := Qlog2_floor q * 30103 / 100000 in
  if Qle_bool (10 ^ (approx + 1))%Q q then approx + 1
  else if Qle_bool (10 ^ approx)%Q q then approx
  else approx - 1.

Definition rounds_to (v q : Q) : bool :=
  match binary64 v with
  | Fin r => Qeq_bool r q
  | _ => false
  end.

(** An integer [s] of [k] digits such that [s * 10^(n - k)] rounds to
    [q], if there is one; of two, the one nearer to [q], and the even one
    when they are as near.  [10^(n-1) <= q < 10^n]; when it is [10^n]
    that rounds to [q] the digits are those of a power of ten and [n] is
    one more. *)
Definition digitsAt (q : Q) (n k : Z) : option (Z * Z) :=
  let w := (10 ^ (n - k))%Q in
  let lo := Qfloor (q / w) in
  let hi := lo + 1 in
  let ok s := (10 ^ (k - 1) <=? s) && rounds_to (inject_Z s * w) q in
  let upper := if hi <? 10 ^ k then (hi, n) else (10 ^ (k - 1), n + 1) in
  let hiFirst :=
    match (inject_Z hi * w - q ?= q - inject_Z lo * w)%Q with
    | Lt => true
    | Gt => false
    | Eq => Z.even hi
    end in
  match ok lo, ok hi with
  | true, true => Some (if hiFirst then upper else (lo, n))
  | true, false => Some (lo, n)
  | false, true => Some upper
  | false, false => None
  end.

(** The least [k] from [k] on, with its digits.  Seventeen digits
    always tell a binary64 from its neighbours. *)
Fixpoint shortest (fuel : nat) (q : Q) (n k : Z) : Z * Z * Z :=
  match digitsAt q n k with
  | Some (s, n') => (s, n', k)
  | None =>
    match fuel with
    | O => (Qround_even (q / 10 ^ (n - k))%Q, n, k)
    | S f => shortest f q n (k + 1)
    end
  end.

(** Number::toString(x) in radix 10 for a finite [x]. *)
Definition toString (q : Q) : jsstring :=
  if Qzero q then [48]
  else
    let a := Qabs q in
    let '(s, n, k) := shortest 16 a (Qlog10_floor a + 1) 1 in
    let ds := decimalDigits s in
    let body :=
      if (k <=? n) && (n <=? 21)
      then ds ++ repeat 48 (Z.to_nat (n - k))
      else if (0 <? n) && (n <=? 21)
      then firstn (Z.to_nat n) ds ++ 46 :: skipn (Z.to_nat n) ds
      else if (-6 <? n) && (n <=? 0)
      then 48 :: 46 :: repeat 48 (Z.to_nat (- n)) ++ ds
      else
        let e := n - 1 in
        let ex := (if e <? 0 then 45 else 43) :: decimalDigits (Z.abs e) in
        match ds with
        | [] => []
        | [d] => d :: 101 :: ex
        | d :: more => d :: 46 :: more ++ 101 :: ex
        end in
    if Qneg q then 45 :: body else body.

End NumberToString.

(** A number as [JSON.stringify] writes it: a finite one by
    Number::toString, any other as [null]. *)
Definition SerializeJSONNumber (x : jsnumber) : jsstring :=
  match x with
  | Fin q => NumberToString.toString q
  | _ => str "null"
  end.

(** ** [JSON.stringify(value)], without a gap *)

Definition compactMember (m : jsstring * jsstring) : jsstring :=
  QuoteJSONString (fst m) ++ 58 :: snd m.

Definition compactObject (members : list (jsstring * jsstring)) : jsstring :=
  123 :: joinWith [44] (map compactMember members) ++ [125].

Definition compactArray (items : list jsstring) : jsstring :=
  91 :: joinWith [44] items ++ [93].

(** The typed cells as texts, and the values these cells are at run
    time. *)
Definition storedAchievement (a : Achievement.t) : jsstring :=
  compactObject
    [ (str "id", Number_toString (Achievement.id a));
      (str "text", QuoteJSONString (Achievement.text a)) ].

Definition storedProfile (p : Profile.t) : jsstring :=
  compactObject
    [ (str "name", QuoteJSONString (Profile.name p));
      (str "email", QuoteJSONString (Profile.email p));
      (str "phone", QuoteJSONString (Profile.phone p));
      (str "position", QuoteJSONString (Profile.position p));
      (str "height", QuoteJSONString (Profile.height p));
      (str "weight", QuoteJSONString (Profile.weight p));
      (str "gpa", QuoteJSONString (Profile.gpa p));
      (str "testScores", QuoteJSONString (Profile.testScores p));
      (str "achievements",
       compactArray (map storedAchievement (Profile.achievements p))) ].

Definition schoolValue (s : School.t) : jsvalue :=
  JObj [ (str "id", JNum (num (School.id s)));
         (str "name", JStr (School.name s));
         (str "division", JStr (School.division s));
         (str "contact", JStr (School.contact s));
         (str "fitScore", JNum (School.fitScore s)) ].

Definition storedSchool (s : School.t) : jsstring :=
  compactObject
    [ (str "id", Number_toString (School.id s));
      (str "name", QuoteJSONString (School.name s));
      (str "division", QuoteJSONString (School.division s));
      (str "contact", QuoteJSONString (School.contact s));
      (str "fitScore", SerializeJSONNumber (School.fitScore s)) ].

Definition storedSchools (l : list School.t) : jsstring :=
  compactArray (map storedSchool l).

Definition outreachValue (o : Outreach.t) : jsvalue :=
  JObj [ (str "id", JNum (num (Outreach.id o)));
         (str "schoolId", JNum (num (Outreach.schoolId o)));
         (str "date", JStr (Outreach.date o));
         (str "message", JStr (Outreach.message o)) ].

Definition storedOutreachEntry (o : Outreach.t) : jsstring :=
  compactObject
    [ (str "id", Number_toString (Outreach.id o));
      (str "schoolId", Number_toString (Outreach.schoolId o));
      (str "date", QuoteJSONString (Outreach.date o));
      (str "message", QuoteJSONString (Outreach.message o)) ].

Definition storedOutreach (l : list Outreach.t) : jsstring :=
  compactArray (map storedOutreachEntry l).

Definition senderText (s : BotMessage.sender) : jsstring :=
  match s with
  | BotMessage.user => str "user"
  | BotMessage.bot => str "bot"
  end.

Definition botMessageValue (m : BotMessage.t) : jsvalue :=
  JObj [ (str "id", JNum (num (BotMessage.id m)));
         (str "from", JStr (senderText (BotMessage.from m)));
         (str "text", JStr (BotMessage.text m)) ].

Definition storedBotMessage (m : BotMessage.t) : jsstring :=
  compactObject
    [ (str "id", Number_toString (BotMessage.id m));
      (str "from", QuoteJSONString (senderText (BotMessage.from m)));
      (str "text", QuoteJSONString (BotMessage.text m)) ].

Definition storedBotMessages (l : list BotMessage.t) : jsstring :=
  compactArray (map storedBotMessage l).

(** ** localStorage *)

(** The items of the origin, in the order they were first set.
    [getItem] gives [null] for a key that was never set.  [setItem] is
    taken to succeed: a storage that is full or disabled is not
    modelled. *)
Definition Storage : Type := list (jsstring * jsstring).

Fixpoint getItem (key : jsstring) (s : Storage) : option jsstring :=
  match s with
  | [] => None
  | (k, v) :: s' => if string_eqb k key then Some v else getItem key s'
  end.

Fixpoint setItem (key value : jsstring) (s : Storage) : Storage :=
  match s with
  | [] => [(key, value)]
  | (k, v) :: s' =>
    if string_eqb k key then (k, value) :: s' else (k, v) :: setItem key value s'
  end.

(** ** The initial value of each cell *)

(** The initialiser of a cell kept as JSON, in the browser: the stored
    text parsed, when there is one and it is not empty; [fallback] when
    there is none or [JSON.parse] throws.  The cast checks nothing, so
    the result is a [jsvalue]. *)
Definition loadJSON (key : string) (fallback : jsvalue) (s : Storage)
  : jsvalue :=
  match getItem (str key) s with
  | Some stored =>
    if truthy stored
    then match JSON.parse stored with
         | Some v => v
         | None => fallback
         end
    else fallback
  | None => fallback
  end.

(** [localStorage.getItem(key) || fallback]. *)
Definition loadText (key : string) (fallback : jsstring) (s : Storage)
  : jsstring :=
  match getItem (str key) s with
  | Some stored => if truthy stored then stored else fallback
  | None => fallback
  end.

Definition loadProfile : Storage -> jsvalue :=
  loadJSON "rz_profile" (profileValue emptyProfile).

Definition loadSchools : Storage -> jsvalue := loadJSON "rz_schools" (JArr []).

Definition loadOutreach : Storage -> jsvalue :=
  loadJSON "rz_outreach" (JArr []).

Definition loadBotMessages : Storage -> jsvalue := loadJSON "rz_bot" (JArr []).

Definition loadReelPlan : Storage -> jsstring := loadText "rz_reelPlan" [].

Definition loadBrandName : Storage -> jsstring :=
  loadText "rz_brandName" (str "Redzone Recruiting").

Definition loadBotName : Storage -> jsstring :=
  loadText "rz_botName" (str "Recruiting Bot").

(** The state of a first visit: nothing stored. *)
Definition initialState : AppState :=
  mkState emptyProfile [] [] [] [] (str "Redzone Recruiting")
          (str "Recruiting Bot").

(** ** The effects that write the cells *)

Definition persistProfile (st : AppState) : Storage -> Storage :=
  setItem (str "rz_profile") (storedProfile (profile st)).

Definition persistSchools (st : AppState) : Storage -> Storage :=
  setItem (str "rz_schools") (storedSchools (schools st)).

Definition persistOutreach (st : AppState) : Storage -> Storage :=
  setItem (str "rz_outreach") (storedOutreach (outreach st)).

Definition persistBotMessages (st : AppState) : Storage -> Storage :=
  setItem (str "rz_bot") (storedBotMessages (botMessages st)).

Definition persistReelPlan (st : AppState) : Storage -> Storage :=
  setItem (str "rz_reelPlan") (reelPlan st).

Definition persistBrandName (st : AppState) : Storage -> Storage :=
  setItem (str "rz_brandName") (brandName st).

Definition persistBotName (st : AppState) : Storage -> Storage :=
  setItem (str "rz_botName") (botName st).

(** All seven effects, in the order they are declared: what runs after
    the first render, and after a render in which every cell changed. *)
Definition persist (st : AppState) (s : Storage) : Storage :=
  persistBotName st
    (persistBrandName st
       (persistReelPlan st
          (persistBotMessages st
             (persistOutreach st
                (persistSchools st (persistProfile st s)))))).

(** ** Vocabulary of the properties of the page *)

(** [profile[field]]. *)
Definition getField (field : ProfileKey) : Profile.t -> ProfileValue field :=
  match field return Profile.t -> ProfileValue field with
  | Kname => Profile.name
  | Kemail => Profile.email
  | Kphone => Profile.phone
  | Kposition => Profile.position
  | Kheight => Profile.height
  | Kweight => Profile.weight
  | Kgpa => Profile.gpa
  | KtestScores => Profile.testScores
  | Kachievements => Profile.achievements
  end.

(** The number of achievements that carry the id [id]. *)
Definition countAchievements (id : Z) (l : list Achievement.t) : nat :=
  List.length (filter (fun a => Achievement.id a =? id) l).

(** The nearest whole percentage of [k] parts out of nine, a half
    rounded up. *)
Definition percentOfNine (k : Z) : Z := (200 * k + 9) / 18.

(** ** Runs of user actions *)

(** What a user can do to the typed cells: one constructor for each
    handler and setter, with the clock readings the handler makes.  The
    import of a file is not among them: it may put any value into the
    profile cell. *)
Inductive Action :=
| ChangeProfile (field : ProfileKey) (value : ProfileValue field)
| AddAchievement (now : Z) (text : jsstring)
| RemoveAchievement (id : Z)
| AddSchool (now : Z) (name division contact : jsstring)
| RemoveSchool (id : Z)
| LogOutreach (now today schoolId : Z) (message : jsstring)
| SendToBot (now1 now2 : Z) (userText : jsstring)
| SetReelPlan (v : jsstring)
| SetBrandName (v : jsstring)
| SetBotName (v : jsstring).

Definition step (st : AppState) (a : Action) : AppState :=
  match a with
  | ChangeProfile field value => handleProfileChange field value st
  | AddAchievement now text => addAchievement now text st
  | RemoveAchievement id => removeAchievement id st
  | AddSchool now name division contact =>
    addSchool now name division contact st
  | RemoveSchool id => removeSchool id st
  | LogOutreach now today schoolId message =>
    logOutreach now today schoolId message st
  | SendToBot now1 now2 userText => sendToBot now1 now2 userText st
  | SetReelPlan v => setReelPlan v st
  | SetBrandName v => setBrandName v st
  | SetBotName v => setBotName v st
  end.

Definition run (actions : list Action) (st : AppState) : AppState :=
  fold_left step actions st.

(** A school as [addSchool] makes it: a name that is not blank and a fit
    score that is a whole number from 0 to 100. *)
Definition validSchool (s : School.t) : Prop :=
  trim (School.name s) <> []
  /\ exists n, 0 <= n <= 100 /\ School.fitScore s = num n.

(** An outreach entry as [logOutreach] makes it: a message that is not
    blank and the calendar date of some instant. *)
Definition validOutreach (o : Outreach.t) : Prop :=
  trim (Outreach.message o) <> []
  /\ exists today, Outreach.date o = isoDate today.

Definition validEntries (st : AppState) : Prop :=
  Forall validSchool (schools st) /\ Forall validOutreach (outreach st).

(** The messages an action writes into the chat log while the bot is
    called [name]: for a message sent that is not blank, the message of
    the user as typed and the reply of the engine to it under that
    name; nothing for any other action. *)
Definition exchange (name : jsstring) (a : Action) : list BotMessage.t :=
  match a with
  | SendToBot now1 now2 userText =>
    if forallb isWhiteSpace userText then []
    else [BotMessage.mk now1 BotMessage.user userText;
          BotMessage.mk (now2 + 1) BotMessage.bot (respond name userText)]
  | _ => []
  end.

(** The name of the bot after an action. *)
Definition renamed (name : jsstring) (a : Action) : jsstring :=
  match a with
  | SetBotName v => v
  | _ => name
  end.

(** What a run writes into the chat log when the bot is called [name] at
    its start: the exchanges of its actions in order, each under the name
    in force when it is sent. *)
Fixpoint transcript (name : jsstring) (actions : list Action)
  : list BotMessage.t :=
  match actions with
  | [] => []
  | a :: rest => exchange name a ++ transcript (renamed name a) rest
  end.

(** The clock readings that become school ids in a run, in order. *)
Definition schoolReadings (actions : list Action) : list Z :=
  flat_map (fun a =>
              match a with
              | AddSchool now name _ _ =>
                if truthy (trim name) then [now] else []
              | _ => []
              end) actions.

(** ** Reading compact JSON *)

(** What may follow a value in a text written without white space: the
    end of the text, a comma, or a closing bracket or brace. *)
Definition closed (rest : list Z) : Prop :=
  match rest with
  | [] => True
  | c :: _ => c = 44 \/ c = 93 \/ c = 125
  end.

(** [text] is read as [v] by [parseValue] with [fuel] or more, whatever
    closed text follows. *)
Definition reads (fuel : nat) (text : list Z) (v : jsvalue) : Prop :=
  forall k rest, closed rest ->
    parseValue (fuel + k) (text ++ rest) = Some (v, rest).

Definition memberReadsCompact (fuel : nat) (m : list Z * list Z * jsvalue)
  : Prop :=
  wfString (fst (fst m)) = true /\ reads fuel (snd (fst m)) (snd m).

(** ** Well-formed cells *)

Definition wfSchool (s : School.t) : Prop :=
  safeInteger (School.id s)
  /\ wfString (School.name s) = true
  /\ wfString (School.division s) = true
  /\ wfString (School.contact s) = true
  /\ exists n, 0 <= n <= 100 /\ School.fitScore s = num n.

Definition wfOutreach (o : Outreach.t) : Prop :=
  safeInteger (Outreach.id o) /\ safeInteger (Outreach.schoolId o)
  /\ wfString (Outreach.date o) = true
  /\ wfString (Outreach.message o) = true.

Definition wfBotMessage (m : BotMessage.t) : Prop :=
  safeInteger (BotMessage.id m) /\ wfString (BotMessage.text m) = true.

(** ** More sample data *)

Definition samplePage : Page :=
  (demoState,
   mkForms (str "All-conference 2023") (str "Coastal College")
           (str "NCAA DII") (str "coach@coastal.example")
           (Some 1704067200000) (str "Sent my transcript") (str "hi")).

Definition sampleActions : list Action :=
  [ ChangeProfile Kgpa (str "3.5");
    AddSchool 1704067200000 (str "State U") (str "NCAA DI") [];
    AddSchool 1704067260000 (str "Tech") (str "NAIA") [];
    LogOutreach 1704153600000 1704153600000 1704067200000 (str "intro");
    SendToBot 1704153660000 1704153660000 (str "my school list?");
    AddSchool 1704153720000 (str "   ") (str "NJCAA") [];
    RemoveSchool 1704067260000 ].

(** A chat in which the bot is renamed between two greetings. *)
Definition chatActions : list Action :=
  [ SendToBot 1704153660000 1704153660002 (str "Hi");
    SetBotName (str "Ace");
    SendToBot 1704153670000 1704153670000 (str "   ");
    AddSchool 1704153680000 (str "State U") (str "NCAA DI") [];
    SendToBot 1704153690000 1704153690000 (str "HELLO again");
    SendToBot 1704153700000 1704153700001 [72; 304] ].

(** ** The cells kept as JSON *)

Inductive Cell := CProfile | CSchools | COutreach | CBotMessages.

Definition cellKey (c : Cell) : jsstring :=
  match c with
  | CProfile => str "rz_profile"
  | CSchools => str "rz_schools"
  | COutreach => str "rz_outreach"
  | CBotMessages => str "rz_bot"
  end.

Definition loadCell (c : Cell) : Storage -> jsvalue :=
  match c with
  | CProfile => loadProfile
  | CSchools => loadSchools
  | COutreach => loadOutreach
  | CBotMessages => loadBotMessages
  end.

(** The value a cell takes when nothing usable is stored for it. *)
Definition cellDefault (c : Cell) : jsvalue :=
  match c with
  | CProfile => profileValue emptyProfile
  | _ => JArr []
  end.

(** The value a typed cell is at run time. *)
Definition cellValue (c : Cell) (st : AppState) : jsvalue :=
  match c with
  | CProfile => profileValue (profile st)
  | CSchools => JArr (map schoolValue (schools st))
  | COutreach => JArr (map outreachValue (outreach st))
  | CBotMessages => JArr (map botMessageValue (botMessages st))
  end.

(** Every string of the state is a list of code units, every id a safe
    integer, every fit score a whole number from 0 to 100. *)
Definition wfState (st : AppState) : Prop :=
  wfProfile (profile st) /\ Forall wfSchool (schools st)
  /\ Forall wfOutreach (outreach st)
  /\ Forall wfBotMessage (botMessages st).

(** A state with a quotation mark, a line feed and a lone surrogate in
    its strings. *)
Definition mixedState : AppState :=
  mkState mixedProfile
    [ stateU;
      School.mk 1704067260000 (str "Tech " ++ 34 :: str "A&M" ++ [34])
                (str "NAIA") (str "coach@tech.example") (num 88) ]
    [ Outreach.mk 1704153600000 1704067200000 (str "2024-01-02")
                  (str "intro" ++ 10 :: str "second line") ]
    [ BotMessage.mk 1704153660000 BotMessage.user (55357 :: str " hi");
      BotMessage.mk 1704153660001 BotMessage.bot
                    (greeting (str "Recruiting Bot")) ]
    (str "first 90 seconds") (str "Redzone Recruiting") (str "Coach Bot").

(** ** Well-formed input *)

(** An action whose strings are lists of code units and whose clock
    readings are safe integers, as every string a browser hands over and
    every [Date.now()] is. *)
Definition wfAction (a : Action) : Prop :=
  match a with
  | ChangeProfile field value =>
    match field return ProfileValue field -> Prop with
    | Kachievements => fun v => Forall wfAchievement v
    | _ => fun v => wfString v = true
    end value
  | AddAchievement now text => safeInteger now /\ wfString text = true
  | RemoveAchievement _ => True
  | AddSchool now name division contact =>
    safeInteger now /\ wfString name = true /\ wfString division = true
    /\ wfString contact = true
  | RemoveSchool _ => True
  | LogOutreach now _ _ message => safeInteger now /\ wfString message = true
  | SendToBot now1 now2 userText =>
    safeInteger now1 /\ safeInteger (now2 + 1) /\ wfString userText = true
  | SetReelPlan _ => True
  | SetBrandName _ => True
  | SetBotName v => wfString v = true
  end.

(** ** The order of the numbers *)

(** [x <= y] on numbers, [NaN] apart. *)
Definition jsle (x y : jsnumber) : Prop :=
  match x, y with
  | NaN, _ | _, NaN => False
  | NInf, _ => True
  | _, PInf => True
  | Fin a, Fin b => (a <= b)%Q
  | _, _ => False
  end.

(** The magnitude [binary64] rounds a positive real to, before the test
    for overflow. *)
Definition nearest64 (a : Q) : Q :=
  let e := Z.max (-1074) (Qlog2_floor a - 52) in
  (inject_Z (Qround_even (a / 2 ^ e)) * 2 ^ e)%Q.

(* ================================================================== *)
(** * Properties *)
(* ================================================================== *)

(** ** Strings *)

Lemma trimStart_nil_iff (s : jsstring) :
  trimStart s = [] <-> forallb isWhiteSpace s = true.
Proof.
  induction s as [|c s IH]; simpl.
  - tauto.
  - destruct (isWhiteSpace c); simpl.
    + exact IH.
    + split; discriminate.
Qed.

Lemma trimStart_head (s : jsstring) (c : codeunit) (r : jsstring) :
  trimStart s = c :: r -> isWhiteSpace c = false.
Proof.
  induction s as [|d s IH]; simpl; [discriminate|].
  destruct (isWhiteSpace d) eqn:E; auto.
  intros H; inversion H; subst; exact E.
Qed.

Lemma forallb_rev {A} (f : A -> bool) (l : list A) :
  forallb f (rev l) = forallb f l.
Proof.
  induction l as [|a l IH]; simpl; auto.
  rewrite forallb_app, IH. simpl. rewrite andb_true_r. apply andb_comm.
Qed.

(** [s.trim()] is the empty string exactly when [s] is empty or made of
    white space only. *)
Lemma trim_nil_iff (s : jsstring) :
  trim s = [] <-> forallb isWhiteSpace s = true.
Proof.
  unfold trim, trimEnd. split.
  - intros H.
    assert (H1 : trimStart (rev (trimStart s)) = []).
    { destruct (trimStart (rev (trimStart s))) as [|c l]; [reflexivity|].
      simpl in H. destruct (rev l); discriminate. }
    apply trimStart_nil_iff in H1. rewrite forallb_rev in H1.
    destruct (trimStart s) as [|c r] eqn:E.
    + now apply trimStart_nil_iff.
    + apply trimStart_head in E. simpl in H1. rewrite E in H1. discriminate.
  - intros H. apply trimStart_nil_iff in H. rewrite H. reflexivity.
Qed.

Lemma blank_falsy (s : jsstring) :
  forallb isWhiteSpace s = true -> negb (truthy (trim s)) = true.
Proof.
  intros H. apply trim_nil_iff in H. now rewrite H.
Qed.

Lemma nonblank_truthy (s : jsstring) :
  forallb isWhiteSpace s = false -> negb (truthy (trim s)) = false.
Proof.
  intros H. destruct (trim s) eqn:E; [|reflexivity].
  apply trim_nil_iff in E. congruence.
Qed.

(** ** Cascading delete *)

Lemma filter_length_split {A} (f : A -> bool) (l : list A) :
  (List.length (filter (fun x => negb (f x)) l)
   + List.length (filter f l) = List.length l)%nat.
Proof.
  induction l as [|a l IH]; simpl; [reflexivity|].
  destruct (f a); simpl; lia.
Qed.

Lemma removeSchool_schools (S : Z) (st : AppState) :
  schools (removeSchool S st)
  = filter (fun s => negb (School.id s =? S)) (schools st).
Proof. reflexivity. Qed.

Lemma removeSchool_outreach (S : Z) (st : AppState) :
  outreach (removeSchool S st)
  = filter (fun o => negb (Outreach.schoolId o =? S)) (outreach st).
Proof. reflexivity. Qed.

Lemma in_schools_after (S : Z) (st : AppState) (s : School.t) :
  In s (schools (removeSchool S st))
  <-> In s (schools st) /\ School.id s <> S.
Proof.
  rewrite removeSchool_schools, filter_In, negb_true_iff, Z.eqb_neq.
  tauto.
Qed.

Lemma in_outreach_after (S : Z) (st : AppState) (o : Outreach.t) :
  In o (outreach (removeSchool S st))
  <-> In o (outreach st) /\ Outreach.schoolId o <> S.
Proof.
  rewrite removeSchool_outreach, filter_In, negb_true_iff, Z.eqb_neq.
  tauto.
Qed.

Lemma resolves_after (S : Z) (st : AppState) (o : Outreach.t) :
  In o (outreach (removeSchool S st)) ->
  resolves (schools st) o ->
  resolves (schools (removeSchool S st)) o.
Proof.
  intros Ho [s [Hs Hid]]. apply in_outreach_after in Ho as [_ Hne].
  exists s. split; [|exact Hid].
  apply in_schools_after. split; [exact Hs|congruence].
Qed.

(** C2.  [removeSchool S] keeps exactly the schools whose id is not [S]
    and exactly the outreach entries whose [schoolId] is not [S], in
    their order and unchanged; the outreach count drops by the number of
    entries that referred to [S]; no entry is left dangling: none refers
    to [S], every entry that resolved before still resolves, and a state
    without dangling entries stays so.  No other cell changes. *)
Theorem removeSchool_cascade (S : Z) (st : AppState) :
  let st' := removeSchool S st in
  (forall s, In s (schools st') <-> In s (schools st) /\ School.id s <> S)
  /\ (forall o, In o (outreach st')
                <-> In o (outreach st) /\ Outreach.schoolId o <> S)
  /\ outreach st'
     = filter (fun o => negb (Outreach.schoolId o =? S)) (outreach st)
  /\ List.length (outreach st')
     = (List.length (outreach st) - countForSchool S (outreach st))%nat
  /\ (List.length (outreach st') + countForSchool S (outreach st)
      = List.length (outreach st))%nat
  /\ (forall o, In o (outreach st') -> Outreach.schoolId o <> S)
  /\ (forall o, In o (outreach st') -> resolves (schools st) o ->
                resolves (schools st') o)
  /\ (referentiallyIntact st -> referentiallyIntact st')
  /\ profile st' = profile st
  /\ botMessages st' = botMessages st.
Proof.
  intros st'.
  pose proof (filter_length_split (fun o => Outreach.schoolId o =? S)
                                  (outreach st)) as Hlen.
  fold (countForSchool S (outreach st)) in Hlen.
  change (fun x : Outreach.t => negb ((fun o => Outreach.schoolId o =? S) x))
    with (fun o : Outreach.t => negb (Outreach.schoolId o =? S)) in Hlen.
  rewrite <- removeSchool_outreach in Hlen. fold st' in Hlen.
  repeat apply conj.
  - intros s. apply in_schools_after.
  - intros o. apply in_outreach_after.
  - reflexivity.
  - lia.
  - lia.
  - intros o Ho. now apply in_outreach_after in Ho.
  - apply resolves_after.
  - intros Hst o Ho. apply resolves_after; [exact Ho|].
    apply Hst. now apply in_outreach_after in Ho.
  - reflexivity.
  - reflexivity.
Qed.

Lemma demoState_intact : referentiallyIntact demoState.
Proof.
  intros o [<-|[<-|[<-|[]]]].
  - exists stateU. simpl. auto.
  - exists tech. simpl. auto.
  - exists stateU. simpl. auto.
Qed.

Lemma removeSchool_cascade_witness :
  referentiallyIntact (removeSchool 1704067200000 demoState)
  /\ List.length (outreach (removeSchool 1704067200000 demoState)) = 1%nat.
Proof.
  destruct (removeSchool_cascade 1704067200000 demoState)
    as (_ & _ & _ & Hlen & _ & _ & _ & Hint & _).
  split.
  - apply Hint. exact demoState_intact.
  - rewrite Hlen. reflexivity.
Defined.

(** The other handlers that touch schools or outreach keep the state
    free of dangling entries as well. *)
Lemma addSchool_intact now name division contact (st : AppState) :
  referentiallyIntact st ->
  referentiallyIntact (addSchool now name division contact st).
Proof.
  intros H. unfold addSchool.
  destruct (negb (truthy (trim name))); [exact H|].
  intros o Ho. destruct (H o Ho) as [s [Hs Hid]].
  exists s. split; [|exact Hid]. simpl. apply in_or_app. now left.
Qed.

Lemma logOutreach_intact now today schoolId message (st : AppState) :
  referentiallyIntact st ->
  referentiallyIntact (logOutreach now today schoolId message st).
Proof.
  intros H. unfold logOutreach.
  destruct (find _ (schools st)) as [school|] eqn:F; [|exact H].
  destruct (negb (truthy (trim message))); [exact H|].
  intros o Ho. simpl in Ho. apply in_app_or in Ho as [Ho|[<-|[]]].
  - exact (H o Ho).
  - apply find_some in F as [Hin _]. exists school. simpl. auto.
Qed.

(** ** Fit score snapshot *)

Lemma handleProfileChange_schools field value (st : AppState) :
  schools (handleProfileChange field value st) = schools st.
Proof. reflexivity. Qed.

Lemma applyEdits_schools (edits : list ProfileEdit) (st : AppState) :
  schools (applyEdits edits st) = schools st.
Proof.
  revert st. induction edits as [|e edits IH]; intros st; simpl.
  - reflexivity.
  - unfold applyEdits in IH. rewrite IH. destruct e. reflexivity.
Qed.

(** C3.  [addSchool] with a non-blank name appends one school whose
    [fitScore] is [computeFitScore] of the GPA the profile holds at the
    call; whatever [handleProfileChange] calls follow, on [gpa] or on any
    other field, the schools list, and with it every stored [fitScore],
    is the same afterwards. *)
Theorem fitScore_snapshot (now : Z) (name division contact : jsstring)
  (st : AppState) (edits : list ProfileEdit) :
  forallb isWhiteSpace name = false ->
  let st1 := addSchool now name division contact st in
  let st2 := applyEdits edits st1 in
  schools st1
  = schools st
    ++ [School.mk now name division contact
                  (computeFitScore (Profile.gpa (profile st)))]
  /\ schools st2 = schools st1
  /\ map School.fitScore (schools st2)
     = map School.fitScore (schools st)
       ++ [computeFitScore (Profile.gpa (profile st))].
Proof.
  intros Hname st1 st2.
  assert (H1 : schools st1
               = schools st
                 ++ [School.mk now name division contact
                       (computeFitScore (Profile.gpa (profile st)))]).
  { subst st1. unfold addSchool. rewrite (nonblank_truthy _ Hname).
    reflexivity. }
  assert (H2 : schools st2 = schools st1) by apply applyEdits_schools.
  repeat apply conj.
  - exact H1.
  - exact H2.
  - rewrite H2, H1, map_app. reflexivity.
Qed.

(** A school added while the GPA is 4.0 keeps its score of 100 after the
    GPA is changed to 2.0, for which a new school would score 50. *)
Lemma fitScore_snapshot_witness :
  let st1 :=
    addSchool 1704067200000 (str "State U") (str "NCAA DI") [] fullState in
  let st2 := applyEdits [Edit Kgpa (str "2.0")] st1 in
  map School.fitScore (schools st2) = [num 100]
  /\ computeFitScore (Profile.gpa (profile st2)) = num 50.
Proof.
  intros st1 st2.
  destruct (fitScore_snapshot 1704067200000 (str "State U") (str "NCAA DI")
              [] fullState [Edit Kgpa (str "2.0")] eq_refl)
    as (_ & _ & H).
  split.
  - subst st2 st1. rewrite H. vm_compute. reflexivity.
  - vm_compute. reflexivity.
Defined.

(** ** The response engine *)

Lemma startsWith_iff (k s : list Z) :
  startsWith k s = true <-> exists b, s = k ++ b.
Proof.
  revert s. induction k as [|c k IH]; intros s; cbn [startsWith].
  - split; [intros _; now exists s|reflexivity].
  - destruct s as [|d s].
    + split; [discriminate|intros [b Hb]; discriminate Hb].
    + rewrite andb_true_iff, Z.eqb_eq, IH. split.
      * intros [-> [b ->]]. now exists b.
      * intros [b Hb]. injection Hb as -> ->. split; [reflexivity|eauto].
Qed.

(** [s.includes(k)] holds exactly when [k] lies somewhere inside [s]. *)
Lemma includes_iff (s k : list Z) :
  includes s k = true <-> exists a b, s = a ++ k ++ b.
Proof.
  induction s as [|c s IH]; cbn [includes].
  - rewrite orb_false_r, startsWith_iff. split.
    + intros [b Hb]. now exists [], b.
    + intros (a & b & H). destruct a as [|x a]; [|discriminate].
      now exists b.
  - rewrite orb_true_iff, startsWith_iff, IH. split.
    + intros [[b Hb]|(a & b & ->)].
      * now exists [], b.
      * now exists (c :: a), b.
    + intros (a & b & H). destruct a as [|x a].
      * left. now exists b.
      * right. injection H as -> ->. now exists a, b.
Qed.

Lemma includes_trans (s k j : list Z) :
  includes s k = true -> includes k j = true -> includes s j = true.
Proof.
  rewrite !includes_iff. intros (a & b & ->) (a' & b' & ->).
  exists (a ++ a'), (b' ++ b). now rewrite <- !app_assoc.
Qed.

(** *** Lower-casing and Basic Latin *)














(** Every input that mentions a highlight is answered by the greeting:
    "highlight" contains "hi", and the first rule wins. *)
Lemma highlight_is_greeted (botName userText : list Z) :
  mentions (toLowerCase userText) "highlight" = true ->
  respond botName userText = greeting botName.
Proof.
  unfold mentions. intros H.
  assert (Hhi : includes (toLowerCase userText) (str "hi") = true).
  { apply (includes_trans _ _ _ H). reflexivity. }
  unfold respond. rewrite Hhi. now rewrite orb_true_r.
Qed.

(** ** The chat log *)

(** Claim C5 as written asks for two ids that are distinct, the reply's
    after the user's.  The ids come from two readings of the clock, the
    user's from [Date.now()] and the reply's from a later
    [Date.now() + 1], and the clock of a browser can be set back between
    the two: with a second reading one millisecond before the first the
    two messages carry the same id, and with an earlier one the reply's
    id sorts before the user's. *)
Lemma sendToBot_ids_not_distinct :
  let st1 :=
    sendToBot 1704412800000 1704412799999 (str "Hi coach") demoState in
  let st2 :=
    sendToBot 1704412800000 1704412790000 (str "Hi coach") demoState in
  botMessages st1
  = [BotMessage.mk 1704412800000 BotMessage.user (str "Hi coach");
     BotMessage.mk 1704412800000 BotMessage.bot
                   (greeting (str "Recruiting Bot"))]
  /\ map BotMessage.id (botMessages st1) = [1704412800000; 1704412800000]
  /\ map BotMessage.id (botMessages st2) = [1704412800000; 1704412790001].
Proof.
  repeat apply conj; vm_compute; reflexivity.
Qed.

(** C5, amended.  On empty or white-space-only input [sendToBot] changes
    nothing.  On any other input it appends two messages to the log,
    first the user's text as typed, then the reply of the engine; no
    other cell changes.  The user's id is the first clock reading and the
    reply's id the second reading plus one: the reply's id is strictly
    greater exactly when the second reading is not before the first,
    equal readings included, and the two ids are equal exactly when the
    second reading is one millisecond before the first. *)
Theorem sendToBot_log (now1 now2 : Z) (userText : jsstring) (st : AppState) :
  let st' := sendToBot now1 now2 userText st in
  let userMsg := BotMessage.mk now1 BotMessage.user userText in
  let botMsg :=
    BotMessage.mk (now2 + 1) BotMessage.bot (respond (botName st) userText) in
  (forallb isWhiteSpace userText = true -> st' = st)
  /\ (forallb isWhiteSpace userText = false ->
      botMessages st' = botMessages st ++ [userMsg; botMsg]
      /\ List.length (botMessages st')
         = (List.length (botMessages st) + 2)%nat
      /\ profile st' = profile st
      /\ schools st' = schools st
      /\ outreach st' = outreach st
      /\ botName st' = botName st)
  /\ (BotMessage.id userMsg < BotMessage.id botMsg <-> now1 <= now2)
  /\ (BotMessage.id userMsg = BotMessage.id botMsg <-> now2 = now1 - 1)
  /\ (now1 = now2 -> BotMessage.id userMsg < BotMessage.id botMsg).
Proof.
  intros st' userMsg botMsg. repeat apply conj.
  - intros H. subst st'. unfold sendToBot. now rewrite (blank_falsy _ H).
  - intros H. subst st'. unfold sendToBot. rewrite (nonblank_truthy _ H).
    simpl. rewrite <- app_assoc.
    repeat apply conj; try reflexivity.
    rewrite length_app. reflexivity.
  - simpl. lia.
  - simpl. lia.
  - simpl. lia.
  - simpl. lia.
  - simpl. lia.
Qed.

Lemma sendToBot_log_witness :
  botMessages (sendToBot 1704412800000 1704412800000 (str "Hi coach") demoState)
  = [BotMessage.mk 1704412800000 BotMessage.user (str "Hi coach");
     BotMessage.mk 1704412800001 BotMessage.bot (greeting (str "Recruiting Bot"))]
  /\ sendToBot 1704412800000 1704412800000 (str "  ") demoState = demoState
  /\ 1704412800000 < 1704412800001.
Proof.
  destruct (sendToBot_log 1704412800000 1704412800000 (str "Hi coach") demoState)
    as (_ & Hlog & _ & _ & Hid).
  destruct (sendToBot_log 1704412800000 1704412800000 (str "  ") demoState) as (Hblank & _).
  repeat apply conj.
  - destruct (Hlog eq_refl) as (H & _). exact H.
  - apply Hblank. reflexivity.
  - apply Hid. reflexivity.
Defined.
(** ** The outreach log *)

Lemma padDigits_digits (n : nat) (v : Z) :
  Forall (fun c => 48 <= c <= 57) (padDigits n v).
Proof.
  revert v. induction n as [|n IH]; intros v; cbn [padDigits].
  - constructor.
  - apply Forall_app. split; [apply IH|].
    constructor; [|constructor].
    pose proof (Z.mod_pos_bound v 10 eq_refl). lia.
Qed.

Lemma padDigits_length (n : nat) (v : Z) : List.length (padDigits n v) = n.
Proof.
  revert v. induction n as [|n IH]; intros v; cbn [padDigits]; [reflexivity|].
  rewrite length_app, IH. simpl. lia.
Qed.

Lemma Forall_digit_not (sep : codeunit) (l : jsstring) :
  sep < 43 \/ 57 < sep ->
  Forall (fun c => 48 <= c <= 57) l -> Forall (fun c => c <> sep) l.
Proof.
  intros Hsep H. eapply Forall_impl; [|exact H]. simpl. intros; lia.
Qed.

(** The date part of an ISO date-time has digits, hyphens and at most a
    sign: no [T]. *)
Lemma isoDate_no_T (t : Z) : Forall (fun c => c <> 84) (isoDate t).
Proof.
  assert (D : forall n v, Forall (fun c => c <> 84) (padDigits n v)).
  { intros n v. apply Forall_digit_not; [lia|apply padDigits_digits]. }
  assert (Y : forall y, Forall (fun c => c <> 84) (isoYear y)).
  { intros y. unfold isoYear.
    destruct ((0 <=? y) && (y <=? 9999)); [apply D|].
    constructor; [destruct (y <? 0); lia|apply D]. }
  unfold isoDate. destruct (civilFromDays (t / msPerDay)) as [[y m] d].
  apply Forall_app. split; [apply Y|].
  constructor; [lia|].
  apply Forall_app. split; [apply D|].
  constructor; [lia|apply D].
Qed.

Lemma splitHead_app (sep : codeunit) (a r : jsstring) :
  Forall (fun c => c <> sep) a -> splitHead sep (a ++ sep :: r) = a.
Proof.
  induction 1 as [|c a Hc _ IH]; simpl.
  - now rewrite Z.eqb_refl.
  - apply Z.eqb_neq in Hc. now rewrite Hc, IH.
Qed.

(** [toISOString().split('T')[0]] is the calendar date alone. *)
Lemma isoString_date (t : Z) : splitHead 84 (toISOString t) = isoDate t.
Proof.
  unfold toISOString. simpl. apply splitHead_app, isoDate_no_T.
Qed.

Lemma find_school_none (schoolId : Z) (l : list School.t) :
  find (fun s => School.id s =? schoolId) l = None
  <-> ~ (exists s, In s l /\ School.id s = schoolId).
Proof.
  split.
  - intros H [s [Hin Hid]].
    pose proof (find_none _ _ H s Hin) as Hf. simpl in Hf.
    apply Z.eqb_neq in Hf. contradiction.
  - intros H. destruct (find _ l) as [s|] eqn:F; [|reflexivity].
    apply find_some in F as [Hin Hid]. exfalso. apply H. exists s.
    split; [exact Hin|]. now apply Z.eqb_eq.
Qed.

(** Claim C9 as written asks for an id that is fresh.  The id is the
    clock reading of the call, and a reading can repeat: here an entry is
    logged while [Date.now()] returns the reading the third entry of
    [demoState] was created at, and the new entry carries the id of that
    entry. *)
Lemma logOutreach_id_not_fresh :
  let st' :=
    logOutreach 1704326400000 1704326400000 1704067260000
                (str "checking in") demoState in
  let entry :=
    Outreach.mk 1704326400000 1704067260000 (str "2024-01-04")
                (str "checking in") in
  outreach st' = outreach demoState ++ [entry]
  /\ In (Outreach.id entry) (map Outreach.id (outreach demoState)).
Proof.
  split.
  - vm_compute. reflexivity.
  - simpl. auto.
Qed.

(** C9, amended.  [logOutreach] changes nothing when no school has the
    given id or when the message is empty or white space only.
    Otherwise it appends exactly one entry: its [schoolId] is the given
    one, its message the given one, its id the clock reading of the
    call, its date the calendar date of the ISO rendering of the current
    time, which carries no [T] and so no time part; no other cell
    changes.  The id differs from every id in the list whenever all of
    them are older than the reading. *)
Theorem logOutreach_entry (now today schoolId : Z) (message : jsstring)
  (st : AppState) :
  let st' := logOutreach now today schoolId message st in
  let entry := Outreach.mk now schoolId (isoDate today) message in
  (~ (exists s, In s (schools st) /\ School.id s = schoolId) -> st' = st)
  /\ (forallb isWhiteSpace message = true -> st' = st)
  /\ ((exists s, In s (schools st) /\ School.id s = schoolId) ->
      forallb isWhiteSpace message = false ->
      outreach st' = outreach st ++ [entry]
      /\ schools st' = schools st
      /\ profile st' = profile st
      /\ botMessages st' = botMessages st)
  /\ toISOString today = Outreach.date entry ++ [84] ++ isoTime today ++ [90]
  /\ ~ In 84 (Outreach.date entry)
  /\ (Forall (fun o => Outreach.id o < now) (outreach st) ->
      ~ In (Outreach.id entry) (map Outreach.id (outreach st))).
Proof.
  intros st' entry. repeat apply conj.
  - intros H. apply find_school_none in H. subst st'. unfold logOutreach.
    now rewrite H.
  - intros H. subst st'. unfold logOutreach.
    destruct (find _ (schools st)); [|reflexivity].
    now rewrite (blank_falsy _ H).
  - intros Hs Hm. subst st'. unfold logOutreach.
    destruct (find _ (schools st)) as [school|] eqn:F.
    + rewrite (nonblank_truthy _ Hm), isoString_date.
      apply find_some in F as [_ Hid]. apply Z.eqb_eq in Hid.
      rewrite Hid. repeat apply conj; reflexivity.
    + apply find_school_none in F. contradiction.
  - reflexivity.
  - simpl. pose proof (isoDate_no_T today) as H.
    rewrite Forall_forall in H. intros Hin. now apply (H 84).
  - intros H Hin. simpl in Hin. apply in_map_iff in Hin as [o [Hid Ho]].
    rewrite Forall_forall in H. specialize (H o Ho). lia.
Qed.

Lemma logOutreach_entry_witness :
  outreach (logOutreach 1704412800000 1704412800500 1704067260000
                        (str "checking in") demoState)
  = outreach demoState
    ++ [Outreach.mk 1704412800000 1704067260000 (str "2024-01-05")
                    (str "checking in")]
  /\ logOutreach 1704412800000 1704412800500 7 (str "checking in") demoState
     = demoState
  /\ ~ In 1704412800000 (map Outreach.id (outreach demoState)).
Proof.
  destruct (logOutreach_entry 1704412800000 1704412800500 1704067260000
              (str "checking in") demoState)
    as (_ & _ & Hadd & _ & _ & Hfresh).
  destruct (logOutreach_entry 1704412800000 1704412800500 7
              (str "checking in") demoState) as (Hnone & _).
  repeat apply conj.
  - destruct Hadd as (H & _).
    + exists tech. simpl. auto.
    + reflexivity.
    + exact H.
  - apply Hnone. intros [s [[<-|[<-|[]]] Hid]]; discriminate Hid.
  - apply Hfresh. simpl. repeat constructor.
Defined.
(** ** Numbers *)

(** Rounding to binary64 never yields NaN. *)
Lemma binary64_cases (x : Q) :
  binary64 x = PInf \/ binary64 x = NInf \/ exists r, binary64 x = Fin r.
Proof.
  unfold binary64. destruct (Qnum x).
  - right; right; eauto.
  - destruct (Qle_bool _ _); [destruct (_ <? _); auto|].
    right; right; eauto.
  - destruct (Qle_bool _ _); [destruct (_ <? _); auto|].
    right; right; eauto.
Qed.

Lemma div_by_pos (q : Q) (c : Z) :
  0 < c -> div (Fin q) (num c) = binary64 (q / inject_Z c).
Proof.
  intros Hc. unfold div, num, Qzero. cbn [Qnum inject_Z].
  destruct (c =? 0) eqn:E; [apply Z.eqb_eq in E; lia|reflexivity].
Qed.

Lemma div_by_pos_cases (x : jsnumber) (c : Z) :
  0 < c -> x <> NaN ->
  div x (num c) = PInf \/ div x (num c) = NInf
  \/ exists r, div x (num c) = Fin r.
Proof.
  intros Hc Hx. destruct x as [| | |q].
  - contradiction.
  - left. unfold div, num, Qneg. cbn [Qnum inject_Z].
    destruct (c <? 0) eqn:E; [apply Z.ltb_lt in E; lia|reflexivity].
  - right; left. unfold div, num, Qneg. cbn [Qnum inject_Z].
    destruct (c <? 0) eqn:E; [apply Z.ltb_lt in E; lia|reflexivity].
  - rewrite div_by_pos by exact Hc. apply binary64_cases.
Qed.

Lemma mul_by_pos_cases (x : jsnumber) (c : Z) :
  0 < c -> x <> NaN ->
  mul x (num c) = PInf \/ mul x (num c) = NInf
  \/ exists r, mul x (num c) = Fin r.
Proof.
  intros Hc Hx.
  assert (Hz : Qzero (inject_Z c) = false).
  { unfold Qzero. cbn [Qnum inject_Z]. apply Z.eqb_neq. lia. }
  assert (Hn : Qneg (inject_Z c) = false).
  { unfold Qneg. cbn [Qnum inject_Z]. apply Z.ltb_ge. lia. }
  destruct x as [| | |q].
  - contradiction.
  - left. unfold mul, num. now rewrite Hz, Hn.
  - right; left. unfold mul, num. now rewrite Hz, Hn.
  - unfold mul, num. apply binary64_cases.
Qed.

Lemma scaled_not_NaN (x : jsnumber) :
  x <> NaN -> mul (div x (num 4)) (num 100) <> NaN.
Proof.
  intros Hx.
  assert (Hd : div x (num 4) <> NaN).
  { destruct (div_by_pos_cases x 4 eq_refl Hx) as [H|[H|[r H]]];
      rewrite H; discriminate. }
  destruct (mul_by_pos_cases _ 100 eq_refl Hd) as [H|[H|[r H]]];
    rewrite H; discriminate.
Qed.

Lemma Qle_bool_inject (a b : Z) :
  Qle_bool (inject_Z a) (inject_Z b) = (a <=? b).
Proof.
  unfold Qle_bool. cbn [Qnum Qden inject_Z]. now rewrite !Z.mul_1_r.
Qed.

Lemma Qfloor_half (n : Z) : Qfloor (inject_Z n + (1 # 2)) = n.
Proof.
  unfold Qfloor, Qplus. cbn [Qnum Qden inject_Z Pos.mul].
  change (Z.pos 2) with 2. rewrite Z.mul_1_l.
  replace (n * 2 + 1) with (1 + n * 2) by lia.
  rewrite Z.div_add by lia. reflexivity.
Qed.

(** The clamped rounding of a number that is not NaN is an integer
    between 0 and 100. *)
Lemma clamped_round_range (x : jsnumber) :
  x <> NaN ->
  exists n, 0 <= n <= 100
    /\ Math_min (num 100) (Math_max (num 0) (Math_round x)) = num n.
Proof.
  intros Hx. destruct x as [| | |q].
  - contradiction.
  - exists 100. split; [lia|reflexivity].
  - exists 0. split; [lia|reflexivity].
  - cbn [Math_round]. set (r := Qfloor (q + (1 # 2))).
    unfold Math_max, Math_min, num. rewrite Qle_bool_inject.
    destruct (0 <=? r) eqn:E0.
    + rewrite Qle_bool_inject. destruct (100 <=? r) eqn:E1.
      * exists 100. split; [lia|reflexivity].
      * exists r. apply Z.leb_le in E0. apply Z.leb_gt in E1.
        split; [lia|reflexivity].
    + rewrite Qle_bool_inject. exists 0. split; [lia|reflexivity].
Qed.

(** Rounding commutes with clamping to an interval with integer ends:
    the order of the source, clamp(round(x)), and the order of the
    specification, round(clamp(x)), agree. *)
Lemma round_clamp_commute (x : jsnumber) :
  x <> NaN ->
  Math_min (num 100) (Math_max (num 0) (Math_round x))
  = Math_round (clamp x (num 0) (num 100)).
Proof.
  intros Hx. destruct x as [| | |q].
  - contradiction.
  - reflexivity.
  - reflexivity.
  - unfold clamp. cbn [Math_round]. set (r := Qfloor (q + (1 # 2))).
    assert (Hmono : forall a : Z, (inject_Z a <= q)%Q -> a <= r).
    { intros a Ha. subst r. rewrite <- (Qfloor_half a).
      apply Qfloor_resp_le. now apply Qplus_le_l. }
    assert (Hanti : forall a : Z, ~ (inject_Z a <= q)%Q -> r <= a).
    { intros a Ha. subst r. rewrite <- (Qfloor_half a).
      apply Qfloor_resp_le. apply Qplus_le_l. apply Qlt_le_weak.
      now apply Qnot_le_lt. }
    unfold Math_max, Math_min, num.
    rewrite Qle_bool_inject.
    destruct (Qle_bool (inject_Z 0) q) eqn:Q0.
    + apply Qle_bool_iff in Q0. pose proof (Hmono 0 Q0) as H0.
      apply Z.leb_le in H0. rewrite H0. rewrite Qle_bool_inject.
      destruct (Qle_bool (inject_Z 100) q) eqn:Q1.
      * apply Qle_bool_iff in Q1. pose proof (Hmono 100 Q1) as H1.
        apply Z.leb_le in H1. rewrite H1. cbn [Math_round].
        now rewrite Qfloor_half.
      * assert (N1 : ~ (inject_Z 100 <= q)%Q).
        { intros C. apply Qle_bool_iff in C. congruence. }
        pose proof (Hanti 100 N1) as H1. cbn [Math_round]. fold r.
        destruct (100 <=? r) eqn:E1; [|reflexivity].
        apply Z.leb_le in E1. now replace r with 100 by lia.
    + assert (N0 : ~ (inject_Z 0 <= q)%Q).
      { intros C. apply Qle_bool_iff in C. congruence. }
      pose proof (Hanti 0 N0) as H0.
      rewrite Qle_bool_inject. cbn [Z.leb Z.compare]. cbn [Math_round].
      rewrite Qfloor_half.
      destruct (0 <=? r) eqn:E0.
      * apply Z.leb_le in E0. replace r with 0 by lia. reflexivity.
      * reflexivity.
Qed.
(** A real that is not positive rounds to a binary64 that is not
    positive. *)
Lemma Qround_even_nonneg (x : Q) : (0 <= x)%Q -> 0 <= Qround_even x.
Proof.
  intros Hx. unfold Qround_even.
  assert (H : 0 <= Qfloor x).
  { change 0 with (Qfloor 0). now apply Qfloor_resp_le. }
  destruct (_ ?= _)%Q; [destruct (Z.even _)| |]; lia.
Qed.

Lemma binary64_nonpos (x : Q) :
  (x <= 0)%Q ->
  binary64 x = NInf \/ exists r, binary64 x = Fin r /\ (r <= 0)%Q.
Proof.
  intros Hx. unfold binary64.
  destruct (Qnum x) as [|p|p] eqn:E.
  - right. exists 0%Q. split; [reflexivity|apply Qle_refl].
  - exfalso. unfold Qle in Hx. cbn [Qnum Qden] in Hx. rewrite E in Hx. lia.
  - cbn [Z.ltb Z.compare].
    destruct (Qle_bool _ _); [now left|]. right.
    eexists. split; [reflexivity|]. rewrite Qred_correct.
    set (e := Z.max (-1074) (Qlog2_floor (Qabs x) - 52)).
    assert (Hp : (0 < 2 ^ e)%Q) by (apply Qpower_0_lt; reflexivity).
    assert (Hm : 0 <= Qround_even (Qabs x / 2 ^ e)).
    { apply Qround_even_nonneg. apply Qle_shift_div_l; [exact Hp|].
      rewrite Qmult_0_l. apply Qabs_nonneg. }
    apply (Qopp_le_compat 0). apply Qmult_le_0_compat.
    + change 0%Q with (inject_Z 0). now rewrite <- Zle_Qle.
    + now apply Qlt_le_weak.
Qed.

Lemma Qfloor_half_nonpos (q : Q) : (q <= 0)%Q -> Qfloor (q + (1 # 2)) <= 0.
Proof.
  intros Hq. rewrite <- (Qfloor_half 0). apply Qfloor_resp_le.
  now apply Qplus_le_l.
Qed.

Lemma clamp_nonpos (q : Q) :
  (q <= 0)%Q ->
  Math_min (num 100) (Math_max (num 0) (Math_round (Fin q))) = num 0.
Proof.
  intros Hq. cbn [Math_round]. pose proof (Qfloor_half_nonpos q Hq) as H.
  set (r := Qfloor (q + (1 # 2))) in *.
  unfold Math_max, Math_min, num. rewrite Qle_bool_inject.
  destruct (0 <=? r) eqn:E0.
  - apply Z.leb_le in E0. replace r with 0 by lia. reflexivity.
  - reflexivity.
Qed.

(** A negative number scores 0. *)
Lemma negative_scores_zero (x : jsnumber) :
  x = NInf \/ (exists q, x = Fin q /\ (q < 0)%Q) ->
  Math_min (num 100)
    (Math_max (num 0) (Math_round (mul (div x (num 4)) (num 100)))) = num 0.
Proof.
  intros [->|[q [-> Hq]]].
  - reflexivity.
  - rewrite div_by_pos by reflexivity.
    assert (H4 : (q / inject_Z 4 <= 0)%Q).
    { apply Qle_shift_div_r; [reflexivity|]. rewrite Qmult_0_l.
      now apply Qlt_le_weak. }
    destruct (binary64_nonpos _ H4) as [->|[r [-> Hr]]].
    + reflexivity.
    + unfold mul, num.
      assert (H100 : (r * inject_Z 100 <= 0)%Q).
      { rewrite <- (Qmult_0_l (inject_Z 100)).
        apply Qmult_le_compat_r; [exact Hr|discriminate]. }
      destruct (binary64_nonpos _ H100) as [->|[r' [-> Hr']]].
      * reflexivity.
      * now apply clamp_nonpos.
Qed.

(** ** The fit score *)

(** C6.  [computeFitScore] is an integer between 0 and 100 for every
    string; it is 50 exactly on the path taken when the string does not
    parse; otherwise it is round(clamp(gpa / 4 * 100, 0, 100)) in
    binary64 arithmetic; negative values score 0; and the sample values
    of the specification hold. *)
Theorem computeFitScore_spec (g : jsstring) :
  (exists n, 0 <= n <= 100 /\ computeFitScore g = num n)
  /\ (parseFloat g = NaN -> computeFitScore g = num 50)
  /\ (parseFloat g <> NaN -> computeFitScore g = fitScoreOf (parseFloat g))
  /\ (parseFloat g = NInf -> computeFitScore g = num 0)
  /\ (forall q, parseFloat g = Fin q -> (q < 0)%Q ->
      computeFitScore g = num 0)
  /\ computeFitScore (str "4.0") = num 100
  /\ computeFitScore (str "0") = num 0
  /\ computeFitScore (str "not-a-number") = num 50
  /\ computeFitScore (str "5.0") = num 100
  /\ computeFitScore (str "-1.5") = num 0.
Proof.
  repeat apply conj.
  - unfold computeFitScore. destruct (parseFloat g) eqn:E.
    + exists 50. split; [lia|reflexivity].
    + apply clamped_round_range, scaled_not_NaN. discriminate.
    + apply clamped_round_range, scaled_not_NaN. discriminate.
    + apply clamped_round_range, scaled_not_NaN. discriminate.
  - intros H. unfold computeFitScore. now rewrite H.
  - intros H. unfold computeFitScore, fitScoreOf.
    destruct (parseFloat g) eqn:E; [contradiction| | |];
      apply round_clamp_commute, scaled_not_NaN; discriminate.
  - intros H. unfold computeFitScore. rewrite H. reflexivity.
  - intros q H Hq. unfold computeFitScore. rewrite H. cbn [isNaN].
    apply negative_scores_zero. right. eauto.
  - vm_compute. reflexivity.
  - vm_compute. reflexivity.
  - vm_compute. reflexivity.
  - vm_compute. reflexivity.
  - vm_compute. reflexivity.
Qed.

Lemma computeFitScore_spec_witness :
  computeFitScore (str "3.5") = fitScoreOf (parseFloat (str "3.5"))
  /\ computeFitScore (str "n/a") = num 50.
Proof.
  destruct (computeFitScore_spec (str "3.5")) as (_ & _ & H & _).
  destruct (computeFitScore_spec (str "n/a")) as (_ & H50 & _).
  split.
  - apply H. vm_compute. discriminate.
  - apply H50. vm_compute. reflexivity.
Defined.

(** Binary64 rounding is visible in the score: 0.58 / 4 * 100 is a
    little less than 14.5 in binary64, so the score is 14, where exact
    arithmetic would give 14.5 and round it to 15. *)
Example computeFitScore_058 : computeFitScore (str "0.58") = num 14.
Proof. vm_compute. reflexivity. Qed.

(** ** Profile completion *)

Lemma completedFields_filled (p : Profile.t) :
  allFilled p -> completedFields p = 8.
Proof.
  destruct p as [n e ph po h w g t a]. unfold allFilled, completedFields.
  cbn [Profile.name Profile.email Profile.phone Profile.position
       Profile.height Profile.weight Profile.gpa Profile.testScores].
  intros (Hn & He & Hph & Hpo & Hh & Hw & Hg & Ht).
  destruct n; [contradiction|]. destruct e; [contradiction|].
  destruct ph; [contradiction|]. destruct po; [contradiction|].
  destruct h; [contradiction|]. destruct w; [contradiction|].
  destruct g; [contradiction|]. destruct t; [contradiction|].
  reflexivity.
Qed.

Lemma profileCompletion_filled (p : Profile.t) (k : nat) :
  allFilled p -> List.length (Profile.achievements p) = k ->
  profileCompletion p
  = Math_round (mul (div (num (8 + Z.of_nat k)) (num 9)) (num 100)).
Proof.
  intros Hp Hk. unfold profileCompletion.
  now rewrite (completedFields_filled p Hp), Hk.
Qed.

(** C1, as the code computes it.  With all eight scalar fields filled the
    completion is 89 without achievements and 100 with one, but 111 with
    two: the numerator adds the number of achievements, not 1 for a
    non-empty list, so the result is neither saturating nor bounded by
    100. *)
Theorem profileCompletion_counts (p : Profile.t) :
  allFilled p ->
  (List.length (Profile.achievements p) = 0%nat ->
   profileCompletion p = num 89)
  /\ (List.length (Profile.achievements p) = 1%nat ->
      profileCompletion p = num 100)
  /\ (List.length (Profile.achievements p) = 2%nat ->
      profileCompletion p = num 111).
Proof.
  intros Hp. repeat apply conj; intros Hk;
    rewrite (profileCompletion_filled p _ Hp Hk); vm_compute; reflexivity.
Qed.

Lemma fullProfile_filled (l : list Achievement.t) : allFilled (fullProfile l).
Proof. unfold allFilled. cbn. repeat split; discriminate. Qed.

Lemma profileCompletion_counts_witness :
  profileCompletion (fullProfile []) = num 89
  /\ profileCompletion (fullProfile [mvp]) = num 100
  /\ profileCompletion (fullProfile [mvp; captain]) = num 111.
Proof.
  repeat apply conj.
  - now apply (profileCompletion_counts (fullProfile [])
                 (fullProfile_filled [])).
  - now apply (profileCompletion_counts (fullProfile [mvp])
                 (fullProfile_filled [mvp])).
  - now apply (profileCompletion_counts (fullProfile [mvp; captain])
                 (fullProfile_filled [mvp; captain])).
Defined.

Example profileCompletion_empty : profileCompletion emptyProfile = num 0.
Proof. vm_compute. reflexivity. Qed.
(** ** [parseFloat] and its grammar *)

Lemma takeDigits_spec (s : jsstring) :
  s = fst (takeDigits s) ++ snd (takeDigits s)
  /\ digitsOnly (fst (takeDigits s))
  /\ stops (snd (takeDigits s)).
Proof.
  induction s as [|c s IH]; cbn [takeDigits].
  - repeat split.
  - destruct (isDigit c) eqn:E.
    + destruct (takeDigits s) as [ds r]. cbn [fst snd] in *.
      destruct IH as (H1 & H2 & H3). repeat split.
      * cbn [app]. now f_equal.
      * unfold digitsOnly in *. cbn [forallb]. now rewrite E.
      * exact H3.
    + repeat split. exact E.
Qed.

Lemma takeDigits_app (ds r : jsstring) :
  digitsOnly ds -> stops r -> takeDigits (ds ++ r) = (ds, r).
Proof.
  unfold digitsOnly. induction ds as [|c ds IH]; cbn [app forallb].
  - intros _ Hr. destruct r as [|c r]; [reflexivity|].
    cbn [takeDigits]. simpl in Hr. now rewrite Hr.
  - intros H Hr. apply andb_true_iff in H as [Hc Hds].
    cbn [takeDigits]. now rewrite Hc, (IH Hds Hr).
Qed.

Lemma takeDigits_nonempty (ds r : jsstring) :
  digitsOnly ds -> ds <> [] -> fst (takeDigits (ds ++ r)) <> [].
Proof.
  unfold digitsOnly. destruct ds as [|c ds]; [contradiction|].
  cbn [app forallb takeDigits]. intros H _.
  apply andb_true_iff in H as [Hc _]. rewrite Hc.
  destruct (takeDigits (ds ++ r)). discriminate.
Qed.

Lemma takeDigits_noDigit (t : jsstring) :
  noDigit t -> takeDigits t = ([], t).
Proof.
  unfold noDigit. destruct t as [|c t]; [reflexivity|].
  cbn [forallb takeDigits]. intros H. apply andb_true_iff in H as [Hc _].
  apply negb_true_iff in Hc. now rewrite Hc.
Qed.

Lemma noDigit_tail (c : codeunit) (t : jsstring) :
  noDigit (c :: t) -> isDigit c = false /\ noDigit t.
Proof.
  unfold noDigit. cbn [forallb]. intros H.
  apply andb_true_iff in H as [Hc Ht]. apply negb_true_iff in Hc. auto.
Qed.

Lemma noDigit_stops (t : jsstring) : noDigit t -> stops t.
Proof.
  destruct t as [|c t]; [easy|]. intros H. now apply noDigit_tail in H.
Qed.

Lemma takeSign_noDigit (t : jsstring) :
  noDigit t -> noDigit (snd (takeSign t)).
Proof.
  destruct t as [|c t]; [easy|]. intros H. cbn [takeSign].
  destruct (c =? 45); [now apply noDigit_tail in H|].
  destruct (c =? 43); [now apply noDigit_tail in H|exact H].
Qed.

(** No exponent can be read from a text without digits. *)
Lemma takeExponent_noDigit (t : jsstring) : noDigit t -> takeExponent t = 0.
Proof.
  destruct t as [|c t]; [reflexivity|]. intros H. cbn [takeExponent].
  destruct ((c =? 101) || (c =? 69)); [|reflexivity].
  apply noDigit_tail in H as [_ H]. apply takeSign_noDigit in H.
  destruct (takeSign t) as [neg r']. cbn [snd] in H.
  now rewrite (takeDigits_noDigit _ H).
Qed.

Lemma digit_not_sign (c : codeunit) :
  isDigit c = true -> (c =? 45) = false /\ (c =? 43) = false.
Proof.
  unfold isDigit. intros H. apply andb_true_iff in H as [H1 H2].
  apply Z.leb_le in H1. split; apply Z.eqb_neq; lia.
Qed.

Lemma takeSign_app (sg r : jsstring) :
  SignPart sg ->
  match r with
  | [] => sg = []
  | c :: _ => (c =? 45) = false /\ (c =? 43) = false
  end ->
  takeSign (sg ++ r) = (match sg with [45] => true | _ => false end, r).
Proof.
  intros [| |] Hr; cbn [app takeSign]; try reflexivity.
  destruct r as [|c r]; [reflexivity|]. cbn [takeSign].
  destruct Hr as [-> ->]. reflexivity.
Qed.

Lemma digits_head (ds : jsstring) :
  digitsOnly ds -> ds <> [] ->
  exists c r, ds = c :: r /\ isDigit c = true.
Proof.
  destruct ds as [|c r]; [contradiction|]. unfold digitsOnly.
  cbn [forallb]. intros H _. apply andb_true_iff in H as [Hc _]. eauto.
Qed.

(** A complete exponent is read whole, whatever digit-free text
    follows. *)
Lemma takeExponent_app (e t : jsstring) :
  ExponentPart e -> noDigit t -> takeExponent (e ++ t) = takeExponent e.
Proof.
  intros [|c sg ds Hc Hsg Hne Hds] Ht.
  - cbn [app]. now rewrite takeExponent_noDigit.
  - cbn [app takeExponent].
    destruct ((c =? 101) || (c =? 69)); [|reflexivity].
    destruct (digits_head ds Hds Hne) as (d & r & -> & Hd).
    rewrite <- app_assoc.
    rewrite (takeSign_app sg ((d :: r) ++ t) Hsg)
      by (cbn [app]; now apply digit_not_sign).
    rewrite <- (app_nil_r (d :: r)) at 2.
    rewrite (takeSign_app sg ((d :: r) ++ []) Hsg)
      by (cbn [app]; now apply digit_not_sign).
    rewrite (takeDigits_app _ t Hds (noDigit_stops _ Ht)).
    rewrite (takeDigits_app _ [] Hds I). reflexivity.
Qed.

Lemma exponent_stops (e t : jsstring) :
  ExponentPart e -> noDigit t -> stops (e ++ t).
Proof.
  intros [|c sg ds [-> | ->] _ _ _] Ht; cbn [app].
  - now apply noDigit_stops.
  - reflexivity.
  - reflexivity.
Qed.

Lemma exponent_not_point (e : jsstring) (c : codeunit) (r : jsstring) :
  ExponentPart e -> e = c :: r -> (c =? 46) = false.
Proof.
  intros [|c' sg ds [-> | ->] _ _ _] H; inversion H; reflexivity.
Qed.

Lemma digit_not_I (c : codeunit) (r : jsstring) :
  isDigit c = true \/ c = 46 ->
  startsWith (str "Infinity") (c :: r) = false.
Proof.
  intros H. cbn [str list_ascii_of_string map startsWith].
  replace (Z.of_N (N_of_ascii "I") =? c) with false; [reflexivity|].
  symmetry. apply Z.eqb_neq. change (Z.of_N (N_of_ascii "I")) with 73.
  destruct H as [H| ->]; [|lia].
  unfold isDigit in H. apply andb_true_iff in H as [_ H].
  apply Z.leb_le in H. lia.
Qed.

(** The value read from digits, a point, digits, and a rest at which the
    fraction ends. *)
Lemma parseLiteral_point (neg : bool) (ip fp r : jsstring) :
  digitsOnly ip -> digitsOnly fp -> ip <> [] \/ fp <> [] -> stops r ->
  parseLiteral neg (ip ++ 46 :: fp ++ r)
  = let v := decimalValue ip fp (takeExponent r) in
    binary64 (if neg then - v else v)%Q.
Proof.
  intros Hip Hfp Hne Hr. unfold parseLiteral.
  assert (HI : startsWith (str "Infinity") (ip ++ 46 :: fp ++ r) = false).
  { destruct ip as [|c ip'].
    - apply digit_not_I. now right.
    - cbn [app]. apply digit_not_I. left. unfold digitsOnly in Hip.
      cbn [forallb] in Hip. now apply andb_true_iff in Hip as [Hc _]. }
  rewrite HI, (takeDigits_app ip (46 :: fp ++ r) Hip eq_refl).
  rewrite Z.eqb_refl, (takeDigits_app fp r Hfp Hr).
  destruct ip as [|c ip']; [|reflexivity].
  destruct fp as [|d fp']; [|reflexivity].
  destruct Hne; contradiction.
Qed.

(** The value read from digits and a rest that neither continues them
    nor starts a fraction. *)
Lemma parseLiteral_integer (neg : bool) (ip r : jsstring) :
  digitsOnly ip -> ip <> [] -> stops r ->
  match r with [] => True | c :: _ => (c =? 46) = false end ->
  parseLiteral neg (ip ++ r)
  = let v := decimalValue ip [] (takeExponent r) in
    binary64 (if neg then - v else v)%Q.
Proof.
  intros Hip Hne Hr Hpt. unfold parseLiteral.
  destruct (digits_head ip Hip Hne) as (c & ip' & -> & Hc).
  cbn [app]. rewrite digit_not_I by now left.
  change (c :: ip' ++ r) with ((c :: ip') ++ r).
  rewrite (takeDigits_app _ r Hip Hr).
  destruct r as [|d r]; [reflexivity|]. now rewrite Hpt.
Qed.

Lemma exponent_stops_alone (e : jsstring) : ExponentPart e -> stops e.
Proof.
  intros [|c sg ds [-> | ->] _ _ _]; easy.
Qed.

Lemma takeExponent_nil : takeExponent [] = 0.
Proof. reflexivity. Qed.

(** Digit-free text after a complete unsigned literal changes nothing. *)
Lemma parseLiteral_tail (neg : bool) (u t : jsstring) :
  StrUnsignedDecimalLiteral u -> noDigit t ->
  parseLiteral neg (u ++ t) = parseLiteral neg u.
Proof.
  intros Hu Ht. destruct Hu as [|ip fp e Hne Hip Hfp He|fp e Hne Hfp He
                                |ip e Hne Hip He].
  - reflexivity.
  - rewrite <- app_assoc. cbn [app]. rewrite <- app_assoc.
    rewrite (parseLiteral_point neg ip fp (e ++ t));
      [|assumption|assumption|now left|now apply exponent_stops].
    rewrite (parseLiteral_point neg ip fp e);
      [|assumption|assumption|now left|now apply exponent_stops_alone].
    now rewrite takeExponent_app.
  - cbn [app]. rewrite <- app_assoc.
    pose proof (parseLiteral_point neg [] fp (e ++ t) eq_refl Hfp
                  (or_intror Hne) (exponent_stops e t He Ht)) as X1.
    pose proof (parseLiteral_point neg [] fp e eq_refl Hfp
                  (or_intror Hne) (exponent_stops_alone e He)) as X2.
    cbn [app] in X1, X2. rewrite X1, X2.
    now rewrite takeExponent_app.
  - rewrite <- app_assoc.
    assert (Hpt : forall r, match e ++ r with
                            | [] => True
                            | c :: _ => (c =? 46) = false
                            end \/ e = []).
    { intros r. destruct e as [|c e'] eqn:Ee; [now right|left].
      cbn [app]. now apply (exponent_not_point _ c e' He). }
    destruct e as [|c e'] eqn:Ee.
    + (* no exponent: the tail may start with a point *)
      cbn [app]. rewrite app_nil_r.
      rewrite <- (app_nil_r ip) at 2.
      rewrite (parseLiteral_integer neg ip []) by easy.
      rewrite takeExponent_nil.
      destruct t as [|d t'].
      * now rewrite parseLiteral_integer.
      * destruct (d =? 46) eqn:Ed.
        -- apply Z.eqb_eq in Ed. subst d.
           apply noDigit_tail in Ht as [_ Ht'].
           pose proof (parseLiteral_point neg ip [] t' Hip eq_refl
                         (or_introl Hne) (noDigit_stops _ Ht')) as X.
           cbn [app] in X. rewrite X.
           now rewrite takeExponent_noDigit.
        -- rewrite parseLiteral_integer;
             [|assumption|assumption|now apply noDigit_stops|exact Ed].
           now rewrite takeExponent_noDigit.
    + rewrite <- Ee in *.
      destruct (Hpt t) as [Ht1|Hnil]; [|congruence].
      destruct (Hpt []) as [Ht2|Hnil]; [|congruence].
      rewrite app_nil_r in Ht2.
      rewrite (parseLiteral_integer neg ip (e ++ t));
        [|assumption|assumption|now apply exponent_stops|exact Ht1].
      rewrite (parseLiteral_integer neg ip e);
        [|assumption|assumption|now apply exponent_stops_alone|exact Ht2].
      now rewrite takeExponent_app.
Qed.

(** ** Rounding and equal rationals *)

Lemma Qpower2_inject (i : Z) : 0 <= i -> (2 ^ i == inject_Z (2 ^ i))%Q.
Proof. intros Hi. now rewrite Zpower_Qpower. Qed.

Lemma Qtwo_nonzero : ~ (2 == 0)%Q.
Proof. discriminate. Qed.

(** [Qlog2_floor a] is the exponent of the binade of [a]. *)
Lemma Qlog2_floor_spec (a : Q) :
  (0 < a)%Q ->
  (2 ^ Qlog2_floor a <= a)%Q /\ (a < 2 ^ (Qlog2_floor a + 1))%Q.
Proof.
  intros Ha. destruct a as [n d].
  assert (Hn : 0 < n) by (unfold Qlt in Ha; cbn in Ha; lia).
  pose proof (Z.log2_spec n Hn) as [Hn1 Hn2].
  pose proof (Z.log2_spec (Z.pos d) eq_refl) as [Hd1 Hd2].
  pose proof (Z.log2_nonneg n) as Hn0.
  pose proof (Z.log2_nonneg (Z.pos d)) as Hd0.
  set (ln := Z.log2 n) in *. set (ld := Z.log2 (Z.pos d)) in *.
  assert (Hup : (n # d < 2 ^ (ln - ld + 1))%Q).
  { replace (ln - ld + 1) with (Z.succ ln - ld) by lia.
    rewrite Qpower_minus by exact Qtwo_nonzero.
    rewrite !Qpower2_inject by lia.
    apply Qlt_shift_div_l.
    - change 0%Q with (inject_Z 0). rewrite <- Zlt_Qlt.
      apply Z.pow_pos_nonneg; lia.
    - unfold Qlt, Qmult. cbn [Qnum Qden inject_Z]. nia. }
  assert (Hlo : (2 ^ (ln - ld - 1) < n # d)%Q).
  { replace (ln - ld - 1) with (ln - Z.succ ld) by lia.
    rewrite Qpower_minus by exact Qtwo_nonzero.
    rewrite !Qpower2_inject by lia.
    apply Qlt_shift_div_r.
    - change 0%Q with (inject_Z 0). rewrite <- Zlt_Qlt.
      apply Z.pow_pos_nonneg; lia.
    - unfold Qlt, Qmult. cbn [Qnum Qden inject_Z]. nia. }
  unfold Qlog2_floor. cbn [Qnum Qden]. fold ln ld.
  destruct (Qle_bool (2 ^ (ln - ld)) (n # d)) eqn:E.
  - apply Qle_bool_iff in E. split; [exact E|exact Hup].
  - split; [now apply Qlt_le_weak|].
    replace (ln - ld - 1 + 1) with (ln - ld) by lia.
    apply Qnot_le_lt. intros C. apply Qle_bool_iff in C. congruence.
Qed.

Lemma Qlog2_floor_mono (a b : Q) :
  (0 < a)%Q -> (a <= b)%Q -> Qlog2_floor a <= Qlog2_floor b.
Proof.
  intros Ha Hab.
  assert (Hb : (0 < b)%Q) by (eapply Qlt_le_trans; eauto).
  destruct (Qlog2_floor_spec a Ha) as [Ha1 _].
  destruct (Qlog2_floor_spec b Hb) as [_ Hb2].
  assert (H : (2 ^ Qlog2_floor a < 2 ^ (Qlog2_floor b + 1))%Q).
  { eapply Qle_lt_trans; [exact Ha1|]. eapply Qle_lt_trans; eauto. }
  apply Qpower_lt_compat_l_inv in H; [lia|reflexivity].
Qed.

Lemma Qround_even_comp (x y : Q) : (x == y)%Q -> Qround_even x = Qround_even y.
Proof.
  intros H. unfold Qround_even. rewrite (Qfloor_comp _ _ H).
  assert (E : (x - inject_Z (Qfloor y) == y - inject_Z (Qfloor y))%Q)
    by now rewrite H.
  now rewrite (Qcompare_comp _ _ E _ _ (Qeq_refl (1 # 2))).
Qed.

(** [binary64] gives one Number for the two ways of writing one
    rational. *)
Lemma Qlog2_floor_comp (a b : Q) :
  (0 < a)%Q -> (a == b)%Q -> Qlog2_floor a = Qlog2_floor b.
Proof.
  intros Ha H.
  assert (Hb : (0 < b)%Q) by now rewrite <- H.
  assert (H1 : (a <= b)%Q) by (rewrite H; apply Qle_refl).
  assert (H2 : (b <= a)%Q) by (rewrite H; apply Qle_refl).
  pose proof (Qlog2_floor_mono a b Ha H1).
  pose proof (Qlog2_floor_mono b a Hb H2). lia.
Qed.

Lemma binary64_comp (x y : Q) : (x == y)%Q -> binary64 x = binary64 y.
Proof.
  intros H.
  assert (Ha : (Qabs x == Qabs y)%Q) by now rewrite H.
  assert (Hs : Z.sgn (Qnum x) = Z.sgn (Qnum y)).
  { unfold Qeq in H. destruct x as [n d], y as [m e].
    cbn [Qnum Qden] in *. nia. }
  assert (Hl : Qnum x <> 0 -> Qlog2_floor (Qabs x) = Qlog2_floor (Qabs y)).
  { intros Hx. apply Qlog2_floor_comp; [|exact Ha].
    destruct x as [n d]. unfold Qlt, Qabs. cbn [Qnum Qden] in *. lia. }
  unfold binary64.
  destruct (Qnum x) as [|p|p] eqn:Ex, (Qnum y) as [|q|q] eqn:Ey;
    try (cbn in Hs; discriminate); try reflexivity;
    rewrite <- Hl by (rewrite ?Ex; discriminate);
    set (e := Z.max (-1074) (Qlog2_floor (Qabs x) - 52));
    assert (Hm : Qround_even (Qabs x / 2 ^ e) = Qround_even (Qabs y / 2 ^ e))
      by (apply Qround_even_comp; now rewrite Ha);
    rewrite <- Hm; reflexivity.
Qed.
Lemma trimStart_app_ws (w s : jsstring) :
  forallb isWhiteSpace w = true -> trimStart (w ++ s) = trimStart s.
Proof.
  induction w as [|c w IH]; cbn [app forallb trimStart]; [reflexivity|].
  intros H. apply andb_true_iff in H as [Hc Hw]. now rewrite Hc, IH.
Qed.

Lemma trimStart_split (s : jsstring) :
  exists w, s = w ++ trimStart s /\ forallb isWhiteSpace w = true.
Proof.
  induction s as [|c s (w & Hs & Hw)]; cbn [trimStart].
  - now exists [].
  - destruct (isWhiteSpace c) eqn:E.
    + exists (c :: w). cbn [app forallb]. rewrite E, Hw. split; [|reflexivity].
      now f_equal.
    + now exists [].
Qed.

Lemma takeSign_split (s : jsstring) :
  exists sg, SignPart sg /\ s = sg ++ snd (takeSign s).
Proof.
  destruct s as [|c s]; cbn [takeSign].
  - exists []. split; [constructor|reflexivity].
  - destruct (c =? 45) eqn:E1.
    + apply Z.eqb_eq in E1. subst c. exists [45]. split; [constructor|].
      reflexivity.
    + destruct (c =? 43) eqn:E2.
      * apply Z.eqb_eq in E2. subst c. exists [43]. split; [constructor|].
        reflexivity.
      * exists []. split; [constructor|reflexivity].
Qed.

Lemma startsWith_split (p s : jsstring) :
  startsWith p s = true -> exists t, s = p ++ t.
Proof.
  revert s. induction p as [|c p IH]; intros s; cbn [startsWith].
  - now exists s.
  - destruct s as [|d s]; [discriminate|]. intros H.
    apply andb_true_iff in H as [Hc Hp]. apply Z.eqb_eq in Hc. subst d.
    destruct (IH s Hp) as [t ->]. now exists t.
Qed.

(** The head of an unsigned literal is a digit, a point or the letter I:
    neither white space nor a sign. *)
Lemma unsigned_head (u : jsstring) :
  StrUnsignedDecimalLiteral u ->
  exists c r, u = c :: r /\ isWhiteSpace c = false
              /\ (c =? 45) = false /\ (c =? 43) = false.
Proof.
  assert (D : forall c, isDigit c = true ->
                isWhiteSpace c = false
                /\ (c =? 45) = false /\ (c =? 43) = false).
  { intros c Hc. split; [|now apply digit_not_sign].
    unfold isDigit in Hc. apply andb_true_iff in Hc as [H1 H2].
    apply Z.leb_le in H1, H2. unfold isWhiteSpace.
    repeat (apply orb_false_iff; split);
      try (apply Z.eqb_neq; lia);
      apply andb_false_iff; (left; apply Z.leb_gt; lia)
                            || (right; apply Z.leb_gt; lia). }
  intros [|ip fp e Hne Hip _ _|fp e _ _ _|ip e Hne Hip _].
  - exists 73, (str "nfinity"). repeat split.
  - destruct (digits_head ip Hip Hne) as (c & r & -> & Hc).
    exists c, (r ++ 46 :: fp ++ e). split; [reflexivity|now apply D].
  - exists 46, (fp ++ e). repeat split.
  - destruct (digits_head ip Hip Hne) as (c & r & -> & Hc).
    exists c, (r ++ e). split; [reflexivity|now apply D].
Qed.

(** [parseFloat] on white space, a sign, an unsigned literal and any
    text: the literal is read at the head of what follows the sign. *)
Lemma parseFloat_literal (w sg u t : jsstring) :
  forallb isWhiteSpace w = true -> SignPart sg ->
  StrUnsignedDecimalLiteral u ->
  parseFloat ((w ++ sg ++ u) ++ t)
  = parseLiteral (match sg with [45] => true | _ => false end) (u ++ t).
Proof.
  intros Hw Hsg Hu. unfold parseFloat.
  destruct (unsigned_head u Hu) as (c & r & -> & Hws & H45 & H43).
  rewrite <- !app_assoc, (trimStart_app_ws _ _ Hw).
  assert (Htrim : trimStart (sg ++ (c :: r) ++ t) = sg ++ (c :: r) ++ t).
  { destruct Hsg; cbn [app trimStart]; [now rewrite Hws| |];
      reflexivity. }
  rewrite Htrim, (takeSign_app sg ((c :: r) ++ t) Hsg) by (cbn [app]; auto).
  reflexivity.
Qed.

Lemma parseLiteral_digits_not_NaN (neg : bool) (s : jsstring) :
  fst (takeDigits s) <> [] -> parseLiteral neg s <> NaN.
Proof.
  intros H. unfold parseLiteral.
  destruct (startsWith _ s); [destruct neg; discriminate|].
  destruct (takeDigits s) as [ip s3]. cbn [fst] in H.
  destruct (match s3 with
            | [] => ([], s3)
            | c :: r => if c =? 46 then takeDigits r else ([], s3)
            end) as [fp s4].
  destruct ip as [|d ip]; [contradiction|].
  match goal with
  | |- binary64 ?x <> NaN =>
    destruct (binary64_cases x) as [E|[E|[q E]]]; rewrite E; discriminate
  end.
Qed.

Lemma parseLiteral_fraction_not_NaN (neg : bool) (r : jsstring) :
  fst (takeDigits r) <> [] -> parseLiteral neg (46 :: r) <> NaN.
Proof.
  intros H. unfold parseLiteral.
  destruct (startsWith _ (46 :: r)); [destruct neg; discriminate|].
  cbn [takeDigits]. change (isDigit 46) with false. cbn iota.
  rewrite Z.eqb_refl. destruct (takeDigits r) as [fp s4]. cbn [fst] in H.
  destruct fp as [|d fp]; [contradiction|].
  match goal with
  | |- binary64 ?x <> NaN =>
    destruct (binary64_cases x) as [E|[E|[q E]]]; rewrite E; discriminate
  end.
Qed.

(** Whatever follows a complete unsigned literal, a number is read. *)
Lemma parseLiteral_not_NaN (neg : bool) (u t : jsstring) :
  StrUnsignedDecimalLiteral u -> parseLiteral neg (u ++ t) <> NaN.
Proof.
  intros [|ip fp e Hne Hip _ _|fp e Hne Hfp _|ip e Hne Hip _].
  - destruct neg; discriminate.
  - rewrite <- app_assoc. apply parseLiteral_digits_not_NaN.
    now apply takeDigits_nonempty.
  - cbn [app]. rewrite <- app_assoc. apply parseLiteral_fraction_not_NaN.
    now apply takeDigits_nonempty.
  - rewrite <- app_assoc. apply parseLiteral_digits_not_NaN.
    now apply takeDigits_nonempty.
Qed.

(** When a number is read, a complete unsigned literal stands at the
    head of the text. *)
Lemma parseLiteral_prefix (neg : bool) (s : jsstring) :
  parseLiteral neg s <> NaN ->
  exists u t, s = u ++ t /\ StrUnsignedDecimalLiteral u.
Proof.
  unfold parseLiteral. destruct (startsWith _ s) eqn:EI.
  - intros _. apply startsWith_split in EI as [t ->].
    exists (str "Infinity"), t. split; [reflexivity|constructor].
  - destruct (takeDigits_spec s) as (Hs & Hip & _).
    destruct (takeDigits s) as [ip s3]. cbn [fst snd] in Hs, Hip.
    destruct s3 as [|c r].
    + destruct ip as [|d ip]; [intros H; now contradiction H|]. intros _.
      exists (d :: ip), []. split; [exact Hs|].
      rewrite <- (app_nil_r (d :: ip)).
      apply lit_integer; [discriminate|exact Hip|constructor].
    + destruct (c =? 46) eqn:Ec.
      * apply Z.eqb_eq in Ec. subst c.
        destruct (takeDigits_spec r) as (Hr & Hfp & _).
        destruct (takeDigits r) as [fp s4]. cbn [fst snd] in Hr, Hfp.
        destruct ip as [|d ip].
        -- destruct fp as [|f fp]; [intros H; now contradiction H|].
           intros _. exists (46 :: f :: fp), s4. split.
           ++ rewrite Hs, Hr. reflexivity.
           ++ rewrite <- (app_nil_r (f :: fp)).
              apply lit_fraction; [discriminate|exact Hfp|constructor].
        -- intros _. exists ((d :: ip) ++ 46 :: fp), s4. split.
           ++ rewrite Hs, Hr, <- app_assoc. reflexivity.
           ++ rewrite <- (app_nil_r fp).
              apply lit_point;
                [discriminate|exact Hip|exact Hfp|constructor].
      * destruct ip as [|d ip]; [intros H; now contradiction H|]. intros _.
        exists (d :: ip), (c :: r). split; [exact Hs|].
        rewrite <- (app_nil_r (d :: ip)).
        apply lit_integer; [discriminate|exact Hip|constructor].
Qed.

(** [parseFloat] yields NaN exactly on the strings that do not begin
    with a parseable float. *)
Lemma parseFloat_NaN_iff (s : jsstring) :
  parseFloat s = NaN <-> ~ (exists p t, s = p ++ t /\ FloatText p).
Proof.
  split.
  - intros H (p & t & -> & w & lit & -> & Hw & Hlit).
    destruct Hlit as [sg u Hsg Hu].
    rewrite parseFloat_literal in H by assumption.
    now apply parseLiteral_not_NaN in H.
  - intros H. destruct (parseFloat s) eqn:E; [reflexivity| | |]; exfalso;
      apply H; clear H;
      unfold parseFloat in E;
      destruct (trimStart_split s) as (w & Hs & Hw);
      destruct (takeSign_split (trimStart s)) as (sg & Hsg & Ht);
      destruct (takeSign (trimStart s)) as [neg s2]; cbn [snd] in Ht;
      (destruct (parseLiteral_prefix neg s2) as (u & t & -> & Hu);
       [rewrite E; discriminate|]);
      exists (w ++ sg ++ u), t;
      (split; [rewrite Hs at 1; rewrite Ht, <- !app_assoc; reflexivity|]);
      exists w, (sg ++ u); (split; [reflexivity|]);
      (split; [exact Hw|now constructor]).
Qed.

(** ** The value of a literal *)

Lemma digitsValue_from (ds : jsstring) (acc : Z) :
  fold_left (fun a d => 10 * a + (d - 48)) ds acc
  = acc * 10 ^ Z.of_nat (List.length ds) + digitsMV ds.
Proof.
  revert acc. induction ds as [|d r IH]; intros acc.
  - cbn. lia.
  - cbn [fold_left digitsMV List.length]. rewrite IH, Nat2Z.inj_succ.
    rewrite Z.pow_succ_r by lia. ring.
Qed.

(** The digits are read by Horner's rule, which gives the positional
    value. *)
Lemma digitsValue_MV (ds : jsstring) : digitsValue ds = digitsMV ds.
Proof. unfold digitsValue. rewrite digitsValue_from. lia. Qed.

Lemma digitsMV_app (ip fp : jsstring) :
  digitsMV (ip ++ fp)
  = digitsMV ip * 10 ^ Z.of_nat (List.length fp) + digitsMV fp.
Proof.
  rewrite <- !digitsValue_MV. unfold digitsValue.
  rewrite fold_left_app, digitsValue_from, digitsValue_from.
  rewrite (digitsValue_from fp 0). lia.
Qed.

Lemma Qten_nonzero : ~ (10 == 0)%Q.
Proof. discriminate. Qed.

Lemma decimalValue_MV (ip fp : jsstring) (x : Z) :
  (decimalValue ip fp x
   == (inject_Z (digitsMV ip)
       + inject_Z (digitsMV fp) / 10 ^ Z.of_nat (List.length fp)) * 10 ^ x)%Q.
Proof.
  unfold decimalValue. rewrite digitsValue_MV, digitsMV_app.
  set (n := Z.of_nat (List.length fp)).
  assert (Hn : 0 <= n) by (subst n; lia).
  rewrite Qpower_minus by exact Qten_nonzero.
  rewrite inject_Z_plus, inject_Z_mult, (Zpower_Qpower 10 n Hn).
  change (inject_Z 10) with 10%Q.
  assert (Hp : ~ (10 ^ n == 0)%Q).
  { apply Qpower_not_0, Qten_nonzero. }
  field. exact Hp.
Qed.

Lemma ExponentMV_part (e : jsstring) (x : Z) :
  ExponentMV e x -> ExponentPart e.
Proof. intros [|c sg ds Hc Hsg Hne Hds]; now constructor. Qed.

Lemma ExponentPart_MV (e : jsstring) :
  ExponentPart e -> exists x, ExponentMV e x.
Proof. intros [|c sg ds Hc Hsg Hne Hds]; eexists; now constructor. Qed.

(** A complete exponent is read with its sign and its value. *)
Lemma takeExponent_MV (e : jsstring) (x : Z) :
  ExponentMV e x -> takeExponent e = x.
Proof.
  intros [|c sg ds Hc Hsg Hne Hds]; [reflexivity|].
  cbn [takeExponent].
  assert (Hce : (c =? 101) || (c =? 69) = true).
  { destruct Hc as [-> | ->]; reflexivity. }
  rewrite Hce.
  destruct (digits_head ds Hds Hne) as (d & r & -> & Hd).
  rewrite <- (app_nil_r (d :: r)) at 1.
  rewrite (takeSign_app sg ((d :: r) ++ []) Hsg)
    by (cbn [app]; now apply digit_not_sign).
  rewrite (takeDigits_app _ [] Hds I), digitsValue_MV.
  destruct Hsg; reflexivity.
Qed.

Lemma UnsignedMV_literal (u : jsstring) (v : option Q) :
  UnsignedMV u v -> StrUnsignedDecimalLiteral u.
Proof.
  intros [|ip fp e x Hne Hip Hfp He|fp e x Hne Hfp He|ip e x Hne Hip He];
    constructor; try assumption; eapply ExponentMV_part; eassumption.
Qed.

Lemma literal_UnsignedMV (u : jsstring) :
  StrUnsignedDecimalLiteral u -> exists v, UnsignedMV u v.
Proof.
  intros [|ip fp e Hne Hip Hfp He|fp e Hne Hfp He|ip e Hne Hip He];
    try (destruct (ExponentPart_MV e He) as [x Hx]);
    eexists; constructor; eassumption.
Qed.

Lemma numberOf_comp (neg : bool) (q q' : Q) :
  (q == q')%Q ->
  binary64 (if neg then - q else q)%Q = numberOf neg (Some q').
Proof.
  intros H. cbn [numberOf]. apply binary64_comp.
  destruct neg; [now rewrite H|exact H].
Qed.

(** An unsigned literal is read as the Number of its value. *)
Lemma parseLiteral_MV (neg : bool) (u : jsstring) (v : option Q) :
  UnsignedMV u v -> parseLiteral neg u = numberOf neg v.
Proof.
  intros [|ip fp e x Hne Hip Hfp He|fp e x Hne Hfp He|ip e x Hne Hip He].
  - destruct neg; reflexivity.
  - rewrite (parseLiteral_point neg ip fp e);
      [|assumption|assumption|now left
       |apply exponent_stops_alone; eapply ExponentMV_part; eassumption].
    cbv zeta. rewrite (takeExponent_MV e x He).
    apply numberOf_comp, decimalValue_MV.
  - pose proof (parseLiteral_point neg [] fp e eq_refl Hfp
                  (or_intror Hne)
                  (exponent_stops_alone e (ExponentMV_part e x He))) as X.
    cbn [app] in X. rewrite X. cbv zeta. rewrite (takeExponent_MV e x He).
    apply numberOf_comp. rewrite decimalValue_MV.
    cbn [digitsMV]. change (inject_Z 0) with 0%Q. ring.
  - assert (Hpt : match e with [] => True | c :: _ => (c =? 46) = false end).
    { destruct He as [|c sg ds [-> | ->] _ _ _]; easy. }
    rewrite (parseLiteral_integer neg ip e Hip Hne
               (exponent_stops_alone e (ExponentMV_part e x He)) Hpt).
    cbv zeta. rewrite (takeExponent_MV e x He).
    apply numberOf_comp. rewrite decimalValue_MV.
    cbn [digitsMV List.length Z.of_nat]. change (inject_Z 0) with 0%Q.
    rewrite Qpower_0_r. field.
Qed.

Lemma FloatValue_text (p : jsstring) (v : jsnumber) :
  FloatValue p v -> FloatText p.
Proof.
  intros [w sg u q Hw Hsg Hu]. exists w, (sg ++ u).
  split; [reflexivity|]. split; [exact Hw|].
  constructor; [exact Hsg|]. eapply UnsignedMV_literal; eassumption.
Qed.

Lemma FloatText_value (p : jsstring) :
  FloatText p -> exists v, FloatValue p v.
Proof.
  intros (w & lit & -> & Hw & Hlit). destruct Hlit as [sg u Hsg Hu].
  destruct (literal_UnsignedMV u Hu) as [q Hq].
  eexists. constructor; eassumption.
Qed.

(** A parseable float followed by text without digits is read as the
    Number the float writes. *)
Lemma parseFloat_value (p t : jsstring) (v : jsnumber) :
  FloatValue p v -> noDigit t -> parseFloat (p ++ t) = v.
Proof.
  intros [w sg u q Hw Hsg Hu] Ht.
  pose proof (UnsignedMV_literal u q Hu) as Hlit.
  rewrite parseFloat_literal by assumption.
  rewrite parseLiteral_tail by assumption.
  now apply parseLiteral_MV.
Qed.

Lemma FloatValue_not_NaN (p : jsstring) (v : jsnumber) :
  FloatValue p v -> v <> NaN.
Proof.
  intros H. rewrite <- (parseFloat_value p [] v H eq_refl).
  destruct H as [w sg u q Hw Hsg Hu].
  rewrite parseFloat_literal
    by (try assumption; eapply UnsignedMV_literal; eassumption).
  apply parseLiteral_not_NaN. eapply UnsignedMV_literal; eassumption.
Qed.

(** ** Numeric prefixes *)

(** C10.  [parseFloat], and with it [computeFitScore], reads a numeric
    prefix: when a string is a parseable float followed by characters
    none of which is a digit, the number read is the one the float
    writes (its digits by their places, its fraction, its exponent and
    its sign, rounded to binary64) and the score is the clamped rounded
    score of that number, computed on the numeric path and not by the
    default.  Every parseable float writes exactly one number.  The
    default 50 is returned on the strings that yield NaN, which are the
    strings that do not begin with a parseable float.  With sample
    strings that have a fraction, an exponent, a sign, leading white
    space, a bare point and an infinity. *)
Theorem computeFitScore_numeric_prefix :
  (forall p t v, FloatValue p v -> noDigit t ->
     parseFloat (p ++ t) = v
     /\ v <> NaN
     /\ computeFitScore (p ++ t) = fitScoreOf v)
  /\ (forall p, FloatText p <-> exists v, FloatValue p v)
  /\ (forall p v v', FloatValue p v -> FloatValue p v' -> v = v')
  /\ (forall p t, FloatText p -> noDigit t ->
     parseFloat (p ++ t) = parseFloat p
     /\ parseFloat p <> NaN
     /\ computeFitScore (p ++ t) = fitScoreOf (parseFloat p)
     /\ computeFitScore (p ++ t) = computeFitScore p)
  /\ (forall s, parseFloat s = NaN
                <-> ~ (exists p t, s = p ++ t /\ FloatText p))
  /\ (forall s, ~ (exists p t, s = p ++ t /\ FloatText p) ->
                computeFitScore s = num 50)
  /\ computeFitScore (str "3.5abc") = num 88
  /\ computeFitScore (str "3.5") = num 88
  /\ FloatValue (str "1e1") (num 10)
  /\ computeFitScore (str "1e1x") = num 100
  /\ computeFitScore (str "25e-1 GPA") = num 63
  /\ computeFitScore (str ".5x") = num 13
  /\ computeFitScore (str "-3.5abc") = num 0
  /\ computeFitScore (str "  2.0 (weighted)") = num 50
  /\ computeFitScore (str "2.9e0/four") = num 73
  /\ computeFitScore (str "Infinity and beyond") = num 100
  /\ computeFitScore (str "abc3.5") = num 50.
Proof.
  assert (F : forall s, parseFloat s <> NaN ->
                computeFitScore s = fitScoreOf (parseFloat s)).
  { intros s Hs. unfold computeFitScore, fitScoreOf.
    destruct (parseFloat s) eqn:Es; [contradiction| | |];
      apply round_clamp_commute, scaled_not_NaN; discriminate. }
  assert (V : forall p t v, FloatValue p v -> noDigit t ->
                parseFloat (p ++ t) = v /\ v <> NaN
                /\ computeFitScore (p ++ t) = fitScoreOf v).
  { intros p t v Hv Ht.
    pose proof (parseFloat_value p t v Hv Ht) as E.
    pose proof (FloatValue_not_NaN p v Hv) as N.
    repeat apply conj; [exact E|exact N|].
    rewrite <- E. apply F. now rewrite E. }
  repeat apply conj.
  - exact V.
  - intros p. split; [apply FloatText_value|].
    intros [v Hv]. eapply FloatValue_text; eassumption.
  - intros p v v' Hv Hv'.
    rewrite <- (parseFloat_value p [] v Hv eq_refl).
    now apply parseFloat_value.
  - intros p t Hp Ht. destruct (FloatText_value p Hp) as [v Hv].
    destruct (V p t v Hv Ht) as (E & N & S).
    destruct (V p [] v Hv eq_refl) as (E0 & _ & S0).
    rewrite app_nil_r in E0, S0.
    repeat apply conj.
    + now rewrite E, E0.
    + now rewrite E0.
    + now rewrite E0.
    + now rewrite S, S0.
  - apply parseFloat_NaN_iff.
  - intros s H. apply parseFloat_NaN_iff in H.
    unfold computeFitScore. now rewrite H.
  - vm_compute. reflexivity.
  - vm_compute. reflexivity.
  - apply (float_value [] [] (str "1e1") (Some (inject_Z (digitsMV [49%Z]) * 10 ^ 1)%Q)
             eq_refl sign_none).
    apply (mv_integer [49] (str "e1") 1); [discriminate|reflexivity|].
    apply (expMV_some 101 [] [49]);
      [now left|constructor|discriminate|reflexivity].
  - vm_compute. reflexivity.
  - vm_compute. reflexivity.
  - vm_compute. reflexivity.
  - vm_compute. reflexivity.
  - vm_compute. reflexivity.
  - vm_compute. reflexivity.
  - vm_compute. reflexivity.
  - vm_compute. reflexivity.
Qed.

Lemma computeFitScore_numeric_prefix_witness :
  parseFloat (str "1e1" ++ str "x") = num 10
  /\ computeFitScore (str "1e1" ++ str "x") = fitScoreOf (num 10).
Proof.
  destruct computeFitScore_numeric_prefix
    as (H & _ & _ & _ & _ & _ & _ & _ & Hv & _).
  destruct (H (str "1e1") (str "x") (num 10) Hv eq_refl) as (H1 & _ & H2).
  split; assumption.
Defined.
(** ** Binary64 rounding on known values *)

(** 0.1 is 0x1.999999999999ap-4. *)
Example binary64_tenth :
  binary64 (1 # 10) = Fin (3602879701896397 # 36028797018963968).
Proof. vm_compute. reflexivity. Qed.

(** 1/3 is 0x1.5555555555555p-2. *)
Example binary64_third :
  binary64 (1 # 3) = Fin (6004799503160661 # 18014398509481984).
Proof. vm_compute. reflexivity. Qed.

(** 10^23 is not representable; the nearest binary64 lies below it. *)
Example binary64_1e23 :
  parseFloat (str "1e23") = num 99999999999999991611392.
Proof. vm_compute. reflexivity. Qed.

(** Ties go to the even significand: 2^53 + 1 rounds down, 2^53 + 3
    rounds up. *)
Example binary64_ties :
  binary64 (inject_Z (2 ^ 53 + 1)) = num (2 ^ 53)
  /\ binary64 (inject_Z (2 ^ 53 + 3)) = num (2 ^ 53 + 4).
Proof. split; vm_compute; reflexivity. Qed.

(** Subnormals: 10^-320 is 2024 units of 2^-1074; 10^-400 underflows to
    zero; 10^400 overflows. *)
Example binary64_range :
  parseFloat (str "1e-320") = Fin (Qred (2024 * 2 ^ (-1074)))
  /\ parseFloat (str "1e-400") = num 0
  /\ parseFloat (str "1e400") = PInf
  /\ parseFloat (str "-1e400") = NInf.
Proof. repeat split; vm_compute; reflexivity. Qed.
(** ** JSON: strings *)

Lemma hexValue_hexDigit (d : Z) :
  0 <= d < 16 -> hexValue (hexDigit d) = Some d.
Proof.
  intros Hd. unfold hexDigit. destruct (d <? 10) eqn:E.
  - apply Z.ltb_lt in E. unfold hexValue, isDigit.
    replace (48 <=? 48 + d) with true by (symmetry; apply Z.leb_le; lia).
    replace (48 + d <=? 57) with true by (symmetry; apply Z.leb_le; lia).
    cbn [andb]. f_equal. lia.
  - apply Z.ltb_ge in E. unfold hexValue, isDigit.
    replace (87 + d <=? 57) with false by (symmetry; apply Z.leb_gt; lia).
    rewrite andb_false_r.
    replace (97 <=? 87 + d) with true by (symmetry; apply Z.leb_le; lia).
    replace (87 + d <=? 102) with true by (symmetry; apply Z.leb_le; lia).
    cbn [andb]. f_equal. lia.
Qed.

(** A unicode escape is read back as the code unit it was written
    for. *)
Lemma parse_unicodeEscape (c : Z) (k : list Z) :
  isCodeUnit c = true ->
  parseStringBody (unicodeEscape c ++ k)
  = match parseStringBody k with
    | Some (t, rest) => Some (c :: t, rest)
    | None => None
    end.
Proof.
  intros Hc. unfold isCodeUnit in Hc. apply andb_true_iff in Hc as [H0 H1].
  apply Z.leb_le in H0. apply Z.ltb_lt in H1.
  unfold unicodeEscape. cbn [app parseStringBody].
  change (92 =? 34) with false. change (92 =? 92) with true.
  change (117 =? 117) with true. cbn iota.
  rewrite !hexValue_hexDigit by (apply Z.mod_pos_bound; lia).
  replace (4096 * (c / 4096 mod 16) + 256 * (c / 256 mod 16)
           + 16 * (c / 16 mod 16) + c mod 16) with c; [reflexivity|].
  rewrite (Z.mod_small (c / 4096) 16)
    by (split; [apply Z.div_pos; lia|apply Z.div_lt_upper_bound; lia]).
  pose proof (Z.div_mod c 16 ltac:(lia)) as E1.
  pose proof (Z.div_mod (c / 16) 16 ltac:(lia)) as E2.
  pose proof (Z.div_mod (c / 16 / 16) 16 ltac:(lia)) as E3.
  rewrite !Z.div_div in E2, E3 by lia. rewrite Z.div_div in E3 by lia.
  change (16 * 16) with 256 in *. change (256 * 16) with 4096 in *.
  pose proof (Z.mod_small (c / 4096) 16) as E4.
  lia.
Qed.

(** A code unit copied as it is. *)
Lemma parse_literal_unit (c : Z) (k : list Z) :
  (c =? 34) = false -> (c =? 92) = false -> (c <? 32) = false ->
  parseStringBody (c :: k)
  = match parseStringBody k with
    | Some (t, rest) => Some (c :: t, rest)
    | None => None
    end.
Proof.
  intros H1 H2 H3. cbn [parseStringBody]. now rewrite H1, H2, H3.
Qed.

Lemma parse_quoteUnit (c : Z) (k : list Z) :
  isCodeUnit c = true ->
  parseStringBody (quoteUnit c ++ k)
  = match parseStringBody k with
    | Some (t, rest) => Some (c :: t, rest)
    | None => None
    end.
Proof.
  intros Hc. unfold quoteUnit.
  destruct (c =? 8) eqn:E8; [apply Z.eqb_eq in E8; subst; reflexivity|].
  destruct (c =? 9) eqn:E9; [apply Z.eqb_eq in E9; subst; reflexivity|].
  destruct (c =? 10) eqn:E10; [apply Z.eqb_eq in E10; subst; reflexivity|].
  destruct (c =? 12) eqn:E12; [apply Z.eqb_eq in E12; subst; reflexivity|].
  destruct (c =? 13) eqn:E13; [apply Z.eqb_eq in E13; subst; reflexivity|].
  destruct (c =? 34) eqn:E34; [apply Z.eqb_eq in E34; subst; reflexivity|].
  destruct (c =? 92) eqn:E92; [apply Z.eqb_eq in E92; subst; reflexivity|].
  destruct (c <? 32) eqn:E32; cbn [orb].
  - now apply parse_unicodeEscape.
  - destruct (isLeadSurrogate c || isTrailSurrogate c).
    + now apply parse_unicodeEscape.
    + cbn [app]. now apply parse_literal_unit.
Qed.

Lemma surrogate_literal (c : Z) :
  isLeadSurrogate c = true \/ isTrailSurrogate c = true ->
  (c =? 34) = false /\ (c =? 92) = false /\ (c <? 32) = false.
Proof.
  unfold isLeadSurrogate, isTrailSurrogate.
  intros [H|H]; apply andb_true_iff in H as [H1 _]; apply Z.leb_le in H1;
    repeat split; try (apply Z.eqb_neq; lia); apply Z.ltb_ge; lia.
Qed.

Lemma parse_quoteUnits_bounded (n : nat) :
  forall s rest, (List.length s <= n)%nat -> wfString s = true ->
    parseStringBody (quoteUnits s ++ 34 :: rest) = Some (s, rest).
Proof.
  induction n as [|n IH]; intros s rest Hlen Hwf.
  - destruct s; [reflexivity|simpl in Hlen; lia].
  - destruct s as [|c s']; [reflexivity|].
    unfold wfString in Hwf. cbn [forallb] in Hwf.
    apply andb_true_iff in Hwf as [Hc Hwf'].
    cbn [List.length] in Hlen. cbn [quoteUnits].
    destruct s' as [|d s''].
    + rewrite parse_quoteUnit by exact Hc. reflexivity.
    + destruct (isLeadSurrogate c && isTrailSurrogate d) eqn:Epair.
      * apply andb_true_iff in Epair as [Hlead Htrail].
        destruct (surrogate_literal c (or_introl Hlead)) as (A1 & A2 & A3).
        destruct (surrogate_literal d (or_intror Htrail)) as (B1 & B2 & B3).
        cbn [app]. rewrite (parse_literal_unit c _ A1 A2 A3).
        rewrite (parse_literal_unit d _ B1 B2 B3).
        cbn [forallb] in Hwf'. apply andb_true_iff in Hwf' as [_ Hwf''].
        rewrite IH; [reflexivity|cbn [List.length] in Hlen; lia|exact Hwf''].
      * rewrite <- app_assoc. rewrite parse_quoteUnit by exact Hc.
        rewrite IH; [reflexivity|lia|exact Hwf'].
Qed.

(** Reading what QuoteJSONString wrote gives the string back. *)
Lemma parse_quoted (s rest : list Z) :
  wfString s = true ->
  parseStringBody (quoteUnits s ++ 34 :: rest) = Some (s, rest).
Proof.
  apply (parse_quoteUnits_bounded (List.length s)). lia.
Qed.
(** ** JSON: numbers *)

Lemma Qround_even_Z (n : Z) : Qround_even (inject_Z n) = n.
Proof.
  unfold Qround_even. rewrite Qfloor_Z.
  assert (E : (inject_Z n - inject_Z n == 0)%Q) by ring.
  now rewrite (Qcompare_comp _ _ E _ _ (Qeq_refl (1 # 2))).
Qed.

Lemma Qred_inject_Z (z : Z) : Qred (inject_Z z) = inject_Z z.
Proof.
  apply Qred_identity. cbn [Qnum Qden inject_Z]. apply Z.gcd_1_r.
Qed.

Lemma Qlog2_floor_inject (n : Z) : Qlog2_floor (inject_Z n) <= Z.log2 n.
Proof.
  unfold Qlog2_floor. cbn [Qnum Qden inject_Z]. change (Z.log2 1) with 0.
  rewrite Z.sub_0_r. destruct (Qle_bool _ _); lia.
Qed.

(** A positive integer below 2^53 scaled by the unit in the last place
    is an integer: nothing is rounded away. *)
Lemma binary64_pos_exact (n : Z) :
  0 < n < 2 ^ 53 ->
  let e := Z.max (-1074) (Qlog2_floor (inject_Z n) - 52) in
  let m := Qround_even (inject_Z n / 2 ^ e)%Q in
  (inject_Z m * 2 ^ e == inject_Z n)%Q.
Proof.
  intros Hn e m.
  assert (He : -1074 <= e <= 0).
  { subst e. pose proof (Qlog2_floor_inject n) as H.
    assert (Z.log2 n < 53) by (apply Z.log2_lt_pow2; lia). lia. }
  assert (Hpow : (2 ^ e == / inject_Z (2 ^ (- e)))%Q).
  { rewrite <- (Z.opp_involutive e) at 1. rewrite Qpower_opp.
    now rewrite Zpower_Qpower by lia. }
  assert (Hnz : ~ (inject_Z (2 ^ (- e)) == 0)%Q).
  { change 0%Q with (inject_Z 0). rewrite inject_Z_injective.
    apply Z.pow_nonzero; lia. }
  assert (Hm : m = n * 2 ^ (- e)).
  { subst m. rewrite <- (Qround_even_Z (n * 2 ^ (- e))).
    apply Qround_even_comp. rewrite Hpow, inject_Z_mult.
    unfold Qdiv. now rewrite Qinv_involutive. }
  rewrite Hm, Hpow, inject_Z_mult. field. exact Hnz.
Qed.

(** Safe integers are binary64 values: rounding leaves them alone. *)
Lemma binary64_safe (z : Z) :
  safeInteger z -> binary64 (inject_Z z) = num z.
Proof.
  intros [Hlo Hhi]. unfold binary64, num.
  destruct z as [|p|p]; cbn [Qnum inject_Z]; [reflexivity| |].
  - cbn [Z.ltb Z.compare].
    assert (Ha : Qabs (inject_Z (Z.pos p)) = inject_Z (Z.pos p))
      by reflexivity.
    rewrite Ha.
    pose proof (binary64_pos_exact (Z.pos p) ltac:(lia)) as E.
    cbv zeta in E.
    destruct (Qle_bool _ _) eqn:B.
    + exfalso. apply Qle_bool_iff in B. rewrite E in B.
      assert (H : (inject_Z (2 ^ 1024) <= inject_Z (Z.pos p))%Q).
      { now rewrite Zpower_Qpower by lia. }
      rewrite <- Zle_Qle in H.
      assert (2 ^ 53 < 2 ^ 1024) by (apply Z.pow_lt_mono_r; lia). lia.
    + f_equal. rewrite (Qred_complete _ _ E). apply Qred_inject_Z.
  - cbn [Z.ltb Z.compare].
    assert (Ha : Qabs (inject_Z (Z.neg p)) = inject_Z (Z.pos p))
      by reflexivity.
    rewrite Ha.
    pose proof (binary64_pos_exact (Z.pos p) ltac:(lia)) as E.
    cbv zeta in E.
    destruct (Qle_bool _ _) eqn:B.
    + exfalso. apply Qle_bool_iff in B. rewrite E in B.
      assert (H : (inject_Z (2 ^ 1024) <= inject_Z (Z.pos p))%Q).
      { now rewrite Zpower_Qpower by lia. }
      rewrite <- Zle_Qle in H.
      assert (2 ^ 53 < 2 ^ 1024) by (apply Z.pow_lt_mono_r; lia). lia.
    + f_equal.
      assert (E' : (- (inject_Z
                         (Qround_even
                            (inject_Z (Z.pos p)
                             / 2 ^ Z.max (-1074)
                                     (Qlog2_floor (inject_Z (Z.pos p)) - 52)))
                       * 2 ^ Z.max (-1074)
                               (Qlog2_floor (inject_Z (Z.pos p)) - 52))
                    == inject_Z (Z.neg p))%Q).
      { rewrite E. reflexivity. }
      rewrite (Qred_complete _ _ E'). apply Qred_inject_Z.
Qed.
Lemma digitsValue_snoc (ds : list Z) (d : Z) :
  digitsValue (ds ++ [d]) = 10 * digitsValue ds + (d - 48).
Proof.
  unfold digitsValue. now rewrite fold_left_app.
Qed.

(** The digits written for [n]: a non-empty run of digits whose value is
    [n], starting with a zero only when [n] is zero. *)
Lemma natDigits_spec (fuel : nat) :
  forall n acc, 0 <= n < 10 ^ Z.of_nat (S fuel) ->
    exists ds, natDigits (S fuel) n acc = ds ++ acc
      /\ digitsOnly ds /\ digitsValue ds = n
      /\ exists c r, ds = c :: r /\ (c = 48 -> n = 0 /\ r = []).
Proof.
  assert (Hstep : forall f n acc,
            0 <= n ->
            (10 <= n ->
             exists ds, natDigits f (n / 10) ((48 + n mod 10) :: acc)
                        = ds ++ (48 + n mod 10) :: acc
               /\ digitsOnly ds /\ digitsValue ds = n / 10
               /\ exists c r, ds = c :: r /\ (c = 48 -> n / 10 = 0 /\ r = [])) ->
            exists ds, natDigits (S f) n acc = ds ++ acc
              /\ digitsOnly ds /\ digitsValue ds = n
              /\ exists c r, ds = c :: r /\ (c = 48 -> n = 0 /\ r = [])).
  { intros f n acc Hn0 IH.
    cbn [natDigits]. pose proof (Z.mod_pos_bound n 10 eq_refl) as Hmod.
    assert (Hd : isDigit (48 + n mod 10) = true).
    { unfold isDigit. apply andb_true_iff. split; apply Z.leb_le; lia. }
    destruct (n <? 10) eqn:E.
    + apply Z.ltb_lt in E. exists [48 + n mod 10].
      rewrite Z.mod_small by lia. rewrite Z.mod_small in Hd by lia.
      repeat split.
      * unfold digitsOnly. cbn [forallb]. now rewrite Hd.
      * unfold digitsValue. cbn [fold_left]. lia.
      * exists (48 + n), []. split; [reflexivity|]. intros; split; [lia|easy].
    + apply Z.ltb_ge in E.
      destruct (IH E) as (ds & Hds & Hdig & Hval & c & r & Hhead & Hzero).
      exists (ds ++ [48 + n mod 10]). repeat split.
      * rewrite Hds, <- app_assoc. reflexivity.
      * unfold digitsOnly in *. rewrite forallb_app, Hdig. cbn [forallb].
        now rewrite Hd.
      * rewrite digitsValue_snoc, Hval.
        pose proof (Z.div_mod n 10 ltac:(lia)). lia.
      * exists c, (r ++ [48 + n mod 10]). split; [now rewrite Hhead|].
        intros Hc. destruct (Hzero Hc) as [H0 _].
        assert (1 <= n / 10) by (apply Z.div_le_lower_bound; lia). lia. }
  induction fuel as [|fuel IH]; intros n acc Hn; apply Hstep; try lia.
  intros Hge. apply IH. split; [apply Z.div_pos; lia|].
    apply Z.div_lt_upper_bound; [lia|].
    rewrite Nat2Z.inj_succ, Z.pow_succ_r in Hn by lia. lia.
Qed.

Lemma decimalDigits_spec (n : Z) :
  0 <= n ->
  digitsOnly (decimalDigits n) /\ digitsValue (decimalDigits n) = n
  /\ exists c r, decimalDigits n = c :: r /\ (c = 48 -> n = 0 /\ r = []).
Proof.
  intros Hn. unfold decimalDigits.
  assert (Hb : 0 <= n < 10 ^ Z.of_nat (S (Z.to_nat (Z.log2 n)))).
  { split; [exact Hn|]. rewrite Nat2Z.inj_succ, Z2Nat.id by apply Z.log2_nonneg.
    destruct (Z.eq_dec n 0) as [->|Hnz]; [reflexivity|].
    apply Z.lt_le_trans with (2 ^ Z.succ (Z.log2 n)).
    - apply Z.log2_spec. lia.
    - apply Z.pow_le_mono_l. pose proof (Z.log2_nonneg n). lia. }
  destruct (natDigits_spec _ n [] Hb) as (ds & Hds & H).
  rewrite app_nil_r in Hds. now rewrite Hds.
Qed.

Lemma decimalValue_integer (ip : list Z) :
  decimalValue ip [] 0 = inject_Z (digitsValue ip).
Proof.
  unfold decimalValue. rewrite app_nil_r. cbn [List.length Z.of_nat].
  change (10 ^ (0 - 0))%Q with 1%Q. unfold Qmult.
  cbn [Qnum Qden inject_Z]. now rewrite Z.mul_1_r.
Qed.

Lemma delimited_stops (rest : list Z) : delimited rest -> stops rest.
Proof.
  destruct rest as [|c r]; [easy|]. intros [-> | ->]; reflexivity.
Qed.

Lemma parseFraction_delimited (rest : list Z) :
  delimited rest -> parseFraction rest = Some ([], rest).
Proof.
  destruct rest as [|c r]; [reflexivity|]. intros [-> | ->]; reflexivity.
Qed.

Lemma parseExponent_delimited (rest : list Z) :
  delimited rest -> parseExponent rest = Some (0, rest).
Proof.
  destruct rest as [|c r]; [reflexivity|]. intros [-> | ->]; reflexivity.
Qed.

(** An integer written by Number::toString and followed by a delimiter
    is read back as the same number. *)
Lemma parseNumber_toString (z : Z) (rest : list Z) :
  safeInteger z -> delimited rest ->
  parseNumber (Number_toString z ++ rest) = Some (num z, rest).
Proof.
  intros Hz Hrest. pose proof (delimited_stops rest Hrest) as Hstop.
  unfold Number_toString.
  destruct (z <? 0) eqn:Eneg.
  - apply Z.ltb_lt in Eneg.
    destruct (decimalDigits_spec (- z) ltac:(lia))
      as (Hdig & Hval & c & ds & Hhead & Hzero).
    unfold parseNumber. cbn [app]. change (45 =? 45) with true. cbn iota.
    rewrite (takeDigits_app _ rest Hdig Hstop). rewrite Hhead.
    destruct ((c =? 48) && truthy ds) eqn:Elead.
    { apply andb_true_iff in Elead as [Hc _]. apply Z.eqb_eq in Hc.
      destruct (Hzero Hc). lia. }
    rewrite <- Hhead, parseFraction_delimited, parseExponent_delimited
      by exact Hrest.
    rewrite decimalValue_integer, Hval.
    change (- inject_Z (- z))%Q with (inject_Z (- - z)).
    rewrite Z.opp_involutive. now rewrite binary64_safe.
  - apply Z.ltb_ge in Eneg.
    destruct (decimalDigits_spec z Eneg)
      as (Hdig & Hval & c & ds & Hhead & Hzero).
    unfold parseNumber. rewrite Hhead. cbn [app].
    assert (Hc : isDigit c = true).
    { unfold digitsOnly in Hdig. rewrite Hhead in Hdig. cbn [forallb] in Hdig.
      now apply andb_true_iff in Hdig as [Hc _]. }
    destruct (digit_not_sign c Hc) as [H45 _]. rewrite H45.
    change (c :: ds ++ rest) with ((c :: ds) ++ rest).
    rewrite <- Hhead. rewrite (takeDigits_app _ rest Hdig Hstop).
    rewrite Hhead.
    destruct ((c =? 48) && truthy ds) eqn:Elead.
    { apply andb_true_iff in Elead as [Hc0 Hds]. apply Z.eqb_eq in Hc0.
      destruct (Hzero Hc0) as [_ ->]. discriminate. }
    rewrite <- Hhead, parseFraction_delimited, parseExponent_delimited
      by exact Hrest.
    rewrite decimalValue_integer, Hval. now rewrite binary64_safe.
Qed.

Lemma Number_toString_head (z : Z) :
  exists c r, Number_toString z = c :: r
    /\ (c = 45 \/ isDigit c = true).
Proof.
  unfold Number_toString. destruct (z <? 0) eqn:E.
  - eauto.
  - apply Z.ltb_ge in E.
    destruct (decimalDigits_spec z E) as (Hdig & _ & c & r & Hhead & _).
    exists c, r. split; [exact Hhead|right].
    unfold digitsOnly in Hdig. rewrite Hhead in Hdig. cbn [forallb] in Hdig.
    now apply andb_true_iff in Hdig as [Hc _].
Qed.
(** ** JSON: structure *)

Lemma parseValue_eq (f : nat) (s : list Z) :
  parseValue (S f) s
  = match skipWS s with
    | [] => None
    | c :: r =>
      if c =? 34 then
        match parseStringBody r with
        | Some (t, r') => Some (JStr t, r')
        | None => None
        end
      else if c =? 91 then
        match skipWS r with
        | [] => None
        | c' :: r' =>
          if c' =? 93 then Some (JArr [], r')
          else
            match parseElements f r with
            | Some (vs, r'') => Some (JArr vs, r'')
            | None => None
            end
        end
      else if c =? 123 then
        match skipWS r with
        | [] => None
        | c' :: r' =>
          if c' =? 125 then Some (JObj [], r')
          else
            match parseMembers f r with
            | Some (ms, r'') => Some (JObj (mkObject ms), r'')
            | None => None
            end
        end
      else if c =? 110 then literal "null" JNull (c :: r)
      else if c =? 116 then literal "true" (JBool true) (c :: r)
      else if c =? 102 then literal "false" (JBool false) (c :: r)
      else
        match parseNumber (c :: r) with
        | Some (n, r') => Some (JNum n, r')
        | None => None
        end
    end.
Proof. reflexivity. Qed.

Lemma parseElements_eq (f : nat) (s : list Z) :
  parseElements (S f) s
  = match parseValue f s with
    | None => None
    | Some (v, r) =>
      match skipWS r with
      | [] => None
      | c :: r' =>
        if c =? 44 then
          match parseElements f r' with
          | Some (vs, r'') => Some (v :: vs, r'')
          | None => None
          end
        else if c =? 93 then Some ([v], r')
        else None
      end
    end.
Proof. reflexivity. Qed.

Lemma parseMembers_eq (f : nat) (s : list Z) :
  parseMembers (S f) s
  = match skipWS s with
    | [] => None
    | q :: r0 =>
      if q =? 34 then
        match parseStringBody r0 with
        | None => None
        | Some (k, r1) =>
          match skipWS r1 with
          | [] => None
          | colon :: r2 =>
            if colon =? 58 then
              match parseValue f r2 with
              | None => None
              | Some (v, r3) =>
                match skipWS r3 with
                | [] => None
                | c :: r4 =>
                  if c =? 44 then
                    match parseMembers f r4 with
                    | Some (ms, r5) => Some ((k, v) :: ms, r5)
                    | None => None
                    end
                  else if c =? 125 then Some ([(k, v)], r4)
                  else None
                end
              end
            else None
          end
        end
      else None
    end.
Proof. reflexivity. Qed.

Lemma skipWS_app (ws s : list Z) :
  forallb isJSONWhiteSpace ws = true -> skipWS (ws ++ s) = skipWS s.
Proof.
  induction ws as [|c ws IH]; cbn [app forallb skipWS]; [reflexivity|].
  intros H. apply andb_true_iff in H as [Hc Hws]. now rewrite Hc, IH.
Qed.

Lemma skipWS_head (c : Z) (r : list Z) :
  isJSONWhiteSpace c = false -> skipWS (c :: r) = c :: r.
Proof. intros H. cbn [skipWS]. now rewrite H. Qed.

Lemma indent_ws (d : nat) : forallb isJSONWhiteSpace (indent d) = true.
Proof.
  unfold indent. induction (2 * d)%nat as [|n IH]; [reflexivity|].
  cbn [repeat forallb]. now rewrite IH.
Qed.

Lemma newline_indent_ws (d : nat) :
  forallb isJSONWhiteSpace (10 :: indent d) = true.
Proof. cbn [forallb]. now rewrite indent_ws. Qed.

(** Leading white space is skipped by each of the three parsers. *)
Lemma parseValue_ws (f : nat) (ws s : list Z) :
  forallb isJSONWhiteSpace ws = true ->
  parseValue f (ws ++ s) = parseValue f s.
Proof.
  intros H. destruct f; [reflexivity|].
  now rewrite !parseValue_eq, skipWS_app.
Qed.

Lemma parseElements_ws (f : nat) (ws s : list Z) :
  forallb isJSONWhiteSpace ws = true ->
  parseElements f (ws ++ s) = parseElements f s.
Proof.
  intros H. destruct f; [reflexivity|].
  now rewrite !parseElements_eq, parseValue_ws.
Qed.

Lemma parseMembers_ws (f : nat) (ws s : list Z) :
  forallb isJSONWhiteSpace ws = true ->
  parseMembers f (ws ++ s) = parseMembers f s.
Proof.
  intros H. destruct f; [reflexivity|].
  now rewrite !parseMembers_eq, skipWS_app.
Qed.

Lemma readsAs_mono (f g : nat) (text : list Z) (v : jsvalue) :
  (f <= g)%nat -> readsAs f text v -> readsAs g text v.
Proof.
  intros Hfg H k rest Hrest.
  replace (g + k)%nat with (f + (g - f + k))%nat by lia. now apply H.
Qed.

(** *** Atoms *)

Lemma readsAs_string (s : list Z) :
  wfString s = true -> readsAs 1 (QuoteJSONString s) (JStr s).
Proof.
  intros Hs k rest _. cbn [Nat.add]. rewrite parseValue_eq.
  unfold QuoteJSONString. cbn [app]. rewrite skipWS_head by reflexivity.
  change (34 =? 34) with true. cbn iota.
  rewrite <- app_assoc. cbn [app]. now rewrite parse_quoted.
Qed.

Lemma readsAs_number (z : Z) :
  safeInteger z -> readsAs 1 (Number_toString z) (JNum (num z)).
Proof.
  intros Hz k rest Hrest. cbn [Nat.add]. rewrite parseValue_eq.
  destruct (Number_toString_head z) as (c & r & Hhead & Hc).
  assert (Hnum : parseNumber (c :: r ++ rest) = Some (num z, rest)).
  { change (c :: r ++ rest) with ((c :: r) ++ rest). rewrite <- Hhead.
    now apply parseNumber_toString. }
  rewrite Hhead. cbn [app].
  assert (Hcase : isJSONWhiteSpace c = false /\ (c =? 34) = false
                  /\ (c =? 91) = false /\ (c =? 123) = false
                  /\ (c =? 110) = false /\ (c =? 116) = false
                  /\ (c =? 102) = false).
  { destruct Hc as [-> | Hd]; [repeat split|].
    unfold isDigit in Hd. apply andb_true_iff in Hd as [H1 H2].
    apply Z.leb_le in H1, H2. unfold isJSONWhiteSpace.
    repeat split; try (apply Z.eqb_neq; lia).
    repeat (apply orb_false_iff; split); apply Z.eqb_neq; lia. }
  destruct Hcase as (W & E1 & E2 & E3 & E4 & E5 & E6).
  rewrite skipWS_head by exact W.
  now rewrite E1, E2, E3, E4, E5, E6, Hnum.
Qed.
(** *** Members and elements *)

Lemma delimited_comma (r : list Z) : delimited (44 :: r).
Proof. now left. Qed.

Lemma delimited_newline (r : list Z) : delimited (10 :: r).
Proof. now right. Qed.

(** One property, followed by whatever comes next: the key is read, then
    the colon, then the value. *)
Lemma parseMembers_member (g f : nat) (m : list Z * list Z * jsvalue)
  (next : list Z) :
  memberReads f m -> (f <= g)%nat -> delimited next ->
  parseMembers (S g) (serializeMember (memberText m) ++ next)
  = match skipWS next with
    | [] => None
    | c :: r4 =>
      if c =? 44 then
        match parseMembers g r4 with
        | Some (ms, r5) => Some (memberValue m :: ms, r5)
        | None => None
        end
      else if c =? 125 then Some ([memberValue m], r4)
      else None
    end.
Proof.
  intros [Hkey Hval] Hfg Hnext. destruct m as [[key text] v].
  unfold memberText, memberValue, serializeMember, QuoteJSONString in *.
  cbn [fst snd] in *. rewrite parseMembers_eq.
  rewrite <- !app_assoc. cbn [app]. rewrite <- !app_assoc. cbn [app].
  rewrite skipWS_head by reflexivity. change (34 =? 34) with true. cbn iota.
  rewrite (parse_quoted key _ Hkey).
  rewrite skipWS_head by reflexivity. change (58 =? 58) with true. cbn iota.
  change (32 :: text ++ next) with ([32] ++ text ++ next).
  rewrite (parseValue_ws g [32] (text ++ next) eq_refl).
  replace g with (f + (g - f))%nat by lia.
  rewrite (Hval (g - f)%nat next Hnext).
  replace (f + (g - f))%nat with g by lia. reflexivity.
Qed.

Lemma joinWith_more (sep a b : list Z) (l : list (list Z)) :
  joinWith sep (a :: b :: l) = a ++ sep ++ joinWith sep (b :: l).
Proof. reflexivity. Qed.

(** A run of properties, or of elements, joined by a comma, a line feed
    and the indentation of depth [d], then closed after the white space
    [close]; each is read with fuel [f]. *)
Section Joined.

Variables (f d : nat) (close rest : list Z).

Hypothesis close_ws : forallb isJSONWhiteSpace close = true.
Hypothesis close_delimited : forall x, delimited (close ++ x).

Lemma parseMembers_joined (ms : list (list Z * list Z * jsvalue)) :
  ms <> [] -> Forall (memberReads f) ms ->
  forall k,
    parseMembers (List.length ms + f + k)
      (joinWith (44 :: 10 :: indent d)
                (map (fun m => serializeMember (memberText m)) ms)
       ++ close ++ 125 :: rest)
    = Some (map memberValue ms, rest).
Proof.
  induction ms as [|m ms IH]; [contradiction|].
  intros _ Hall k. inversion Hall as [|m0 ms0 Hm Hms]; subst.
  cbn [List.length Nat.add map joinWith].
  destruct ms as [|m' ms'].
  - cbn [map].
    rewrite (parseMembers_member _ f m _ Hm)
      by (lia || apply close_delimited).
    rewrite skipWS_app by exact close_ws.
    rewrite skipWS_head by reflexivity. reflexivity.
  - cbn [map]. rewrite <- !app_assoc.
    rewrite (parseMembers_member _ f m _ Hm)
      by (lia || (cbn [app]; apply delimited_comma)).
    cbn [app]. rewrite skipWS_head by reflexivity.
    change (44 =? 44) with true. cbn iota.
    change (10 :: indent d ++ ?x) with ((10 :: indent d) ++ x).
    rewrite (parseMembers_ws _ (10 :: indent d)) by apply newline_indent_ws.
    cbn [map] in IH. rewrite (IH ltac:(discriminate) Hms k). reflexivity.
Qed.

Lemma parseElements_joined (items : list (list Z * jsvalue)) :
  items <> [] -> Forall (fun it => readsAs f (fst it) (snd it)) items ->
  forall k,
    parseElements (List.length items + f + k)
      (joinWith (44 :: 10 :: indent d) (map fst items)
       ++ close ++ 93 :: rest)
    = Some (map snd items, rest).
Proof.
  induction items as [|it items IH]; [contradiction|].
  intros _ Hall k. inversion Hall as [|it0 items0 Hit Hitems]; subst.
  destruct items as [|it' items'].
  - cbn [List.length Nat.add map joinWith]. rewrite parseElements_eq.
    rewrite (Hit k _ (close_delimited _)).
    rewrite skipWS_app by exact close_ws.
    rewrite skipWS_head by reflexivity. reflexivity.
  - change (List.length (it :: it' :: items') + f + k)%nat
      with (S (List.length (it' :: items') + f + k)).
    rewrite parseElements_eq.
    cbn [map]. rewrite joinWith_more, <- !app_assoc.
    replace (List.length (it' :: items') + f + k)%nat
      with (f + (List.length (it' :: items') + k))%nat by lia.
    cbn [app]. rewrite (Hit _ _ (delimited_comma _)).
    rewrite skipWS_head by reflexivity.
    change (44 =? 44) with true. cbn iota.
    change (10 :: indent d ++ ?x) with ((10 :: indent d) ++ x).
    rewrite (parseElements_ws _ (10 :: indent d)) by apply newline_indent_ws.
    replace (f + (List.length (it' :: items') + k))%nat
      with (List.length (it' :: items') + f + k)%nat by lia.
    cbn [map] in IH. rewrite (IH ltac:(discriminate) Hitems k). reflexivity.
Qed.

End Joined.

(** *** Objects and arrays *)

Lemma serializeMember_head (m : list Z * list Z) (x : list Z) :
  exists y, serializeMember m ++ x = 34 :: y.
Proof.
  unfold serializeMember, QuoteJSONString. cbn [app]. eauto.
Qed.

Lemma joinWith_members_head (sep : list Z) (ms : list (list Z * list Z))
  (x : list Z) :
  ms <> [] -> exists y, joinWith sep (map serializeMember ms) ++ x = 34 :: y.
Proof.
  destruct ms as [|m ms]; [contradiction|]. intros _. cbn [map joinWith].
  destruct (map serializeMember ms).
  - apply serializeMember_head.
  - rewrite <- app_assoc. apply serializeMember_head.
Qed.

(** A serialized object with at least one property, each of whose
    values is read back, is read back as the object of these
    properties. *)
Lemma readsAs_object (f d : nat) (ms : list (list Z * list Z * jsvalue)) :
  ms <> [] -> Forall (memberReads f) ms ->
  mkObject (map memberValue ms) = map memberValue ms ->
  readsAs (S (List.length ms + f))
          (serializeObject d (map memberText ms))
          (JObj (map memberValue ms)).
Proof.
  intros Hne Hall Hobj k rest Hrest.
  cbn [Nat.add]. rewrite parseValue_eq. unfold serializeObject.
  destruct (map memberText ms) as [|t ts] eqn:Emap.
  { destruct ms; [contradiction|discriminate]. }
  rewrite <- Emap. clear t ts Emap.
  rewrite <- !app_assoc. cbn [app].
  rewrite skipWS_head by reflexivity.
  change (123 =? 34) with false. change (123 =? 91) with false.
  change (123 =? 123) with true. cbn iota.
  change (10 :: indent (S d) ++ ?x) with ((10 :: indent (S d)) ++ x).
  rewrite skipWS_app by apply newline_indent_ws.
  destruct (joinWith_members_head (44 :: 10 :: indent (S d))
              (map memberText ms)
              (10 :: indent d ++ 125 :: rest)) as [y Hy].
  { destruct ms; [contradiction|discriminate]. }
  rewrite Hy. rewrite skipWS_head by reflexivity.
  change (34 =? 125) with false. cbn iota. rewrite <- Hy.
  rewrite parseMembers_ws by apply newline_indent_ws.
  rewrite map_map.
  change (10 :: indent d ++ 125 :: rest)
    with ((10 :: indent d) ++ 125 :: rest).
  rewrite (parseMembers_joined f (S d) (10 :: indent d) rest
             (newline_indent_ws d) (fun x => delimited_newline _)
             ms Hne Hall k).
  now rewrite Hobj.
Qed.

Lemma readsAs_empty_array (d : nat) :
  readsAs 1 (serializeArray d []) (JArr []).
Proof. intros k rest _. reflexivity. Qed.

(** A serialized array of at least one element, each an object that is
    read back, is read back as the array of these elements. *)
Lemma readsAs_array (f d : nat) (items : list (list Z * jsvalue)) :
  items <> [] -> Forall (fun it => readsAs f (fst it) (snd it)) items ->
  Forall (fun it => exists y, fst it = 123 :: y) items ->
  readsAs (S (List.length items + f))
          (serializeArray d (map fst items))
          (JArr (map snd items)).
Proof.
  intros Hne Hall Hhead k rest Hrest.
  cbn [Nat.add]. rewrite parseValue_eq. unfold serializeArray.
  destruct items as [|it items]; [contradiction|].
  cbn [map]. rewrite <- !app_assoc. cbn [app].
  rewrite skipWS_head by reflexivity.
  change (91 =? 34) with false. change (91 =? 91) with true. cbn iota.
  change (10 :: indent (S d) ++ ?x) with ((10 :: indent (S d)) ++ x).
  rewrite skipWS_app by apply newline_indent_ws.
  inversion Hhead as [|it0 items0 [y Hy] _]; subst.
  assert (Hfirst : exists y',
             joinWith (44 :: 10 :: indent (S d)) (fst it :: map fst items)
             ++ 10 :: indent d ++ 93 :: rest = 123 :: y').
  { cbn [joinWith]. rewrite Hy. destruct (map fst items); cbn [app]; eauto. }
  destruct Hfirst as [y' Hy']. rewrite Hy'.
  rewrite skipWS_head by reflexivity.
  change (123 =? 93) with false. cbn iota. rewrite <- Hy'.
  rewrite parseElements_ws by apply newline_indent_ws.
  change (10 :: indent d ++ 93 :: rest)
    with ((10 :: indent d) ++ 93 :: rest).
  change (fst it :: map fst items) with (map fst (it :: items)).
  rewrite (parseElements_joined f (S d) (10 :: indent d) rest
             (newline_indent_ws d) (fun x => delimited_newline _)
             (it :: items) Hne Hall k).
  reflexivity.
Qed.
(** ** Export and import *)

Lemma readsAs_achievement (d : nat) (a : Achievement.t) :
  wfAchievement a ->
  readsAs 4 (stringifyAchievement d a) (achievementValue a).
Proof.
  intros [Hid Htext].
  apply (readsAs_object 1 d
           [ (str "id", Number_toString (Achievement.id a),
              JNum (num (Achievement.id a)));
             (str "text", QuoteJSONString (Achievement.text a),
              JStr (Achievement.text a)) ]).
  - discriminate.
  - repeat constructor; cbn [fst snd].
    + now apply readsAs_number.
    + now apply readsAs_string.
  - reflexivity.
Qed.

Lemma readsAs_achievements (l : list Achievement.t) :
  Forall wfAchievement l ->
  readsAs (S (List.length l + 4))
          (serializeArray 1 (map (stringifyAchievement 2) l))
          (JArr (map achievementValue l)).
Proof.
  intros Hl.
  pose (items := map (fun a => (stringifyAchievement 2 a,
                                achievementValue a)) l).
  assert (E1 : map fst items = map (stringifyAchievement 2) l).
  { subst items. rewrite map_map. reflexivity. }
  assert (E2 : map snd items = map achievementValue l).
  { subst items. rewrite map_map. reflexivity. }
  assert (E3 : List.length items = List.length l).
  { subst items. apply length_map. }
  destruct l as [|a l'].
  - apply (readsAs_mono 1); [lia|apply readsAs_empty_array].
  - rewrite <- E1, <- E2, <- E3. apply readsAs_array.
    + subst items. discriminate.
    + subst items. rewrite Forall_map. eapply Forall_impl; [|exact Hl].
      intros a0 Ha. cbn [fst snd]. now apply readsAs_achievement.
    + subst items. rewrite Forall_map. rewrite Forall_forall.
      intros a0 _. cbn [fst]. unfold stringifyAchievement, serializeObject.
      cbn [app map]. eauto.
Qed.

(** The members of a profile as the serializer writes them. *)
Lemma readsAs_profile (p : Profile.t) :
  wfProfile p ->
  readsAs (List.length (Profile.achievements p) + 15)
          (stringifyProfile p) (profileValue p).
Proof.
  intros (Hn & He & Hph & Hpo & Hh & Hw & Hg & Ht & Ha).
  set (f := S (List.length (Profile.achievements p) + 4)).
  assert (Hs : forall s, wfString s = true ->
                 readsAs f (QuoteJSONString s) (JStr s)).
  { intros s Hs. apply (readsAs_mono 1); [subst f; lia|].
    now apply readsAs_string. }
  replace (List.length (Profile.achievements p) + 15)%nat
    with (S (9 + f)) by (subst f; lia).
  apply (readsAs_object f 0
           [ (str "name", QuoteJSONString (Profile.name p),
              JStr (Profile.name p));
             (str "email", QuoteJSONString (Profile.email p),
              JStr (Profile.email p));
             (str "phone", QuoteJSONString (Profile.phone p),
              JStr (Profile.phone p));
             (str "position", QuoteJSONString (Profile.position p),
              JStr (Profile.position p));
             (str "height", QuoteJSONString (Profile.height p),
              JStr (Profile.height p));
             (str "weight", QuoteJSONString (Profile.weight p),
              JStr (Profile.weight p));
             (str "gpa", QuoteJSONString (Profile.gpa p),
              JStr (Profile.gpa p));
             (str "testScores", QuoteJSONString (Profile.testScores p),
              JStr (Profile.testScores p));
             (str "achievements",
              serializeArray 1
                (map (stringifyAchievement 2) (Profile.achievements p)),
              JArr (map achievementValue (Profile.achievements p))) ]).
  - discriminate.
  - repeat constructor; cbn [fst snd]; try (now apply Hs).
    now apply readsAs_achievements.
  - reflexivity.
Qed.

(** The text is long enough for the fuel [JSON.parse] starts with. *)
Lemma joinWith_length_in (sep x : list Z) (l : list (list Z)) :
  In x l -> (List.length x <= List.length (joinWith sep l))%nat.
Proof.
  induction l as [|a l IH]; [contradiction|].
  destruct l as [|b l'].
  - intros [->|[]]. cbn [joinWith]. lia.
  - rewrite joinWith_more, !length_app. intros [->|Hin]; [lia|].
    specialize (IH Hin). lia.
Qed.

Lemma joinWith_length_items (sep : list Z) (l : list (list Z)) :
  Forall (fun x => x <> []) l ->
  (List.length l <= List.length (joinWith sep l))%nat.
Proof.
  induction l as [|a l IH]; [cbn; lia|].
  intros H. inversion H as [|a0 l0 Ha Hl]; subst.
  assert (1 <= List.length a)%nat.
  { destruct a; [contradiction|cbn [List.length]; lia]. }
  destruct l as [|b l'].
  - cbn [joinWith List.length]. lia.
  - rewrite joinWith_more, !length_app. specialize (IH Hl).
    cbn [List.length] in *. lia.
Qed.

Lemma serializeArray_length (d : nat) (items : list (list Z)) :
  Forall (fun x => x <> []) items ->
  (List.length items <= List.length (serializeArray d items))%nat.
Proof.
  intros H. unfold serializeArray. destruct items as [|a l] eqn:E.
  - cbn; lia.
  - rewrite <- E in *. rewrite !length_app.
    pose proof (joinWith_length_items ([44; 10] ++ indent (S d)) items H).
    lia.
Qed.

Lemma stringifyProfile_length (p : Profile.t) :
  (List.length (Profile.achievements p) + 7
   <= List.length (stringifyProfile p))%nat.
Proof.
  set (arr := serializeArray 1
                (map (stringifyAchievement 2) (Profile.achievements p))).
  assert (Harr : (List.length (Profile.achievements p)
                  <= List.length arr)%nat).
  { subst arr.
    rewrite <- (length_map (stringifyAchievement 2) (Profile.achievements p)).
    apply serializeArray_length. rewrite Forall_map, Forall_forall.
    intros a _. discriminate. }
  assert (Hmem : (List.length (serializeMember (str "achievements", arr))
                  <= List.length (stringifyProfile p))%nat).
  { unfold stringifyProfile, serializeObject. fold arr.
    rewrite !length_app.
    match goal with
    | |- (_ <= _ + (_ + (List.length (joinWith ?sep ?l) + _)))%nat =>
      pose proof (joinWith_length_in sep
                    (serializeMember (str "achievements", arr)) l) as H
    end.
    assert (Hin : In (serializeMember (str "achievements", arr))
                     (map serializeMember
                        [ (str "name", QuoteJSONString (Profile.name p));
                          (str "email", QuoteJSONString (Profile.email p));
                          (str "phone", QuoteJSONString (Profile.phone p));
                          (str "position",
                           QuoteJSONString (Profile.position p));
                          (str "height", QuoteJSONString (Profile.height p));
                          (str "weight", QuoteJSONString (Profile.weight p));
                          (str "gpa", QuoteJSONString (Profile.gpa p));
                          (str "testScores",
                           QuoteJSONString (Profile.testScores p));
                          (str "achievements", arr) ])).
    { cbn [map In]. do 8 right. now left. }
    specialize (H Hin). lia. }
  assert (Hser : (List.length arr + 7
                  <= List.length (serializeMember (str "achievements", arr)))%nat).
  { assert (Hkey : List.length (quoteUnits (str "achievements")) = 12%nat)
      by reflexivity.
    unfold serializeMember, QuoteJSONString. cbn [fst snd].
    rewrite !length_app. cbn [List.length]. rewrite !length_app.
    cbn [List.length]. lia. }
  lia.
Qed.

Lemma achievementValue_inj (a b : Achievement.t) :
  achievementValue a = achievementValue b -> a = b.
Proof.
  destruct a as [i t], b as [j u]. unfold achievementValue, num.
  cbn [Achievement.id Achievement.text]. intros H.
  inversion H. reflexivity.
Qed.

(** Two profiles with the same run-time object agree on every field. *)
Lemma profileValue_inj (p q : Profile.t) :
  profileValue p = profileValue q -> p = q.
Proof.
  destruct p as [n e ph po h w g t a], q as [n' e' ph' po' h' w' g' t' a'].
  unfold profileValue.
  cbn [Profile.name Profile.email Profile.phone Profile.position
       Profile.height Profile.weight Profile.gpa Profile.testScores
       Profile.achievements].
  intros H. inversion H as [[Hn He Hph Hpo Hh Hw Hg Ht Ha]].
  f_equal. clear - Ha. revert a' Ha.
  induction a as [|x a IH]; intros [|y a'] Ha; try discriminate.
  - reflexivity.
  - cbn [map] in Ha.
    assert (Hx : achievementValue x = achievementValue y) by congruence.
    assert (Hrest : map achievementValue a = map achievementValue a')
      by congruence.
    f_equal; [now apply achievementValue_inj|now apply IH].
Qed.

(** The exported text parses to the object of the profile. *)
Lemma parse_exportProfile (p : Profile.t) :
  wfProfile p -> JSON.parse (exportProfile p) = Some (profileValue p).
Proof.
  intros Hp. unfold JSON.parse, exportProfile.
  pose proof (stringifyProfile_length p) as Hlen.
  pose proof (readsAs_profile p Hp
                (2 * List.length (stringifyProfile p) + 2
                 - (List.length (Profile.achievements p) + 15))%nat
                [] I) as H.
  rewrite app_nil_r in H.
  replace (List.length (Profile.achievements p) + 15
           + (2 * List.length (stringifyProfile p) + 2
              - (List.length (Profile.achievements p) + 15)))%nat
    with (2 * List.length (stringifyProfile p) + 2)%nat in H by lia.
  now rewrite H.
Qed.

(** C7.  For a profile whose strings are lists of UTF-16 code units and
    whose achievement ids are safe integers, importing the text that
    export produces puts into the profile cell the object of that very
    profile, with no alert; and the object determines every field, the
    sequence of achievements included. *)
Theorem export_import_roundtrip (p : Profile.t) (cell : jsvalue) :
  wfProfile p ->
  importProfile (exportProfile p) cell = (profileValue p, [])
  /\ (forall q, importProfile (exportProfile p) cell = (profileValue q, [])
                -> q = p).
Proof.
  intros Hp. unfold importProfile. rewrite (parse_exportProfile p Hp).
  split; [reflexivity|].
  intros q H. assert (Hq : profileValue q = profileValue p) by congruence.
  now apply profileValue_inj.
Qed.

Lemma mixedProfile_wf : wfProfile mixedProfile.
Proof.
  unfold wfProfile, mixedProfile. cbn [Profile.name Profile.email
    Profile.phone Profile.position Profile.height Profile.weight Profile.gpa
    Profile.testScores Profile.achievements].
  repeat split; try reflexivity.
  repeat constructor; try reflexivity.
Qed.

Lemma export_import_roundtrip_witness :
  importProfile (exportProfile mixedProfile) JNull
  = (profileValue mixedProfile, []).
Proof.
  exact (proj1 (export_import_roundtrip mixedProfile JNull mixedProfile_wf)).
Defined.

(** Any text that parses replaces the cell as a whole, whatever its
    shape. *)
Lemma importProfile_valid (raw : list Z) (obj cell : jsvalue) :
  JSON.parse raw = Some obj -> importProfile raw cell = (obj, []).
Proof. intros H. unfold importProfile. now rewrite H. Qed.

Lemma skipWS_blank (s : list Z) :
  forallb isJSONWhiteSpace s = true -> skipWS s = [].
Proof.
  induction s as [|c s IH]; [reflexivity|]. cbn [forallb skipWS].
  intros H. apply andb_true_iff in H as [Hc Hs]. now rewrite Hc, IH.
Qed.

(** An empty file, or one of white space only, is not valid JSON. *)
Lemma parse_blank (raw : list Z) :
  forallb isJSONWhiteSpace raw = true -> JSON.parse raw = None.
Proof.
  intros H. unfold JSON.parse.
  replace (2 * List.length raw + 2)%nat
    with (S (2 * List.length raw + 1)) by lia.
  now rewrite parseValue_eq, skipWS_blank.
Qed.

(** Text after the value is not valid JSON either. *)
Lemma parse_trailing (raw : list Z) (v : jsvalue) (c : Z) (r : list Z) :
  parseValue (2 * List.length raw + 2) raw = Some (v, c :: r) ->
  isJSONWhiteSpace c = false -> JSON.parse raw = None.
Proof.
  intros H Hc. unfold JSON.parse. rewrite H. cbn [skipWS]. now rewrite Hc.
Qed.

(** C8.  When the text is not valid JSON, so that [JSON.parse] throws,
    the import shows the alert and the profile cell holds the value it
    held before: nothing of the text reaches it. *)
Theorem importProfile_invalid (raw : list Z) (cell : jsvalue) :
  JSON.parse raw = None ->
  importProfile raw cell = (cell, [str "Invalid profile JSON"])
  /\ fst (importProfile raw cell) = cell
  /\ snd (importProfile raw cell) <> [].
Proof.
  intros H. unfold importProfile. rewrite H. repeat split. discriminate.
Qed.

Lemma importProfile_invalid_witness :
  importProfile (str "{ name: 'Ann', gpa: 3.5 ") (profileValue mixedProfile)
  = (profileValue mixedProfile, [str "Invalid profile JSON"]).
Proof.
  exact (proj1 (importProfile_invalid (str "{ name: 'Ann', gpa: 3.5 ")
                  (profileValue mixedProfile) eq_refl)).
Defined.
(** ** The exported text is well-formed UTF-16 *)

Lemma noSurrogate_wellFormed (s : list Z) :
  noSurrogate s = true -> wellFormedUTF16 s = true.
Proof.
  unfold noSurrogate. induction s as [|c s IH]; [reflexivity|].
  cbn [forallb wellFormedUTF16]. intros H.
  apply andb_true_iff in H as [Hc Hs]. apply andb_true_iff in Hc as [H1 H2].
  apply negb_true_iff in H1. rewrite H1, H2. now apply IH.
Qed.

Lemma wellFormed_app_bounded (n : nat) :
  forall a b, (List.length a <= n)%nat ->
    wellFormedUTF16 a = true -> wellFormedUTF16 b = true ->
    wellFormedUTF16 (a ++ b) = true.
Proof.
  induction n as [|n IH]; intros a b Hlen Ha Hb.
  - destruct a; [exact Hb|cbn in Hlen; lia].
  - destruct a as [|c a']; [exact Hb|].
    cbn [List.length] in Hlen. cbn [app wellFormedUTF16] in *.
    destruct (isLeadSurrogate c).
    + destruct a' as [|d a'']; [discriminate|]. cbn [app].
      apply andb_true_iff in Ha as [Hd Ha'']. rewrite Hd.
      cbn [List.length] in Hlen. apply IH; [lia|assumption|assumption].
    + apply andb_true_iff in Ha as [Hc Ha']. rewrite Hc.
      apply IH; [lia|assumption|assumption].
Qed.

Lemma wellFormed_app (a b : list Z) :
  wellFormedUTF16 a = true -> wellFormedUTF16 b = true ->
  wellFormedUTF16 (a ++ b) = true.
Proof. apply (wellFormed_app_bounded (List.length a)). lia. Qed.

Lemma hexDigit_plain (v : Z) : 0 <= v < 16 -> noSurrogate [hexDigit v] = true.
Proof.
  intros Hv. unfold noSurrogate, hexDigit, isLeadSurrogate, isTrailSurrogate.
  cbn [forallb]. rewrite andb_true_r.
  destruct (v <? 10); apply andb_true_iff; split; apply negb_true_iff;
    apply andb_false_iff; left; apply Z.leb_gt; lia.
Qed.

Lemma quoteUnit_wellFormed (c : Z) : wellFormedUTF16 (quoteUnit c) = true.
Proof.
  unfold quoteUnit.
  repeat match goal with
         | |- context [if ?c =? ?k then _ else _] =>
           destruct (c =? k); [reflexivity|]
         end.
  destruct ((c <? 32) || isLeadSurrogate c || isTrailSurrogate c) eqn:E.
  - unfold unicodeEscape.
    change [92; 117; hexDigit (c / 4096 mod 16); hexDigit (c / 256 mod 16);
            hexDigit (c / 16 mod 16); hexDigit (c mod 16)]
      with ([92; 117] ++ [hexDigit (c / 4096 mod 16)]
            ++ [hexDigit (c / 256 mod 16)] ++ [hexDigit (c / 16 mod 16)]
            ++ [hexDigit (c mod 16)]).
    repeat apply wellFormed_app; try reflexivity;
      apply noSurrogate_wellFormed, hexDigit_plain, Z.mod_pos_bound; lia.
  - apply orb_false_iff in E as [E Ht]. apply orb_false_iff in E as [_ Hl].
    cbn [wellFormedUTF16]. now rewrite Hl, Ht.
Qed.

Lemma quoteUnits_wellFormed_bounded (n : nat) :
  forall s, (List.length s <= n)%nat -> wellFormedUTF16 (quoteUnits s) = true.
Proof.
  induction n as [|n IH]; intros s Hlen.
  - destruct s; [reflexivity|cbn in Hlen; lia].
  - destruct s as [|c s']; [reflexivity|].
    cbn [List.length] in Hlen. cbn [quoteUnits].
    destruct s' as [|d s'']; [apply quoteUnit_wellFormed|].
    destruct (isLeadSurrogate c && isTrailSurrogate d) eqn:E.
    + apply andb_true_iff in E as [Hc Hd]. cbn [wellFormedUTF16].
      rewrite Hc, Hd. cbn [List.length] in Hlen. apply IH. lia.
    + apply wellFormed_app; [apply quoteUnit_wellFormed|apply IH; lia].
Qed.

Lemma QuoteJSONString_wellFormed (s : list Z) :
  wellFormedUTF16 (QuoteJSONString s) = true.
Proof.
  unfold QuoteJSONString. change (34 :: quoteUnits s ++ [34])
    with ([34] ++ quoteUnits s ++ [34]).
  repeat apply wellFormed_app; try reflexivity.
  apply (quoteUnits_wellFormed_bounded (List.length s)). lia.
Qed.

Lemma indent_wellFormed (d : nat) : wellFormedUTF16 (indent d) = true.
Proof.
  apply noSurrogate_wellFormed. unfold indent, noSurrogate.
  induction (2 * d)%nat as [|n IH]; [reflexivity|].
  cbn [repeat forallb]. now rewrite IH.
Qed.

Lemma digits_wellFormed (ds : list Z) :
  digitsOnly ds -> wellFormedUTF16 ds = true.
Proof.
  intros H. apply noSurrogate_wellFormed. unfold noSurrogate, digitsOnly in *.
  rewrite forallb_forall in *. intros c Hc. specialize (H c Hc).
  unfold isDigit in H. apply andb_true_iff in H as [_ H].
  apply Z.leb_le in H. unfold isLeadSurrogate, isTrailSurrogate.
  apply andb_true_iff; split; apply negb_true_iff; apply andb_false_iff;
    left; apply Z.leb_gt; lia.
Qed.

Lemma Number_toString_wellFormed (z : Z) :
  wellFormedUTF16 (Number_toString z) = true.
Proof.
  unfold Number_toString. destruct (z <? 0) eqn:E.
  - apply Z.ltb_lt in E. change (45 :: ?x) with ([45] ++ x).
    apply wellFormed_app; [reflexivity|].
    apply digits_wellFormed, decimalDigits_spec. lia.
  - apply Z.ltb_ge in E. now apply digits_wellFormed, decimalDigits_spec.
Qed.

Lemma joinWith_wellFormed (sep : list Z) (l : list (list Z)) :
  wellFormedUTF16 sep = true ->
  Forall (fun x => wellFormedUTF16 x = true) l ->
  wellFormedUTF16 (joinWith sep l) = true.
Proof.
  intros Hsep. induction l as [|a l IH]; [reflexivity|].
  intros H. inversion H as [|a0 l0 Ha Hl]; subst.
  destruct l as [|b l']; [exact Ha|].
  rewrite joinWith_more. repeat apply wellFormed_app; auto.
Qed.

Lemma separator_wellFormed (d : nat) :
  wellFormedUTF16 ([44; 10] ++ indent d) = true.
Proof. apply wellFormed_app; [reflexivity|apply indent_wellFormed]. Qed.

Lemma serializeMember_wellFormed (m : list Z * list Z) :
  wellFormedUTF16 (snd m) = true ->
  wellFormedUTF16 (serializeMember m) = true.
Proof.
  intros H. unfold serializeMember.
  apply wellFormed_app; [apply QuoteJSONString_wellFormed|].
  apply wellFormed_app; [reflexivity|exact H].
Qed.

Lemma serializeObject_wellFormed (d : nat) (ms : list (list Z * list Z)) :
  Forall (fun m => wellFormedUTF16 (snd m) = true) ms ->
  wellFormedUTF16 (serializeObject d ms) = true.
Proof.
  intros H. unfold serializeObject. destruct ms as [|m ms'] eqn:E.
  - reflexivity.
  - rewrite <- E in *. clear E.
    repeat apply wellFormed_app; try reflexivity;
      try apply indent_wellFormed.
    apply joinWith_wellFormed; [apply separator_wellFormed|].
    rewrite Forall_map. eapply Forall_impl; [|exact H].
    intros m0. apply serializeMember_wellFormed.
Qed.

Lemma serializeArray_wellFormed (d : nat) (items : list (list Z)) :
  Forall (fun x => wellFormedUTF16 x = true) items ->
  wellFormedUTF16 (serializeArray d items) = true.
Proof.
  intros H. unfold serializeArray. destruct items as [|x items'] eqn:E.
  - reflexivity.
  - rewrite <- E in *. clear E.
    repeat apply wellFormed_app; try reflexivity;
      try apply indent_wellFormed.
    apply joinWith_wellFormed; [apply separator_wellFormed|exact H].
Qed.

(** X25.  Whatever the strings of the profile hold, lone surrogates
    included, the text [downloadProfile] builds has no lone surrogate:
    [JSON.stringify] escapes each one.  So [encodeURIComponent], which
    throws on a lone surrogate, accepts the text, and a UTF-8 file
    gives it back unchanged. *)
Lemma exportProfile_wellFormed (p : Profile.t) :
  wellFormedUTF16 (exportProfile p) = true.
Proof.
  unfold exportProfile, stringifyProfile.
  apply serializeObject_wellFormed.
  repeat constructor; cbn [snd]; try apply QuoteJSONString_wellFormed.
  apply serializeArray_wellFormed. rewrite Forall_map, Forall_forall.
  intros a _. unfold stringifyAchievement.
  apply serializeObject_wellFormed.
  repeat constructor; cbn [snd];
    [apply Number_toString_wellFormed|apply QuoteJSONString_wellFormed].
Qed.
(* ================================================================== *)
(** * The rest of the page: properties *)
(* ================================================================== *)

(** ** Editing the profile *)

(** X1.  [handleProfileChange field value] writes that one field: the
    field reads back as [value], every other field of the profile and
    every other cell is as before, a second write to the same field
    replaces the first, and writes to two different fields can be made
    in either order. *)
Theorem handleProfileChange_one_field (field : ProfileKey)
  (value : ProfileValue field) (st : AppState) :
  let st' := handleProfileChange field value st in
  getField field (profile st') = value
  /\ (forall other, other <> field ->
        getField other (profile st') = getField other (profile st))
  /\ (forall value', handleProfileChange field value' st'
                     = handleProfileChange field value' st)
  /\ (forall other w, other <> field ->
        handleProfileChange other w st'
        = handleProfileChange field value (handleProfileChange other w st))
  /\ schools st' = schools st /\ outreach st' = outreach st
  /\ botMessages st' = botMessages st /\ reelPlan st' = reelPlan st
  /\ brandName st' = brandName st /\ botName st' = botName st.
Proof.
  intros st'. subst st'. repeat apply conj; try reflexivity.
  - destruct field; reflexivity.
  - intros other Hne.
    destruct field, other; try reflexivity; contradiction.
  - intros value'. destruct field; reflexivity.
  - intros other w Hne.
    destruct field, other; try reflexivity; contradiction.
Qed.

(** ** Achievements *)

Lemma filter_all {A} (f : A -> bool) (l : list A) :
  (forall a, In a l -> f a = true) -> filter f l = l.
Proof.
  induction l as [|a l IH]; intros H; cbn [filter]; [reflexivity|].
  rewrite (H a (or_introl eq_refl)). f_equal. apply IH.
  intros b Hb. apply H. now right.
Qed.

Lemma filter_idem {A} (f : A -> bool) (l : list A) :
  filter f (filter f l) = filter f l.
Proof.
  apply filter_all. intros a Ha. now apply filter_In in Ha.
Qed.

Lemma removeAchievement_absent (id : Z) (st : AppState) :
  (forall a, In a (Profile.achievements (profile st)) ->
             Achievement.id a <> id) ->
  removeAchievement id st = st.
Proof.
  intros H. destruct st as [[n e ph po h w g t a] sc o b r bn btn].
  unfold removeAchievement, setProfile. cbn in *.
  rewrite filter_all; [reflexivity|].
  intros x Hx. apply negb_true_iff, Z.eqb_neq. now apply H.
Qed.

(** X2.  Adding an achievement and then removing it restores the state,
    provided the clock reading that became its id is not the id of an
    achievement already there; this holds for a blank text as well,
    which is not added in the first place. *)
Theorem add_then_remove_achievement (now : Z) (text : jsstring)
  (st : AppState) :
  (forall a, In a (Profile.achievements (profile st)) ->
             Achievement.id a <> now) ->
  removeAchievement now (addAchievement now text st) = st.
Proof.
  intros Hfresh. unfold addAchievement.
  destruct (negb (truthy (trim text))).
  - now apply removeAchievement_absent.
  - destruct st as [[n e ph po h w g t a] sc o b r bn btn].
    unfold removeAchievement, setProfile. cbn in *.
    rewrite filter_app. cbn [filter Achievement.id].
    rewrite Z.eqb_refl. cbn [negb]. rewrite app_nil_r.
    rewrite filter_all; [reflexivity|].
    intros x Hx. apply negb_true_iff, Z.eqb_neq. now apply Hfresh.
Qed.

Lemma add_then_remove_achievement_witness :
  removeAchievement 1704067320000
    (addAchievement 1704067320000 (str "All-conference")
       (setProfile (fun _ => fullProfile [mvp; captain]) fullState))
  = setProfile (fun _ => fullProfile [mvp; captain]) fullState.
Proof.
  apply (add_then_remove_achievement 1704067320000 (str "All-conference")
           (setProfile (fun _ => fullProfile [mvp; captain]) fullState)).
  intros a [<-|[<-|[]]]; cbn; lia.
Defined.

(** X3.  [removeAchievement id] keeps exactly the achievements whose id
    is not [id], in their order: all that carry [id] go, however many
    there are, and an id that no achievement carries changes nothing.
    Removing twice is removing once.  The scalar fields of the profile
    and the other cells are as before. *)
Theorem removeAchievement_all_matches (id : Z) (st : AppState) :
  let before := Profile.achievements (profile st) in
  let st' := removeAchievement id st in
  let after := Profile.achievements (profile st') in
  after = filter (fun a => negb (Achievement.id a =? id)) before
  /\ (forall a, In a after <-> In a before /\ Achievement.id a <> id)
  /\ (List.length after + countAchievements id before
      = List.length before)%nat
  /\ (countAchievements id before = 0%nat -> st' = st)
  /\ removeAchievement id st' = st'
  /\ (forall field, field <> Kachievements ->
        getField field (profile st') = getField field (profile st))
  /\ schools st' = schools st /\ outreach st' = outreach st
  /\ botMessages st' = botMessages st.
Proof.
  intros before st' after. subst before st' after.
  repeat apply conj; try reflexivity.
  - intros a. cbn. rewrite filter_In, negb_true_iff, Z.eqb_neq. tauto.
  - cbn. unfold countAchievements.
    apply (filter_length_split (fun a => Achievement.id a =? id)).
  - intros Hcount. apply removeAchievement_absent.
    intros a Ha Hid. unfold countAchievements in Hcount.
    apply length_zero_iff_nil in Hcount.
    assert (Hin : In a (filter (fun a => Achievement.id a =? id)
                          (Profile.achievements (profile st)))).
    { apply filter_In. split; [exact Ha|]. now apply Z.eqb_eq. }
    rewrite Hcount in Hin. contradiction.
  - apply removeAchievement_absent. intros a Ha. cbn in Ha.
    apply filter_In in Ha as [_ Ha].
    now apply negb_true_iff, Z.eqb_neq in Ha.
  - intros field Hne. destruct field; try reflexivity. contradiction.
Qed.

(** ** Profile completion *)

Lemma completedFields_range (p : Profile.t) : 0 <= completedFields p <= 8.
Proof.
  unfold completedFields.
  destruct (truthy (Profile.name p)) eqn:E1,
           (truthy (Profile.email p)) eqn:E2,
           (truthy (Profile.phone p)) eqn:E3,
           (truthy (Profile.position p)) eqn:E4,
           (truthy (Profile.height p)) eqn:E5,
           (truthy (Profile.weight p)) eqn:E6,
           (truthy (Profile.gpa p)) eqn:E7,
           (truthy (Profile.testScores p)) eqn:E8;
    cbn [filter]; rewrite ?E1, ?E2, ?E3, ?E4, ?E5, ?E6, ?E7, ?E8;
    cbn [List.length]; lia.
Qed.

(** X4.  While the filled scalar fields and the achievements together
    number nine or less, the two roundings of the binary64 division and
    multiplication and the rounding of [Math.round] lose nothing: the
    completion is the nearest whole percentage of that number out of
    nine, a whole number from 0 to 100. *)
Theorem profileCompletion_percent (p : Profile.t) :
  completedFields p + Z.of_nat (List.length (Profile.achievements p)) <= 9 ->
  profileCompletion p
  = num (percentOfNine
           (completedFields p
            + Z.of_nat (List.length (Profile.achievements p))))
  /\ 0 <= percentOfNine
            (completedFields p
             + Z.of_nat (List.length (Profile.achievements p))) <= 100.
Proof.
  intros Hk. pose proof (completedFields_range p) as Hc.
  unfold profileCompletion.
  set (k := completedFields p
            + Z.of_nat (List.length (Profile.achievements p))) in *.
  assert (Hcases : k = 0 \/ k = 1 \/ k = 2 \/ k = 3 \/ k = 4 \/ k = 5
                   \/ k = 6 \/ k = 7 \/ k = 8 \/ k = 9) by lia.
  clearbody k.
  repeat (destruct Hcases as [->|Hcases]); try subst k;
    (split; [vm_compute; reflexivity|unfold percentOfNine; cbn; lia]).
Qed.

Lemma profileCompletion_percent_witness :
  profileCompletion (fullProfile [mvp]) = num 100.
Proof.
  apply (profileCompletion_percent (fullProfile [mvp])).
  vm_compute. discriminate.
Defined.
(** ** Invariants of every run of user actions *)

(** Which cells an action can change. *)
Lemma step_schools (st : AppState) (a : Action) :
  match a with
  | AddSchool _ _ _ _ | RemoveSchool _ => True
  | _ => schools (step st a) = schools st
  end.
Proof.
  destruct a; cbn [step]; try exact I; try reflexivity.
  - unfold addAchievement. now destruct (negb _).
  - unfold logOutreach. destruct (find _ _); [|reflexivity].
    now destruct (negb _).
  - unfold sendToBot. now destruct (negb _).
Qed.

Lemma step_outreach (st : AppState) (a : Action) :
  match a with
  | LogOutreach _ _ _ _ | RemoveSchool _ => True
  | _ => outreach (step st a) = outreach st
  end.
Proof.
  destruct a; cbn [step]; try exact I; try reflexivity.
  - unfold addAchievement. now destruct (negb _).
  - unfold addSchool. now destruct (negb _).
  - unfold sendToBot. now destruct (negb _).
Qed.

Lemma step_botMessages (st : AppState) (a : Action) :
  match a with
  | SendToBot _ _ _ => True
  | _ => botMessages (step st a) = botMessages st
  end.
Proof.
  destruct a; cbn [step]; try exact I; try reflexivity.
  - unfold addAchievement. now destruct (negb _).
  - unfold addSchool. now destruct (negb _).
  - unfold logOutreach. destruct (find _ _); [|reflexivity].
    now destruct (negb _).
Qed.

Lemma intact_same_cells (st st' : AppState) :
  schools st' = schools st -> outreach st' = outreach st ->
  referentiallyIntact st -> referentiallyIntact st'.
Proof.
  unfold referentiallyIntact. intros -> ->. auto.
Qed.

Lemma removeSchool_intact (S : Z) (st : AppState) :
  referentiallyIntact st -> referentiallyIntact (removeSchool S st).
Proof.
  intros H o Ho. apply resolves_after; [exact Ho|].
  apply H. now apply in_outreach_after in Ho.
Qed.

Lemma step_intact (st : AppState) (a : Action) :
  referentiallyIntact st -> referentiallyIntact (step st a).
Proof.
  intros H. pose proof (step_schools st a) as Hs.
  pose proof (step_outreach st a) as Ho.
  destruct a; try (now apply (intact_same_cells st)).
  - now apply addSchool_intact.
  - now apply removeSchool_intact.
  - now apply logOutreach_intact.
Qed.

Lemma run_invariant (P : AppState -> Prop) :
  (forall st a, P st -> P (step st a)) ->
  forall actions st, P st -> P (run actions st).
Proof.
  intros Hstep actions. unfold run.
  induction actions as [|a actions IH]; intros st H; cbn [fold_left].
  - exact H.
  - apply IH, Hstep, H.
Qed.

Lemma initialState_intact : referentiallyIntact initialState.
Proof. intros o []. Qed.

(** X5.  No run of user actions leaves an outreach entry without its
    school: a state in which every entry resolves stays so under every
    handler and setter, in any order and with any clock readings. *)
Theorem run_keeps_references (actions : list Action) (st : AppState) :
  referentiallyIntact st -> referentiallyIntact (run actions st).
Proof.
  apply (run_invariant referentiallyIntact). intros s a. apply step_intact.
Qed.

Lemma run_keeps_references_witness :
  referentiallyIntact (run sampleActions initialState).
Proof.
  apply (run_keeps_references sampleActions initialState).
  exact initialState_intact.
Defined.

(** *** What the lists hold *)

Lemma computeFitScore_range (g : jsstring) :
  exists n, 0 <= n <= 100 /\ computeFitScore g = num n.
Proof.
  unfold computeFitScore. destruct (parseFloat g) eqn:E.
  - exists 50. split; [lia|reflexivity].
  - apply clamped_round_range, scaled_not_NaN. discriminate.
  - apply clamped_round_range, scaled_not_NaN. discriminate.
  - apply clamped_round_range, scaled_not_NaN. discriminate.
Qed.

Lemma guard_passed (s : jsstring) :
  negb (truthy (trim s)) = false -> trim s <> [].
Proof. destruct (trim s); [discriminate|discriminate]. Qed.

Lemma Forall_filter {A} (P : A -> Prop) (f : A -> bool) (l : list A) :
  Forall P l -> Forall P (filter f l).
Proof.
  intros H. apply Forall_forall. intros a Ha.
  apply filter_In in Ha as [Ha _]. revert a Ha. now apply Forall_forall.
Qed.

Lemma step_valid (st : AppState) (a : Action) :
  validEntries st -> validEntries (step st a).
Proof.
  intros [Hs Ho]. pose proof (step_schools st a) as Es.
  pose proof (step_outreach st a) as Eo. unfold validEntries.
  destruct a; try (rewrite Es, Eo; now split).
  - rewrite Eo. split; [|exact Ho]. cbn [step]. unfold addSchool.
    destruct (negb (truthy (trim name))) eqn:G; [exact Hs|].
    cbn [setSchools schools]. apply Forall_app. split; [exact Hs|].
    constructor; [|constructor]. split.
    + now apply guard_passed.
    + apply computeFitScore_range.
  - cbn [step]. rewrite removeSchool_schools, removeSchool_outreach.
    split; now apply Forall_filter.
  - rewrite Es. split; [exact Hs|]. cbn [step]. unfold logOutreach.
    destruct (find _ (schools st)) as [school|]; [|exact Ho].
    destruct (negb (truthy (trim message))) eqn:G; [exact Ho|].
    cbn [setOutreach outreach]. apply Forall_app. split; [exact Ho|].
    constructor; [|constructor]. split.
    + now apply guard_passed.
    + exists today. apply isoString_date.
Qed.

(** X6.  Whatever the user does, the lists hold only what the handlers
    accept: every school has a name that is not blank and a fit score
    that is a whole number from 0 to 100, and every outreach entry has a
    message that is not blank and a calendar date as its date. *)
Theorem run_keeps_entries_valid (actions : list Action) (st : AppState) :
  validEntries st -> validEntries (run actions st).
Proof.
  apply (run_invariant validEntries). intros s a. apply step_valid.
Qed.

Lemma run_keeps_entries_valid_witness :
  validEntries (run sampleActions initialState).
Proof.
  apply (run_keeps_entries_valid sampleActions initialState).
  split; constructor.
Defined.

(** *** The chat log *)

Lemma step_exchange (st : AppState) (a : Action) :
  botMessages (step st a) = botMessages st ++ exchange (botName st) a.
Proof.
  pose proof (step_botMessages st a) as E.
  destruct a; try (cbn [exchange]; now rewrite E, app_nil_r).
  cbn [step exchange]. unfold sendToBot.
  destruct (forallb isWhiteSpace userText) eqn:B.
  - now rewrite (blank_falsy _ B), app_nil_r.
  - rewrite (nonblank_truthy _ B). cbn [setBotMessages botMessages botName].
    now rewrite <- app_assoc.
Qed.

Lemma step_renamed (st : AppState) (a : Action) :
  botName (step st a) = renamed (botName st) a.
Proof.
  destruct a; cbn [step renamed]; try reflexivity.
  - unfold addAchievement. now destruct (negb _).
  - unfold addSchool. now destruct (negb _).
  - unfold logOutreach. destruct (find _ _); [|reflexivity].
    now destruct (negb _).
  - unfold sendToBot. now destruct (negb _).
Qed.

Lemma transcript_even (actions : list Action) :
  forall name, Nat.even (List.length (transcript name actions)) = true.
Proof.
  induction actions as [|a actions IH]; intros name; [reflexivity|].
  cbn [transcript]. rewrite length_app, Nat.even_add, IH.
  destruct a; try reflexivity.
  cbn [exchange]. now destruct (forallb isWhiteSpace userText).
Qed.

(** X7.  The chat log after a run is the log before it followed by the
    exchanges of the run in order: for every message sent that is not
    blank, the message of the user as typed and then the reply the
    engine gives to that very text under the name the bot has at that
    moment, a renaming of the bot counting for the messages sent after
    it; no other action writes to the log.  So a run adds an even number
    of messages, and a log with an even number of messages keeps one. *)
Theorem run_writes_transcript (actions : list Action) (st : AppState) :
  botMessages (run actions st)
  = botMessages st ++ transcript (botName st) actions
  /\ botName (run actions st) = fold_left renamed actions (botName st)
  /\ Nat.even (List.length (transcript (botName st) actions)) = true
  /\ (Nat.even (List.length (botMessages st)) = true ->
      Nat.even (List.length (botMessages (run actions st))) = true).
Proof.
  assert (H : botMessages (run actions st)
              = botMessages st ++ transcript (botName st) actions
              /\ botName (run actions st)
                 = fold_left renamed actions (botName st)).
  { unfold run. revert st.
    induction actions as [|a actions IH]; intros st;
      cbn [fold_left transcript].
    - now rewrite app_nil_r.
    - destruct (IH (step st a)) as [IH1 IH2].
      rewrite IH1, IH2, step_exchange, step_renamed, <- app_assoc.
      split; reflexivity. }
  destruct H as [H1 H2].
  repeat apply conj; [exact H1|exact H2|apply transcript_even|].
  intros He. rewrite H1, length_app, Nat.even_add, He, transcript_even.
  reflexivity.
Qed.

Lemma run_writes_transcript_witness :
  botMessages (run chatActions initialState)
  = [ BotMessage.mk 1704153660000 BotMessage.user (str "Hi");
      BotMessage.mk 1704153660003 BotMessage.bot
                    (greeting (str "Recruiting Bot"));
      BotMessage.mk 1704153690000 BotMessage.user (str "HELLO again");
      BotMessage.mk 1704153690001 BotMessage.bot (greeting (str "Ace"));
      BotMessage.mk 1704153700000 BotMessage.user [72; 304];
      BotMessage.mk 1704153700002 BotMessage.bot (greeting (str "Ace")) ].
Proof.
  destruct (run_writes_transcript chatActions initialState) as (H & _).
  rewrite H. vm_compute. reflexivity.
Defined.

(** *** Ids *)

Lemma Forall_map_filter_app {A} (P : Z -> Prop) (g : A -> Z) (f : A -> bool)
  (l : list A) (r : list Z) :
  Forall P (map g l ++ r) -> Forall P (map g (filter f l) ++ r).
Proof.
  induction l as [|a l IH]; cbn [map filter app]; [auto|].
  intros H. inversion H as [|x xs Hx Hxs]; subst.
  destruct (f a); cbn [map app]; [constructor|]; auto.
Qed.

Lemma sorted_map_filter_app {A} (g : A -> Z) (f : A -> bool)
  (l : list A) (r : list Z) :
  StronglySorted Z.lt (map g l ++ r) ->
  StronglySorted Z.lt (map g (filter f l) ++ r).
Proof.
  induction l as [|a l IH]; cbn [map filter app]; [auto|].
  intros H. inversion H as [|x xs Hs Hall]; subst.
  destruct (f a); cbn [map app]; [|auto].
  constructor; [auto|]. now apply Forall_map_filter_app.
Qed.

Lemma sorted_lt_NoDup (l : list Z) : StronglySorted Z.lt l -> NoDup l.
Proof.
  induction 1 as [|a l Hs IH Hall]; constructor; [|exact IH].
  intros Hin. rewrite Forall_forall in Hall. specialize (Hall a Hin). lia.
Qed.

Lemma run_sorted (actions : list Action) :
  forall st,
    StronglySorted Z.lt
      (map School.id (schools st) ++ schoolReadings actions) ->
    StronglySorted Z.lt (map School.id (schools (run actions st))).
Proof.
  unfold run.
  induction actions as [|a actions IH]; intros st H; cbn [fold_left].
  - cbn in H. now rewrite app_nil_r in H.
  - apply IH. pose proof (step_schools st a) as E.
    unfold schoolReadings in *. cbn [flat_map] in H.
    destruct a; try (rewrite E; exact H).
    + cbn [step]. unfold addSchool.
      destruct (truthy (trim name)); cbn [negb].
      * cbn [setSchools schools]. rewrite map_app, <- app_assoc. exact H.
      * exact H.
    + cbn [step]. rewrite removeSchool_schools. cbn [app] in H.
      now apply sorted_map_filter_app.
Qed.

(** X8.  When the clock readings that become school ids in a run are
    strictly increasing, and greater than the ids already there, the ids
    of the schools stay strictly increasing in list order, whatever else
    happens in between; in particular no two schools share an id. *)
Theorem run_school_ids_distinct (actions : list Action) (st : AppState) :
  StronglySorted Z.lt
    (map School.id (schools st) ++ schoolReadings actions) ->
  StronglySorted Z.lt (map School.id (schools (run actions st)))
  /\ NoDup (map School.id (schools (run actions st))).
Proof.
  intros H. pose proof (run_sorted actions st H) as Hs.
  split; [exact Hs|now apply sorted_lt_NoDup].
Qed.

Lemma run_school_ids_distinct_witness :
  NoDup (map School.id (schools (run sampleActions initialState))).
Proof.
  apply (run_school_ids_distinct sampleActions initialState).
  cbn. repeat constructor; lia.
Defined.

(** X9.  Two schools added within the same millisecond carry the same
    id, and removing either removes both: after the two additions and
    one removal the list of schools is what the removal alone would have
    left. *)
Theorem same_instant_schools_go_together (now : Z)
  (name1 division1 contact1 name2 division2 contact2 : jsstring)
  (st : AppState) :
  schools
    (removeSchool now
       (addSchool now name2 division2 contact2
          (addSchool now name1 division1 contact1 st)))
  = schools (removeSchool now st).
Proof.
  rewrite !removeSchool_schools. unfold addSchool.
  destruct (negb (truthy (trim name1))), (negb (truthy (trim name2)));
    cbn [setSchools schools profile]; rewrite ?filter_app;
    cbn [filter School.id]; rewrite ?Z.eqb_refl; cbn [negb];
    rewrite ?app_nil_r; reflexivity.
Qed.
(** ** The forms *)

Lemma addAchievement_blank (now : Z) (st : AppState) :
  addAchievement now [] st = st.
Proof. reflexivity. Qed.

Lemma addSchool_blank (now : Z) (division contact : list Z) (st : AppState) :
  addSchool now [] division contact st = st.
Proof. reflexivity. Qed.

Lemma sendToBot_blank (now1 now2 : Z) (st : AppState) :
  sendToBot now1 now2 [] st = st.
Proof. reflexivity. Qed.

(** X10.  Each Add or Send button empties its input when it is pressed,
    and an empty input is refused: pressing a button a second time,
    before anything is typed, adds nothing to what the first press left,
    whatever the clock shows by then. *)
Theorem second_press_adds_nothing (pg : Page) :
  (forall t1 t2,
      fst (clickAddAchievement t2 (clickAddAchievement t1 pg))
      = fst (clickAddAchievement t1 pg))
  /\ (forall t1 t2,
        fst (clickAddSchool t2 (clickAddSchool t1 pg))
        = fst (clickAddSchool t1 pg))
  /\ (forall t1 d1 t2 d2,
        fst (clickAddOutreach t2 d2 (clickAddOutreach t1 d1 pg))
        = fst (clickAddOutreach t1 d1 pg))
  /\ (forall t1 u1 t2 u2,
        fst (submitBot t2 u2 (submitBot t1 u1 pg))
        = fst (submitBot t1 u1 pg)).
Proof.
  destruct pg as [st fm]. repeat apply conj.
  - intros t1 t2. cbn [clickAddAchievement fst setAchInput achInput].
    apply addAchievement_blank.
  - intros t1 t2.
    cbn [clickAddSchool fst setSchoolName setSchoolDivision setSchoolContact
         schoolName schoolDivision schoolContact].
    apply addSchool_blank.
  - intros t1 d1 t2 d2. unfold clickAddOutreach at 2 3.
    destruct (outreachSchoolId fm) as [id|] eqn:Eid.
    + destruct (truthy (trim (outreachMessage fm))) eqn:Emsg.
      * cbn [clickAddOutreach setOutreachMessage outreachSchoolId
             outreachMessage]. rewrite Eid. reflexivity.
      * cbn [clickAddOutreach]. now rewrite Eid, Emsg.
    + cbn [clickAddOutreach]. now rewrite Eid.
  - intros t1 u1 t2 u2. cbn [submitBot fst setBotInput botInput].
    apply sendToBot_blank.
Qed.

Lemma find_after_remove (id : Z) (l : list School.t) :
  find (fun s => School.id s =? id)
       (filter (fun s => negb (School.id s =? id)) l) = None.
Proof.
  induction l as [|s l IH]; cbn [filter]; [reflexivity|].
  destruct (School.id s =? id) eqn:E; cbn [negb]; [exact IH|].
  cbn [find]. now rewrite E.
Qed.

(** X11.  Removing a school does not clear the selection of the outreach
    form.  With the removed school still selected and a message typed,
    Add Outreach (shown as long as any school is left) logs nothing, and
    the message is emptied all the same. *)
Theorem removed_selection_drops_message (now today id : Z) (pg : Page) :
  outreachSchoolId (snd pg) = Some id ->
  trim (outreachMessage (snd pg)) <> [] ->
  let pg1 := clickRemoveSchool id pg in
  outreachSchoolId (snd pg1) = Some id
  /\ outreachMessage (snd pg1) = outreachMessage (snd pg)
  /\ clickAddOutreach now today pg1
     = (fst pg1, setOutreachMessage [] (snd pg1)).
Proof.
  destruct pg as [st fm]. cbn [snd fst]. intros Hid Hmsg.
  cbn [clickRemoveSchool snd fst]. repeat apply conj; try assumption.
  - reflexivity.
  - cbn [clickAddOutreach]. rewrite Hid.
    destruct (trim (outreachMessage fm)) eqn:E; [contradiction|].
    cbn [truthy]. f_equal. unfold logOutreach.
    rewrite removeSchool_schools. now rewrite find_after_remove.
Qed.

Lemma removed_selection_drops_message_witness :
  clickAddOutreach 1704412800000 1704412800000
    (clickRemoveSchool 1704067200000 samplePage)
  = (removeSchool 1704067200000 demoState,
     setOutreachMessage [] (snd samplePage)).
Proof.
  apply (removed_selection_drops_message 1704412800000 1704412800000
           1704067200000 samplePage); [reflexivity|].
  vm_compute. discriminate.
Defined.

(** ** The outreach table *)

Lemma find_school_in (id : Z) (l : list School.t) (s : School.t) :
  find (fun s => School.id s =? id) l = Some s ->
  In s l /\ School.id s = id.
Proof.
  intros H. apply find_some in H as [Hin Hid].
  split; [exact Hin|now apply Z.eqb_eq].
Qed.

(** X12.  In the outreach table the School cell of an entry that
    resolves is the name of a school of the list with the id the entry
    refers to, and the cell of an entry that does not resolve is the
    hyphen.  So a state without dangling entries shows the name of a
    school in every row; and the table has one row for each entry, in
    order, with the date and the message of the entry. *)
Theorem outreach_rows_name_schools (st : AppState) :
  (forall entry, resolves (schools st) entry ->
     exists s, In s (schools st)
       /\ School.id s = Outreach.schoolId entry
       /\ schoolCell (schools st) entry = School.name s)
  /\ (forall entry, ~ resolves (schools st) entry ->
        schoolCell (schools st) entry = str "-")
  /\ (referentiallyIntact st ->
      forall row, In row (outreachRows st) ->
        exists s, In s (schools st) /\ snd (fst row) = School.name s)
  /\ map (fun row => (fst (fst row), snd row)) (outreachRows st)
     = map (fun o => (Outreach.date o, Outreach.message o)) (outreach st).
Proof.
  assert (Hres : forall entry, resolves (schools st) entry ->
     exists s, In s (schools st)
       /\ School.id s = Outreach.schoolId entry
       /\ schoolCell (schools st) entry = School.name s).
  { intros entry Hr. unfold schoolCell.
    destruct (find _ (schools st)) as [s|] eqn:F.
    - apply find_school_in in F as [Hin Hid]. now exists s.
    - apply find_school_none in F. contradiction. }
  repeat apply conj.
  - exact Hres.
  - intros entry Hn. unfold schoolCell.
    destruct (find _ (schools st)) as [s|] eqn:F; [|reflexivity].
    apply find_school_in in F as [Hin Hid]. exfalso. apply Hn. now exists s.
  - intros Hst row Hrow. unfold outreachRows in Hrow.
    apply in_map_iff in Hrow as (entry & <- & Hentry). cbn [fst snd].
    destruct (Hres entry (Hst entry Hentry)) as (s & Hin & _ & Hcell).
    now exists s.
  - unfold outreachRows. rewrite map_map. reflexivity.
Qed.
(** ** The ends of the fit-score scale *)

Lemma Qround_even_ge_floor (x : Q) : Qfloor x <= Qround_even x.
Proof.
  unfold Qround_even. destruct (_ ?= _)%Q; [destruct (Z.even _)| |]; lia.
Qed.

Lemma Qround_even_ge (N : Z) (y : Q) :
  (inject_Z N <= y)%Q -> N <= Qround_even y.
Proof.
  intros H. pose proof (Qround_even_ge_floor y).
  pose proof (Qfloor_resp_le _ _ H) as Hf. rewrite Qfloor_Z in Hf. lia.
Qed.

(** A power of two with exponent [floor(log2 a)] is below [a]. *)
Lemma Qlog2_floor_le (a : Q) :
  (0 < a)%Q -> 0 < Qlog2_floor a ->
  (inject_Z (2 ^ Qlog2_floor a) <= a)%Q.
Proof.
  intros Ha. unfold Qlog2_floor.
  set (k := Z.log2 (Qnum a) - Z.log2 (Z.pos (Qden a))).
  destruct (Qle_bool (2 ^ k) a) eqn:E; intros Hk.
  - apply Qle_bool_iff in E. now rewrite Zpower_Qpower by lia.
  - destruct a as [n d]. cbn [Qnum Qden] in *.
    assert (Hn : 0 < n).
    { unfold Qlt in Ha. cbn in Ha. lia. }
    unfold Qle. cbn [Qnum Qden inject_Z]. rewrite Z.mul_1_r.
    pose proof (Z.log2_spec n Hn) as [Hn1 _].
    pose proof (Z.log2_spec (Z.pos d) eq_refl) as [_ Hd2].
    pose proof (Z.log2_nonneg (Z.pos d)) as Hd0.
    replace (Z.log2 n) with ((k - 1) + Z.succ (Z.log2 (Z.pos d))) in Hn1
      by (subst k; lia).
    rewrite Z.pow_add_r in Hn1 by lia.
    assert (0 < 2 ^ (k - 1)) by (apply Z.pow_pos_nonneg; lia).
    nia.
Qed.

Lemma Qpower2_pos (e : Z) : (0 < 2 ^ e)%Q.
Proof. apply Qpower_0_lt. reflexivity. Qed.

(** Rounding does not cross a positive integer below 2^53: a real at or
    above it rounds to a binary64 at or above it. *)
Lemma binary64_ge_integer (n : Z) (x : Q) :
  0 < n < 2 ^ 53 -> (inject_Z n <= x)%Q ->
  binary64 x = PInf
  \/ exists r, binary64 x = Fin r /\ (inject_Z n <= r)%Q.
Proof.
  intros Hn Hx.
  assert (Hpos : (0 < x)%Q).
  { apply Qlt_le_trans with (inject_Z n); [|exact Hx].
    change 0%Q with (inject_Z 0). rewrite <- Zlt_Qlt. lia. }
  destruct x as [p d]. unfold binary64. cbn [Qnum].
  assert (Hp : 0 < p). { unfold Qlt in Hpos. cbn in Hpos. lia. }
  destruct p as [|p|p]; try lia.
  cbn [Z.ltb Z.compare].
  change (Qabs (Z.pos p # d)) with (Z.pos p # d).
  set (x := Z.pos p # d) in *.
  set (e := Z.max (-1074) (Qlog2_floor x - 52)).
  set (m := Qround_even (x / 2 ^ e)).
  assert (Hr : (inject_Z n <= inject_Z m * 2 ^ e)%Q).
  { destruct (Z_le_gt_dec e 0) as [He|He].
    - assert (Hpow : (2 ^ e == / inject_Z (2 ^ (- e)))%Q).
      { rewrite <- (Z.opp_involutive e) at 1. rewrite Qpower_opp.
        now rewrite Zpower_Qpower by lia. }
      assert (Hnz : ~ (inject_Z (2 ^ (- e)) == 0)%Q).
      { change 0%Q with (inject_Z 0). rewrite inject_Z_injective.
        apply Z.pow_nonzero; lia. }
      assert (Hm : n * 2 ^ (- e) <= m).
      { subst m. apply Qround_even_ge. rewrite Hpow, inject_Z_mult.
        unfold Qdiv. rewrite Qinv_involutive.
        apply Qmult_le_compat_r; [exact Hx|].
        change 0%Q with (inject_Z 0). rewrite <- Zle_Qle.
        apply Z.pow_nonneg. lia. }
      rewrite Zle_Qle, inject_Z_mult in Hm.
      apply Qle_trans with (inject_Z n * inject_Z (2 ^ (- e)) * 2 ^ e)%Q.
      + rewrite Hpow. apply Qle_lteq. right. field. exact Hnz.
      + apply Qmult_le_compat_r; [exact Hm|].
        apply Qlt_le_weak, Qpower2_pos.
    - assert (HL : 52 < Qlog2_floor x) by (subst e; lia).
      assert (He' : e = Qlog2_floor x - 52) by (subst e; lia).
      pose proof (Qlog2_floor_le x Hpos ltac:(lia)) as Hlog.
      assert (Hpow : (2 ^ e == inject_Z (2 ^ e))%Q).
      { now rewrite Zpower_Qpower by lia. }
      assert (Hm : 2 ^ 52 <= m).
      { subst m. apply Qround_even_ge. rewrite Hpow.
        apply Qle_shift_div_l.
        - change 0%Q with (inject_Z 0). rewrite <- Zlt_Qlt.
          apply Z.pow_pos_nonneg; lia.
        - rewrite <- inject_Z_mult, <- Z.pow_add_r by lia.
          replace (52 + e) with (Qlog2_floor x) by lia. exact Hlog. }
      rewrite Hpow, <- inject_Z_mult, <- Zle_Qle.
      assert (2 <= 2 ^ e).
      { change 2 with (2 ^ 1) at 1. apply Z.pow_le_mono_r; lia. }
      change (2 ^ 53) with (2 ^ 52 * 2) in Hn. nia. }
  destruct (Qle_bool _ _); [now left|right].
  eexists. split; [reflexivity|]. now rewrite Qred_correct.
Qed.

Lemma top_of_scale (y : jsnumber) :
  y = PInf \/ (exists r, y = Fin r /\ (inject_Z 100 <= r)%Q) ->
  Math_min (num 100) (Math_max (num 0) (Math_round y)) = num 100.
Proof.
  intros [->|(r & -> & Hr)]; [reflexivity|].
  cbn [Math_round]. set (z := Qfloor (r + (1 # 2))).
  assert (Hz : 100 <= z).
  { subst z. rewrite <- (Qfloor_half 100). apply Qfloor_resp_le.
    now apply Qplus_le_l. }
  unfold Math_max, Math_min, num. rewrite Qle_bool_inject.
  replace (0 <=? z) with true by (symmetry; apply Z.leb_le; lia).
  rewrite Qle_bool_inject.
  now replace (100 <=? z) with true by (symmetry; apply Z.leb_le; lia).
Qed.

Lemma scaled_full (x : jsnumber) :
  x = PInf \/ (exists q, x = Fin q /\ (4 <= q)%Q) ->
  mul (div x (num 4)) (num 100) = PInf
  \/ exists r, mul (div x (num 4)) (num 100) = Fin r
               /\ (inject_Z 100 <= r)%Q.
Proof.
  intros [->|(q & -> & Hq)]; [now left|].
  rewrite div_by_pos by reflexivity.
  assert (H1 : (inject_Z 1 <= q / inject_Z 4)%Q).
  { apply Qle_shift_div_l; [reflexivity|]. exact Hq. }
  destruct (binary64_ge_integer 1 _ ltac:(split; reflexivity) H1)
    as [->|(r & -> & Hr)]; [now left|].
  unfold mul, num.
  apply (binary64_ge_integer 100); [split; reflexivity|].
  setoid_replace (inject_Z 100) with (inject_Z 1 * inject_Z 100)%Q
    at 1 by reflexivity.
  apply Qmult_le_compat_r; [exact Hr|discriminate].
Qed.

Lemma nonpositive_scores_zero (x : jsnumber) :
  x = NInf \/ (exists q, x = Fin q /\ (q <= 0)%Q) ->
  Math_min (num 100)
    (Math_max (num 0) (Math_round (mul (div x (num 4)) (num 100)))) = num 0.
Proof.
  intros [->|[q [-> Hq]]].
  - reflexivity.
  - rewrite div_by_pos by reflexivity.
    assert (H4 : (q / inject_Z 4 <= 0)%Q).
    { apply Qle_shift_div_r; [reflexivity|]. now rewrite Qmult_0_l. }
    destruct (binary64_nonpos _ H4) as [->|[r [-> Hr]]].
    + reflexivity.
    + unfold mul, num.
      assert (H100 : (r * inject_Z 100 <= 0)%Q).
      { rewrite <- (Qmult_0_l (inject_Z 100)).
        apply Qmult_le_compat_r; [exact Hr|discriminate]. }
      destruct (binary64_nonpos _ H100) as [->|[r' [-> Hr']]].
      * reflexivity.
      * now apply clamp_nonpos.
Qed.

(** X13.  The fit score is pinned at both ends of the scale: every GPA
    text that [parseFloat] reads as 4 or more, or as [Infinity], scores
    exactly 100, and every text read as 0 or less, or as [-Infinity],
    scores exactly 0, whatever the two binary64 roundings on the way
    do. *)
Theorem computeFitScore_saturates (g : jsstring) :
  (parseFloat g = PInf \/ (exists q, parseFloat g = Fin q /\ (4 <= q)%Q) ->
   computeFitScore g = num 100)
  /\ (parseFloat g = NInf \/ (exists q, parseFloat g = Fin q /\ (q <= 0)%Q) ->
      computeFitScore g = num 0).
Proof.
  split; intros H; unfold computeFitScore.
  - assert (Hn : isNaN (parseFloat g) = false).
    { destruct H as [->|(q & -> & _)]; reflexivity. }
    rewrite Hn. apply top_of_scale, scaled_full, H.
  - assert (Hn : isNaN (parseFloat g) = false).
    { destruct H as [->|(q & -> & _)]; reflexivity. }
    rewrite Hn. apply nonpositive_scores_zero, H.
Qed.

Lemma computeFitScore_saturates_witness :
  computeFitScore (str "4.35") = num 100
  /\ computeFitScore (str "-0.5e1") = num 0.
Proof.
  split.
  - apply (proj1 (computeFitScore_saturates (str "4.35"))). right.
    eexists. split; [vm_compute; reflexivity|]. vm_compute. discriminate.
  - apply (proj2 (computeFitScore_saturates (str "-0.5e1"))). right.
    eexists. split; [vm_compute; reflexivity|]. vm_compute. discriminate.
Defined.
(** ** Reading compact JSON *)

Lemma closed_stops (rest : list Z) : closed rest -> stops rest.
Proof.
  destruct rest as [|c r]; [easy|]. intros [->|[->| ->]]; reflexivity.
Qed.

Lemma parseFraction_closed (rest : list Z) :
  closed rest -> parseFraction rest = Some ([], rest).
Proof.
  destruct rest as [|c r]; [reflexivity|]. intros [->|[->| ->]]; reflexivity.
Qed.

Lemma parseExponent_closed (rest : list Z) :
  closed rest -> parseExponent rest = Some (0, rest).
Proof.
  destruct rest as [|c r]; [reflexivity|]. intros [->|[->| ->]]; reflexivity.
Qed.

(** An integer written by Number::toString and followed by a comma or a
    closing bracket is read back as the same number. *)
Lemma parseNumber_toString_closed (z : Z) (rest : list Z) :
  safeInteger z -> closed rest ->
  parseNumber (Number_toString z ++ rest) = Some (num z, rest).
Proof.
  intros Hz Hrest. pose proof (closed_stops rest Hrest) as Hstop.
  unfold Number_toString.
  destruct (z <? 0) eqn:Eneg.
  - apply Z.ltb_lt in Eneg.
    destruct (decimalDigits_spec (- z) ltac:(lia))
      as (Hdig & Hval & c & ds & Hhead & Hzero).
    unfold parseNumber. cbn [app]. change (45 =? 45) with true. cbn iota.
    rewrite (takeDigits_app _ rest Hdig Hstop). rewrite Hhead.
    destruct ((c =? 48) && truthy ds) eqn:Elead.
    { apply andb_true_iff in Elead as [Hc _]. apply Z.eqb_eq in Hc.
      destruct (Hzero Hc). lia. }
    rewrite <- Hhead, parseFraction_closed, parseExponent_closed
      by exact Hrest.
    rewrite decimalValue_integer, Hval.
    change (- inject_Z (- z))%Q with (inject_Z (- - z)).
    rewrite Z.opp_involutive. now rewrite binary64_safe.
  - apply Z.ltb_ge in Eneg.
    destruct (decimalDigits_spec z Eneg)
      as (Hdig & Hval & c & ds & Hhead & Hzero).
    unfold parseNumber. rewrite Hhead. cbn [app].
    assert (Hc : isDigit c = true).
    { unfold digitsOnly in Hdig. rewrite Hhead in Hdig. cbn [forallb] in Hdig.
      now apply andb_true_iff in Hdig as [Hc _]. }
    destruct (digit_not_sign c Hc) as [H45 _]. rewrite H45.
    change (c :: ds ++ rest) with ((c :: ds) ++ rest).
    rewrite <- Hhead. rewrite (takeDigits_app _ rest Hdig Hstop).
    rewrite Hhead.
    destruct ((c =? 48) && truthy ds) eqn:Elead.
    { apply andb_true_iff in Elead as [Hc0 Hds]. apply Z.eqb_eq in Hc0.
      destruct (Hzero Hc0) as [_ ->]. discriminate. }
    rewrite <- Hhead, parseFraction_closed, parseExponent_closed
      by exact Hrest.
    rewrite decimalValue_integer, Hval. now rewrite binary64_safe.
Qed.

Lemma reads_mono (f g : nat) (text : list Z) (v : jsvalue) :
  (f <= g)%nat -> reads f text v -> reads g text v.
Proof.
  intros Hfg H k rest Hrest.
  replace (g + k)%nat with (f + (g - f + k))%nat by lia. now apply H.
Qed.

Lemma reads_string (s : list Z) :
  wfString s = true -> reads 1 (QuoteJSONString s) (JStr s).
Proof.
  intros Hs k rest _. cbn [Nat.add]. rewrite parseValue_eq.
  unfold QuoteJSONString. cbn [app]. rewrite skipWS_head by reflexivity.
  change (34 =? 34) with true. cbn iota.
  rewrite <- app_assoc. cbn [app]. now rewrite parse_quoted.
Qed.

Lemma reads_number (z : Z) :
  safeInteger z -> reads 1 (Number_toString z) (JNum (num z)).
Proof.
  intros Hz k rest Hrest. cbn [Nat.add]. rewrite parseValue_eq.
  destruct (Number_toString_head z) as (c & r & Hhead & Hc).
  assert (Hnum : parseNumber (c :: r ++ rest) = Some (num z, rest)).
  { change (c :: r ++ rest) with ((c :: r) ++ rest). rewrite <- Hhead.
    now apply parseNumber_toString_closed. }
  rewrite Hhead. cbn [app].
  assert (Hcase : isJSONWhiteSpace c = false /\ (c =? 34) = false
                  /\ (c =? 91) = false /\ (c =? 123) = false
                  /\ (c =? 110) = false /\ (c =? 116) = false
                  /\ (c =? 102) = false).
  { destruct Hc as [-> | Hd]; [repeat split|].
    unfold isDigit in Hd. apply andb_true_iff in Hd as [H1 H2].
    apply Z.leb_le in H1, H2. unfold isJSONWhiteSpace.
    repeat split; try (apply Z.eqb_neq; lia).
    repeat (apply orb_false_iff; split); apply Z.eqb_neq; lia. }
  destruct Hcase as (W & E1 & E2 & E3 & E4 & E5 & E6).
  rewrite skipWS_head by exact W.
  now rewrite E1, E2, E3, E4, E5, E6, Hnum.
Qed.

Lemma closed_comma (r : list Z) : closed (44 :: r).
Proof. now left. Qed.

Lemma closed_bracket (r : list Z) : closed (93 :: r).
Proof. right. now left. Qed.

Lemma closed_brace (r : list Z) : closed (125 :: r).
Proof. right. now right. Qed.

(** One property, followed by whatever comes next: the key is read, then
    the colon, then the value. *)
Lemma parseMembers_compactMember (g f : nat) (m : list Z * list Z * jsvalue)
  (next : list Z) :
  memberReadsCompact f m -> (f <= g)%nat -> closed next ->
  parseMembers (S g) (compactMember (memberText m) ++ next)
  = match skipWS next with
    | [] => None
    | c :: r4 =>
      if c =? 44 then
        match parseMembers g r4 with
        | Some (ms, r5) => Some (memberValue m :: ms, r5)
        | None => None
        end
      else if c =? 125 then Some ([memberValue m], r4)
      else None
    end.
Proof.
  intros [Hkey Hval] Hfg Hnext. destruct m as [[key text] v].
  unfold memberText, memberValue, compactMember, QuoteJSONString in *.
  cbn [fst snd] in *. rewrite parseMembers_eq.
  rewrite <- !app_assoc. cbn [app]. rewrite <- !app_assoc. cbn [app].
  rewrite skipWS_head by reflexivity. change (34 =? 34) with true. cbn iota.
  rewrite (parse_quoted key _ Hkey).
  rewrite skipWS_head by reflexivity. change (58 =? 58) with true. cbn iota.
  replace g with (f + (g - f))%nat by lia.
  rewrite (Hval (g - f)%nat next Hnext).
  replace (f + (g - f))%nat with g by lia. reflexivity.
Qed.

(** A run of properties, or of elements, joined by commas and closed at
    once; each is read with fuel [f]. *)
Lemma parseMembers_compact (f : nat) (rest : list Z)
  (ms : list (list Z * list Z * jsvalue)) :
  ms <> [] -> Forall (memberReadsCompact f) ms ->
  forall k,
    parseMembers (List.length ms + f + k)
      (joinWith [44] (map (fun m => compactMember (memberText m)) ms)
       ++ 125 :: rest)
    = Some (map memberValue ms, rest).
Proof.
  induction ms as [|m ms IH]; [contradiction|].
  intros _ Hall k. inversion Hall as [|m0 ms0 Hm Hms]; subst.
  cbn [List.length Nat.add map joinWith].
  destruct ms as [|m' ms'].
  - cbn [map].
    rewrite (parseMembers_compactMember _ f m _ Hm)
      by (lia || apply closed_brace).
    rewrite skipWS_head by reflexivity. reflexivity.
  - cbn [map]. rewrite <- !app_assoc.
    rewrite (parseMembers_compactMember _ f m _ Hm)
      by (lia || (cbn [app]; apply closed_comma)).
    cbn [app]. rewrite skipWS_head by reflexivity.
    change (44 =? 44) with true. cbn iota.
    cbn [map] in IH. rewrite (IH ltac:(discriminate) Hms k). reflexivity.
Qed.

Lemma parseElements_compact (f : nat) (rest : list Z)
  (items : list (list Z * jsvalue)) :
  items <> [] -> Forall (fun it => reads f (fst it) (snd it)) items ->
  forall k,
    parseElements (List.length items + f + k)
      (joinWith [44] (map fst items) ++ 93 :: rest)
    = Some (map snd items, rest).
Proof.
  induction items as [|it items IH]; [contradiction|].
  intros _ Hall k. inversion Hall as [|it0 items0 Hit Hitems]; subst.
  destruct items as [|it' items'].
  - cbn [List.length Nat.add map joinWith]. rewrite parseElements_eq.
    rewrite (Hit k _ (closed_bracket _)).
    rewrite skipWS_head by reflexivity. reflexivity.
  - change (List.length (it :: it' :: items') + f + k)%nat
      with (S (List.length (it' :: items') + f + k)).
    rewrite parseElements_eq.
    cbn [map]. rewrite joinWith_more, <- !app_assoc.
    replace (List.length (it' :: items') + f + k)%nat
      with (f + (List.length (it' :: items') + k))%nat by lia.
    cbn [app]. rewrite (Hit _ _ (closed_comma _)).
    rewrite skipWS_head by reflexivity.
    change (44 =? 44) with true. cbn iota.
    replace (f + (List.length (it' :: items') + k))%nat
      with (List.length (it' :: items') + f + k)%nat by lia.
    cbn [map] in IH. rewrite (IH ltac:(discriminate) Hitems k). reflexivity.
Qed.

Lemma compactMember_head (m : list Z * list Z) (x : list Z) :
  exists y, compactMember m ++ x = 34 :: y.
Proof.
  unfold compactMember, QuoteJSONString. cbn [app]. eauto.
Qed.

Lemma joinWith_compact_head (ms : list (list Z * list Z)) (x : list Z) :
  ms <> [] -> exists y, joinWith [44] (map compactMember ms) ++ x = 34 :: y.
Proof.
  destruct ms as [|m ms]; [contradiction|]. intros _. cbn [map joinWith].
  destruct (map compactMember ms).
  - apply compactMember_head.
  - rewrite <- app_assoc. apply compactMember_head.
Qed.

(** A compact object with at least one property, each of whose values is
    read back, is read back as the object of these properties. *)
Lemma reads_object (f : nat) (ms : list (list Z * list Z * jsvalue)) :
  ms <> [] -> Forall (memberReadsCompact f) ms ->
  mkObject (map memberValue ms) = map memberValue ms ->
  reads (S (List.length ms + f))
        (compactObject (map memberText ms))
        (JObj (map memberValue ms)).
Proof.
  intros Hne Hall Hobj k rest Hrest.
  cbn [Nat.add]. rewrite parseValue_eq. unfold compactObject.
  cbn [app]. rewrite <- app_assoc. cbn [app].
  rewrite skipWS_head by reflexivity.
  change (123 =? 34) with false. change (123 =? 91) with false.
  change (123 =? 123) with true. cbn iota.
  destruct (joinWith_compact_head (map memberText ms) (125 :: rest))
    as [y Hy].
  { destruct ms; [contradiction|discriminate]. }
  rewrite Hy. rewrite skipWS_head by reflexivity.
  change (34 =? 125) with false. cbn iota. rewrite <- Hy.
  rewrite map_map.
  rewrite (parseMembers_compact f rest ms Hne Hall k).
  now rewrite Hobj.
Qed.

(** A compact array of objects, each of which is read back, is read
    back as the array of these elements. *)
Lemma reads_array (f : nat) (items : list (list Z * jsvalue)) :
  Forall (fun it => reads f (fst it) (snd it)) items ->
  Forall (fun it => exists y, fst it = 123 :: y) items ->
  reads (S (List.length items + f))
        (compactArray (map fst items))
        (JArr (map snd items)).
Proof.
  intros Hall Hhead k rest Hrest.
  cbn [Nat.add]. rewrite parseValue_eq. unfold compactArray.
  destruct items as [|it items]; [reflexivity|].
  cbn [app]. rewrite <- app_assoc. cbn [app].
  rewrite skipWS_head by reflexivity.
  change (91 =? 34) with false. change (91 =? 91) with true. cbn iota.
  inversion Hhead as [|it0 items0 [y Hy] _]; subst.
  assert (Hfirst : exists y',
             joinWith [44] (map fst (it :: items)) ++ 93 :: rest
             = 123 :: y').
  { cbn [map joinWith]. rewrite Hy.
    destruct (map fst items); cbn [app]; eauto. }
  destruct Hfirst as [y' Hy']. rewrite Hy'.
  rewrite skipWS_head by reflexivity.
  change (123 =? 93) with false. cbn iota. rewrite <- Hy'.
  rewrite (parseElements_compact f rest (it :: items)
             ltac:(discriminate) Hall k).
  reflexivity.
Qed.

(** The array of the texts [text] writes for the elements of [l], when
    each is read back as what [value] makes of it. *)
Lemma reads_list {A} (text : A -> list Z) (value : A -> jsvalue)
  (wf : A -> Prop) (f : nat) (l : list A) :
  (forall a, wf a -> reads f (text a) (value a)) ->
  (forall a, exists y, text a = 123 :: y) ->
  Forall wf l ->
  reads (S (List.length l + f))
        (compactArray (map text l)) (JArr (map value l)).
Proof.
  intros Hread Hhead Hl.
  pose (items := map (fun a => (text a, value a)) l).
  assert (E1 : map fst items = map text l).
  { subst items. rewrite map_map. reflexivity. }
  assert (E2 : map snd items = map value l).
  { subst items. rewrite map_map. reflexivity. }
  assert (E3 : List.length items = List.length l).
  { subst items. apply length_map. }
  rewrite <- E1, <- E2, <- E3. apply reads_array.
  - subst items. rewrite Forall_map. eapply Forall_impl; [|exact Hl].
    intros a Ha. cbn [fst snd]. now apply Hread.
  - subst items. rewrite Forall_map, Forall_forall.
    intros a _. cbn [fst]. apply Hhead.
Qed.

(** *** The length of a compact text *)

Lemma joinWith_length_min (c : nat) (sep : list Z) (l : list (list Z)) :
  Forall (fun x => (c <= List.length x)%nat) l ->
  (c * List.length l <= List.length (joinWith sep l))%nat.
Proof.
  induction l as [|a l IH]; [cbn; lia|].
  intros H. inversion H as [|a0 l0 Ha Hl]; subst.
  destruct l as [|b l'].
  - cbn [joinWith List.length]. lia.
  - rewrite joinWith_more, !length_app. specialize (IH Hl).
    cbn [List.length] in *. lia.
Qed.

Lemma compactObject_length (ms : list (list Z * list Z)) :
  (2 <= List.length (compactObject ms))%nat.
Proof.
  unfold compactObject. cbn [List.length]. rewrite length_app.
  cbn [List.length]. lia.
Qed.

(** [JSON.parse] gives an array of objects enough fuel when each object
    needs at most 8. *)
Lemma parse_list {A} (text : A -> list Z) (value : A -> jsvalue)
  (wf : A -> Prop) (f : nat) (l : list A) :
  (f <= 8)%nat ->
  (forall a, wf a -> reads f (text a) (value a)) ->
  (forall a, exists ms, text a = compactObject ms) ->
  Forall wf l ->
  JSON.parse (compactArray (map text l)) = Some (JArr (map value l)).
Proof.
  intros Hf Hread Hobj Hl. unfold JSON.parse.
  assert (Hhead : forall a, exists y, text a = 123 :: y).
  { intros a. destruct (Hobj a) as [ms ->]. unfold compactObject. eauto. }
  pose proof (reads_list text value wf f l Hread Hhead Hl) as H.
  assert (Hlen : (2 * List.length l + 2
                  <= List.length (compactArray (map text l)))%nat).
  { unfold compactArray. cbn [List.length]. rewrite length_app.
    cbn [List.length].
    pose proof (joinWith_length_min 2 [44] (map text l)) as Hmin.
    rewrite length_map in Hmin.
    assert (Hall : Forall (fun x => (2 <= List.length x)%nat) (map text l)).
    { rewrite Forall_map, Forall_forall. intros a _.
      destruct (Hobj a) as [ms ->]. apply compactObject_length. }
    specialize (Hmin Hall). lia. }
  destruct l as [|a l'].
  - reflexivity.
  - specialize (H (2 * List.length (compactArray (map text (a :: l'))) + 2
                   - S (List.length (a :: l') + f))%nat [] I).
    rewrite app_nil_r in H.
    replace (S (List.length (a :: l') + f)
             + (2 * List.length (compactArray (map text (a :: l'))) + 2
                - S (List.length (a :: l') + f)))%nat
      with (2 * List.length (compactArray (map text (a :: l'))) + 2)%nat in H.
    + now rewrite H.
    + cbn [List.length] in *. lia.
Qed.
(** ** localStorage *)

Lemma string_eqb_eq (a b : list Z) : string_eqb a b = true <-> a = b.
Proof.
  revert b. induction a as [|c a IH]; intros [|d b]; cbn [string_eqb];
    try (split; [discriminate|discriminate]); [tauto|].
  rewrite andb_true_iff, Z.eqb_eq, IH. split.
  - intros [-> ->]. reflexivity.
  - intros H. inversion H. auto.
Qed.

Lemma string_eqb_refl (a : list Z) : string_eqb a a = true.
Proof. now apply string_eqb_eq. Qed.

(** An item that was set is what [getItem] returns. *)
Lemma getItem_setItem (key value : list Z) (s : Storage) :
  getItem key (setItem key value s) = Some value.
Proof.
  induction s as [|[k v] s IH]; cbn [setItem getItem].
  - now rewrite string_eqb_refl.
  - destruct (string_eqb k key) eqn:E; cbn [getItem]; now rewrite E.
Qed.

(** Setting an item leaves the items of the other keys alone. *)
Lemma getItem_setItem_other (key key' value : list Z) (s : Storage) :
  key' <> key -> getItem key (setItem key' value s) = getItem key s.
Proof.
  intros Hne. induction s as [|[k v] s IH]; cbn [setItem getItem].
  - destruct (string_eqb key' key) eqn:E; [|reflexivity].
    apply string_eqb_eq in E. contradiction.
  - destruct (string_eqb k key') eqn:E; cbn [getItem].
    + apply string_eqb_eq in E. subst k.
      destruct (string_eqb key' key) eqn:E'; [|reflexivity].
      apply string_eqb_eq in E'. contradiction.
    + now rewrite IH.
Qed.

Ltac other_key :=
  rewrite getItem_setItem_other by (intros C; discriminate C).

Lemma persist_profile (st : AppState) (s : Storage) :
  getItem (str "rz_profile") (persist st s)
  = Some (storedProfile (profile st)).
Proof.
  unfold persist, persistBotName, persistBrandName, persistReelPlan,
    persistBotMessages, persistOutreach, persistSchools, persistProfile.
  do 6 other_key. apply getItem_setItem.
Qed.

Lemma persist_schools (st : AppState) (s : Storage) :
  getItem (str "rz_schools") (persist st s)
  = Some (storedSchools (schools st)).
Proof.
  unfold persist, persistBotName, persistBrandName, persistReelPlan,
    persistBotMessages, persistOutreach, persistSchools, persistProfile.
  do 5 other_key. apply getItem_setItem.
Qed.

Lemma persist_outreach (st : AppState) (s : Storage) :
  getItem (str "rz_outreach") (persist st s)
  = Some (storedOutreach (outreach st)).
Proof.
  unfold persist, persistBotName, persistBrandName, persistReelPlan,
    persistBotMessages, persistOutreach, persistSchools, persistProfile.
  do 4 other_key. apply getItem_setItem.
Qed.

Lemma persist_botMessages (st : AppState) (s : Storage) :
  getItem (str "rz_bot") (persist st s)
  = Some (storedBotMessages (botMessages st)).
Proof.
  unfold persist, persistBotName, persistBrandName, persistReelPlan,
    persistBotMessages, persistOutreach, persistSchools, persistProfile.
  do 3 other_key. apply getItem_setItem.
Qed.

Lemma persist_reelPlan (st : AppState) (s : Storage) :
  getItem (str "rz_reelPlan") (persist st s) = Some (reelPlan st).
Proof.
  unfold persist, persistBotName, persistBrandName, persistReelPlan,
    persistBotMessages, persistOutreach, persistSchools, persistProfile.
  do 2 other_key. apply getItem_setItem.
Qed.

Lemma persist_brandName (st : AppState) (s : Storage) :
  getItem (str "rz_brandName") (persist st s) = Some (brandName st).
Proof.
  unfold persist, persistBotName, persistBrandName, persistReelPlan,
    persistBotMessages, persistOutreach, persistSchools, persistProfile.
  do 1 other_key. apply getItem_setItem.
Qed.

Lemma persist_botName (st : AppState) (s : Storage) :
  getItem (str "rz_botName") (persist st s) = Some (botName st).
Proof.
  unfold persist, persistBotName. apply getItem_setItem.
Qed.

(** The items of other keys are not touched by the effects. *)
Lemma persist_other (key : list Z) (st : AppState) (s : Storage) :
  (forall c, key <> cellKey c) -> key <> str "rz_reelPlan" ->
  key <> str "rz_brandName" -> key <> str "rz_botName" ->
  getItem key (persist st s) = getItem key s.
Proof.
  intros Hc H1 H2 H3.
  pose proof (Hc CProfile) as Hp. pose proof (Hc CSchools) as Hs.
  pose proof (Hc COutreach) as Ho. pose proof (Hc CBotMessages) as Hb.
  cbn [cellKey] in *.
  unfold persist, persistBotName, persistBrandName, persistReelPlan,
    persistBotMessages, persistOutreach, persistSchools, persistProfile.
  rewrite !getItem_setItem_other by congruence. reflexivity.
Qed.

(** *** The stored texts are read back *)

Lemma reads_storedAchievement (a : Achievement.t) :
  wfAchievement a -> reads 4 (storedAchievement a) (achievementValue a).
Proof.
  intros [Hid Htext].
  apply (reads_object 1
           [ (str "id", Number_toString (Achievement.id a),
              JNum (num (Achievement.id a)));
             (str "text", QuoteJSONString (Achievement.text a),
              JStr (Achievement.text a)) ]).
  - discriminate.
  - repeat constructor; cbn [fst snd].
    + now apply reads_number.
    + now apply reads_string.
  - reflexivity.
Qed.

Lemma reads_storedProfile (p : Profile.t) :
  wfProfile p ->
  reads (List.length (Profile.achievements p) + 15)
        (storedProfile p) (profileValue p).
Proof.
  intros (Hn & He & Hph & Hpo & Hh & Hw & Hg & Ht & Ha).
  set (f := S (List.length (Profile.achievements p) + 4)).
  assert (Hs : forall s, wfString s = true ->
                 reads f (QuoteJSONString s) (JStr s)).
  { intros s Hs. apply (reads_mono 1); [subst f; lia|].
    now apply reads_string. }
  replace (List.length (Profile.achievements p) + 15)%nat
    with (S (9 + f)) by (subst f; lia).
  apply (reads_object f
           [ (str "name", QuoteJSONString (Profile.name p),
              JStr (Profile.name p));
             (str "email", QuoteJSONString (Profile.email p),
              JStr (Profile.email p));
             (str "phone", QuoteJSONString (Profile.phone p),
              JStr (Profile.phone p));
             (str "position", QuoteJSONString (Profile.position p),
              JStr (Profile.position p));
             (str "height", QuoteJSONString (Profile.height p),
              JStr (Profile.height p));
             (str "weight", QuoteJSONString (Profile.weight p),
              JStr (Profile.weight p));
             (str "gpa", QuoteJSONString (Profile.gpa p),
              JStr (Profile.gpa p));
             (str "testScores", QuoteJSONString (Profile.testScores p),
              JStr (Profile.testScores p));
             (str "achievements",
              compactArray (map storedAchievement (Profile.achievements p)),
              JArr (map achievementValue (Profile.achievements p))) ]).
  - discriminate.
  - repeat constructor; cbn [fst snd]; try (now apply Hs).
    apply (reads_list storedAchievement achievementValue wfAchievement 4).
    + apply reads_storedAchievement.
    + intros a. unfold storedAchievement, compactObject. eauto.
    + exact Ha.
  - reflexivity.
Qed.

Lemma storedProfile_length (p : Profile.t) :
  (List.length (Profile.achievements p) + 7
   <= List.length (storedProfile p))%nat.
Proof.
  set (arr := compactArray (map storedAchievement (Profile.achievements p))).
  assert (Harr : (List.length (Profile.achievements p)
                  <= List.length arr)%nat).
  { subst arr. unfold compactArray. cbn [List.length]. rewrite length_app.
    pose proof (joinWith_length_min 1 [44]
                  (map storedAchievement (Profile.achievements p))) as H.
    rewrite length_map in H.
    assert (Hall : Forall (fun x => (1 <= List.length x)%nat)
                     (map storedAchievement (Profile.achievements p))).
    { rewrite Forall_map, Forall_forall. intros a _.
      pose proof (compactObject_length
                    [ (str "id", Number_toString (Achievement.id a));
                      (str "text", QuoteJSONString (Achievement.text a)) ]).
      unfold storedAchievement. lia. }
    specialize (H Hall). lia. }
  assert (Hmem : (List.length (compactMember (str "achievements", arr))
                  <= List.length (storedProfile p))%nat).
  { unfold storedProfile, compactObject. fold arr.
    cbn [List.length]. rewrite length_app.
    match goal with
    | |- (_ <= S (List.length (joinWith ?sep ?l) + _))%nat =>
      pose proof (joinWith_length_in sep
                    (compactMember (str "achievements", arr)) l) as H
    end.
    assert (Hin : In (compactMember (str "achievements", arr))
                     (map compactMember
                        [ (str "name", QuoteJSONString (Profile.name p));
                          (str "email", QuoteJSONString (Profile.email p));
                          (str "phone", QuoteJSONString (Profile.phone p));
                          (str "position",
                           QuoteJSONString (Profile.position p));
                          (str "height", QuoteJSONString (Profile.height p));
                          (str "weight", QuoteJSONString (Profile.weight p));
                          (str "gpa", QuoteJSONString (Profile.gpa p));
                          (str "testScores",
                           QuoteJSONString (Profile.testScores p));
                          (str "achievements", arr) ])).
    { cbn [map In]. do 8 right. now left. }
    specialize (H Hin). lia. }
  assert (Hser : (List.length arr + 7
                  <= List.length (compactMember (str "achievements", arr)))%nat).
  { assert (Hkey : List.length (quoteUnits (str "achievements")) = 12%nat)
      by reflexivity.
    unfold compactMember, QuoteJSONString. cbn [fst snd].
    rewrite !length_app. cbn [List.length]. rewrite !length_app.
    cbn [List.length]. lia. }
  lia.
Qed.

Lemma parse_storedProfile (p : Profile.t) :
  wfProfile p -> JSON.parse (storedProfile p) = Some (profileValue p).
Proof.
  intros Hp. unfold JSON.parse.
  pose proof (storedProfile_length p) as Hlen.
  pose proof (reads_storedProfile p Hp
                (2 * List.length (storedProfile p) + 2
                 - (List.length (Profile.achievements p) + 15))%nat
                [] I) as H.
  rewrite app_nil_r in H.
  replace (List.length (Profile.achievements p) + 15
           + (2 * List.length (storedProfile p) + 2
              - (List.length (Profile.achievements p) + 15)))%nat
    with (2 * List.length (storedProfile p) + 2)%nat in H by lia.
  now rewrite H.
Qed.

(** A whole number from 0 to 100 is written by Number::toString as its
    decimal digits. *)
Lemma SerializeJSONNumber_score (n : Z) :
  0 <= n <= 100 -> SerializeJSONNumber (num n) = Number_toString n.
Proof.
  intros Hn.
  assert (Hall : forallb (fun k => string_eqb
                                     (SerializeJSONNumber (num (Z.of_nat k)))
                                     (Number_toString (Z.of_nat k)))
                         (seq 0 101) = true) by (vm_compute; reflexivity).
  rewrite forallb_forall in Hall.
  specialize (Hall (Z.to_nat n)). rewrite Z2Nat.id in Hall by lia.
  apply string_eqb_eq, Hall, in_seq. lia.
Qed.

Lemma reads_storedSchool (s : School.t) :
  wfSchool s -> reads 7 (storedSchool s) (schoolValue s).
Proof.
  intros (Hid & Hn & Hd & Hc & n & Hrange & Hfit).
  unfold storedSchool, schoolValue. rewrite Hfit.
  rewrite (SerializeJSONNumber_score n Hrange).
  apply (reads_object 1
           [ (str "id", Number_toString (School.id s),
              JNum (num (School.id s)));
             (str "name", QuoteJSONString (School.name s),
              JStr (School.name s));
             (str "division", QuoteJSONString (School.division s),
              JStr (School.division s));
             (str "contact", QuoteJSONString (School.contact s),
              JStr (School.contact s));
             (str "fitScore", Number_toString n, JNum (num n)) ]).
  - discriminate.
  - repeat constructor; cbn [fst snd];
      try (now apply reads_string); apply reads_number;
      [exact Hid|unfold safeInteger; lia].
  - reflexivity.
Qed.

Lemma reads_storedOutreachEntry (o : Outreach.t) :
  wfOutreach o -> reads 6 (storedOutreachEntry o) (outreachValue o).
Proof.
  intros (Hid & Hsid & Hd & Hm).
  apply (reads_object 1
           [ (str "id", Number_toString (Outreach.id o),
              JNum (num (Outreach.id o)));
             (str "schoolId", Number_toString (Outreach.schoolId o),
              JNum (num (Outreach.schoolId o)));
             (str "date", QuoteJSONString (Outreach.date o),
              JStr (Outreach.date o));
             (str "message", QuoteJSONString (Outreach.message o),
              JStr (Outreach.message o)) ]).
  - discriminate.
  - repeat constructor; cbn [fst snd];
      try (now apply reads_string); now apply reads_number.
  - reflexivity.
Qed.

Lemma senderText_wf (s : BotMessage.sender) : wfString (senderText s) = true.
Proof. destruct s; reflexivity. Qed.

Lemma reads_storedBotMessage (m : BotMessage.t) :
  wfBotMessage m -> reads 5 (storedBotMessage m) (botMessageValue m).
Proof.
  intros (Hid & Ht).
  apply (reads_object 1
           [ (str "id", Number_toString (BotMessage.id m),
              JNum (num (BotMessage.id m)));
             (str "from", QuoteJSONString (senderText (BotMessage.from m)),
              JStr (senderText (BotMessage.from m)));
             (str "text", QuoteJSONString (BotMessage.text m),
              JStr (BotMessage.text m)) ]).
  - discriminate.
  - repeat constructor; cbn [fst snd].
    + now apply reads_number.
    + apply reads_string, senderText_wf.
    + now apply reads_string.
  - reflexivity.
Qed.

Lemma parse_storedSchools (l : list School.t) :
  Forall wfSchool l ->
  JSON.parse (storedSchools l) = Some (JArr (map schoolValue l)).
Proof.
  apply (parse_list storedSchool schoolValue wfSchool 7); [lia| |].
  - apply reads_storedSchool.
  - intros s. unfold storedSchool. eauto.
Qed.

Lemma parse_storedOutreach (l : list Outreach.t) :
  Forall wfOutreach l ->
  JSON.parse (storedOutreach l) = Some (JArr (map outreachValue l)).
Proof.
  apply (parse_list storedOutreachEntry outreachValue wfOutreach 6); [lia| |].
  - apply reads_storedOutreachEntry.
  - intros o. unfold storedOutreachEntry. eauto.
Qed.

Lemma parse_storedBotMessages (l : list BotMessage.t) :
  Forall wfBotMessage l ->
  JSON.parse (storedBotMessages l) = Some (JArr (map botMessageValue l)).
Proof.
  apply (parse_list storedBotMessage botMessageValue wfBotMessage 5);
    [lia| |].
  - apply reads_storedBotMessage.
  - intros m. unfold storedBotMessage. eauto.
Qed.

Lemma loadJSON_stored (key : string) (fallback v : jsvalue)
  (text : list Z) (s : Storage) :
  getItem (str key) s = Some text -> text <> [] ->
  JSON.parse text = Some v -> loadJSON key fallback s = v.
Proof.
  intros Hget Hne Hparse. unfold loadJSON. rewrite Hget.
  destruct text; [contradiction|]. cbn [truthy]. now rewrite Hparse.
Qed.

Lemma mixedState_wf : wfState mixedState.
Proof.
  unfold wfState, mixedState. cbn [profile schools outreach botMessages].
  split; [exact mixedProfile_wf|].
  repeat split; repeat constructor; try reflexivity;
    try (exists 50; split; [lia|reflexivity]);
    try (exists 88; split; [lia|reflexivity]).
Qed.

(** *** Reloading the page *)

(** X14.  The profile survives a reload: when its strings are lists of
    UTF-16 code units and the ids of its achievements are safe integers,
    the text the effect writes under [rz_profile] is parsed by the
    initialiser into the object of that very profile, whatever the
    storage held before. *)
Theorem reload_profile (st : AppState) (s : Storage) :
  wfProfile (profile st) ->
  loadProfile (persist st s) = profileValue (profile st).
Proof.
  intros Hp. unfold loadProfile.
  apply (loadJSON_stored _ _ _ _ _ (persist_profile st s)).
  - discriminate.
  - now apply parse_storedProfile.
Qed.

Lemma reload_profile_witness :
  loadProfile (persist mixedState []) = profileValue mixedProfile.
Proof.
  apply (reload_profile mixedState []). exact mixedProfile_wf.
Defined.

(** X15.  The list of schools survives a reload, fit scores included:
    a fit score is a whole number from 0 to 100, which
    [JSON.stringify] writes as its decimal digits and [JSON.parse]
    reads back as the same number. *)
Theorem reload_schools (st : AppState) (s : Storage) :
  Forall wfSchool (schools st) ->
  loadSchools (persist st s) = JArr (map schoolValue (schools st)).
Proof.
  intros Hl. unfold loadSchools.
  apply (loadJSON_stored _ _ _ _ _ (persist_schools st s)).
  - discriminate.
  - now apply parse_storedSchools.
Qed.

Lemma reload_schools_witness :
  loadSchools (persist mixedState [])
  = JArr (map schoolValue (schools mixedState)).
Proof.
  apply (reload_schools mixedState []).
  destruct mixedState_wf as (_ & H & _). exact H.
Defined.

(** X16.  The outreach log survives a reload, in its order. *)
Theorem reload_outreach (st : AppState) (s : Storage) :
  Forall wfOutreach (outreach st) ->
  loadOutreach (persist st s) = JArr (map outreachValue (outreach st)).
Proof.
  intros Hl. unfold loadOutreach.
  apply (loadJSON_stored _ _ _ _ _ (persist_outreach st s)).
  - discriminate.
  - now apply parse_storedOutreach.
Qed.

Lemma reload_outreach_witness :
  loadOutreach (persist mixedState [])
  = JArr (map outreachValue (outreach mixedState)).
Proof.
  apply (reload_outreach mixedState []).
  destruct mixedState_wf as (_ & _ & H & _). exact H.
Defined.

(** X17.  The chat log survives a reload, in its order and with the
    sender of each message. *)
Theorem reload_botMessages (st : AppState) (s : Storage) :
  Forall wfBotMessage (botMessages st) ->
  loadBotMessages (persist st s)
  = JArr (map botMessageValue (botMessages st)).
Proof.
  intros Hl. unfold loadBotMessages.
  apply (loadJSON_stored _ _ _ _ _ (persist_botMessages st s)).
  - discriminate.
  - now apply parse_storedBotMessages.
Qed.

Lemma reload_botMessages_witness :
  loadBotMessages (persist mixedState [])
  = JArr (map botMessageValue (botMessages mixedState)).
Proof.
  apply (reload_botMessages mixedState []).
  destruct mixedState_wf as (_ & _ & _ & H). exact H.
Defined.

(** X18.  The three texts kept as they are: the reel plan survives a
    reload whatever it is; the brand name and the bot name survive it
    when they are not empty, and an emptied name comes back as the
    default name. *)
Theorem reload_texts (st : AppState) (s : Storage) :
  loadReelPlan (persist st s) = reelPlan st
  /\ loadBrandName (persist st s)
     = (if truthy (brandName st) then brandName st
        else str "Redzone Recruiting")
  /\ loadBotName (persist st s)
     = (if truthy (botName st) then botName st else str "Recruiting Bot").
Proof.
  unfold loadReelPlan, loadBrandName, loadBotName, loadText.
  rewrite persist_reelPlan, persist_brandName, persist_botName.
  repeat apply conj; try reflexivity.
  now destruct (reelPlan st).
Qed.

(** X19.  An item that [JSON.parse] rejects costs its own cell and no
    other: with the text of one of the four JSON items replaced by such
    a text after the state was written, a reload gives that cell its
    empty default and every other cell the value it had. *)
Theorem corrupt_item_resets_its_cell (c : Cell) (garbage : jsstring)
  (st : AppState) (s : Storage) :
  JSON.parse garbage = None -> wfState st ->
  let s' := setItem (cellKey c) garbage (persist st s) in
  loadCell c s' = cellDefault c
  /\ (forall c', c' <> c -> loadCell c' s' = cellValue c' st)
  /\ loadReelPlan s' = loadReelPlan (persist st s)
  /\ loadBrandName s' = loadBrandName (persist st s)
  /\ loadBotName s' = loadBotName (persist st s).
Proof.
  intros Hbad (Hp & Hs & Ho & Hb) s'. subst s'.
  assert (Hown : forall key fallback,
             cellKey c = str key ->
             loadJSON key fallback
               (setItem (cellKey c) garbage (persist st s)) = fallback).
  { intros key fallback Hkey. unfold loadJSON.
    rewrite <- Hkey, getItem_setItem.
    destruct (truthy garbage); [now rewrite Hbad|reflexivity]. }
  repeat apply conj.
  - destruct c; cbn [loadCell cellDefault]; now apply Hown.
  - intros c' Hne.
    assert (Hget : getItem (cellKey c')
                     (setItem (cellKey c) garbage (persist st s))
                   = getItem (cellKey c') (persist st s)).
    { apply getItem_setItem_other.
      destruct c, c'; try contradiction; discriminate. }
    destruct c'; cbn [loadCell cellValue cellKey] in *.
    + unfold loadProfile.
      apply (loadJSON_stored _ _ _ (storedProfile (profile st)));
        [now rewrite Hget, persist_profile|discriminate|].
      now apply parse_storedProfile.
    + unfold loadSchools.
      apply (loadJSON_stored _ _ _ (storedSchools (schools st)));
        [now rewrite Hget, persist_schools|discriminate|].
      now apply parse_storedSchools.
    + unfold loadOutreach.
      apply (loadJSON_stored _ _ _ (storedOutreach (outreach st)));
        [now rewrite Hget, persist_outreach|discriminate|].
      now apply parse_storedOutreach.
    + unfold loadBotMessages.
      apply (loadJSON_stored _ _ _ (storedBotMessages (botMessages st)));
        [now rewrite Hget, persist_botMessages|discriminate|].
      now apply parse_storedBotMessages.
  - unfold loadReelPlan, loadText.
    rewrite getItem_setItem_other by (destruct c; discriminate).
    reflexivity.
  - unfold loadBrandName, loadText.
    rewrite getItem_setItem_other by (destruct c; discriminate).
    reflexivity.
  - unfold loadBotName, loadText.
    rewrite getItem_setItem_other by (destruct c; discriminate).
    reflexivity.
Qed.

Lemma corrupt_item_resets_its_cell_witness :
  loadCell CSchools
    (setItem (cellKey CSchools) (str "[{") (persist mixedState []))
  = JArr []
  /\ loadCell COutreach
       (setItem (cellKey CSchools) (str "[{") (persist mixedState []))
     = JArr (map outreachValue (outreach mixedState)).
Proof.
  destruct (corrupt_item_resets_its_cell CSchools (str "[{") mixedState []
              eq_refl mixedState_wf) as (H1 & H2 & _).
  split; [exact H1|]. apply H2. discriminate.
Defined.
(** ** The playbook checklist *)

Lemma mapIndexed_length {A B} (f : A -> nat -> B) (i : nat) (l : list A) :
  List.length (mapIndexed f i l) = List.length l.
Proof.
  revert i. induction l as [|v l IH]; intros i; cbn [mapIndexed List.length];
    [reflexivity|]. now rewrite IH.
Qed.

Lemma mapIndexed_nth {A B} (f : A -> nat -> B) (i : nat) (l : list A)
  (n : nat) :
  nth_error (mapIndexed f i l) n
  = option_map (fun v => f v (i + n)%nat) (nth_error l n).
Proof.
  revert i n. induction l as [|v l IH]; intros i [|n];
    cbn [mapIndexed nth_error option_map]; try reflexivity.
  - now rewrite Nat.add_0_r.
  - rewrite IH. now rewrite Nat.add_succ_comm.
Qed.

Lemma nth_error_ext {A} (l l' : list A) :
  (forall n, nth_error l n = nth_error l' n) -> l = l'.
Proof.
  revert l'. induction l as [|a l IH]; intros [|b l'] H.
  - reflexivity.
  - specialize (H O). discriminate.
  - specialize (H O). discriminate.
  - pose proof (H O) as H0. cbn in H0. inversion H0; subst. f_equal.
    apply IH. intros n. exact (H (S n)).
Qed.

Lemma togglePlaybook_nth (index : nat) (prev : list bool) (n : nat) :
  nth_error (togglePlaybook index prev) n
  = if Nat.eqb n index then option_map negb (nth_error prev n)
    else nth_error prev n.
Proof.
  unfold togglePlaybook. rewrite mapIndexed_nth. cbn [Nat.add].
  destruct (Nat.eqb n index), (nth_error prev n); reflexivity.
Qed.

(** X20.  Ticking the box of a step flips that step and no other, and
    keeps the number of steps; ticking it again restores the list; the
    boxes of two steps can be ticked in either order; and an index
    beyond the list changes nothing. *)
Theorem togglePlaybook_flips_one (index : nat) (prev : list bool) :
  List.length (togglePlaybook index prev) = List.length prev
  /\ nth_error (togglePlaybook index prev) index
     = option_map negb (nth_error prev index)
  /\ (forall n, n <> index ->
        nth_error (togglePlaybook index prev) n = nth_error prev n)
  /\ togglePlaybook index (togglePlaybook index prev) = prev
  /\ (forall other,
        togglePlaybook other (togglePlaybook index prev)
        = togglePlaybook index (togglePlaybook other prev))
  /\ ((List.length prev <= index)%nat -> togglePlaybook index prev = prev).
Proof.
  repeat apply conj.
  - apply mapIndexed_length.
  - now rewrite togglePlaybook_nth, Nat.eqb_refl.
  - intros n Hn. rewrite togglePlaybook_nth.
    apply Nat.eqb_neq in Hn. now rewrite Hn.
  - apply nth_error_ext. intros n. rewrite !togglePlaybook_nth.
    destruct (Nat.eqb n index); [|reflexivity].
    destruct (nth_error prev n) as [b|]; [|reflexivity].
    cbn [option_map]. now rewrite negb_involutive.
  - intros other. apply nth_error_ext. intros n.
    rewrite !togglePlaybook_nth.
    destruct (Nat.eqb n other), (Nat.eqb n index); reflexivity.
  - intros Hlen. apply nth_error_ext. intros n. rewrite togglePlaybook_nth.
    destruct (Nat.eqb n index) eqn:E; [|reflexivity].
    apply Nat.eqb_eq in E. subst n.
    assert (Hnone : nth_error prev index = None)
      by now apply nth_error_None.
    now rewrite Hnone.
Qed.

(** ** The date of an outreach entry *)

Lemma civil_month_day (day : Z) :
  let '(y, m, d) := civilFromDays day in 1 <= m <= 12 /\ 1 <= d <= 31.
Proof.
  unfold civilFromDays.
  set (z := day + 719468).
  set (era := z / 146097).
  set (doe := z - era * 146097).
  set (yoe := (doe - doe / 1460 + doe / 36524 - doe / 146096) / 365).
  set (doy := doe - (365 * yoe + yoe / 4 - yoe / 100)).
  set (mp := (5 * doy + 2) / 153).
  assert (Hdoe : 0 <= doe <= 146096).
  { subst doe era. pose proof (Z.mod_pos_bound z 146097 eq_refl).
    rewrite Z.mod_eq in H by lia. lia. }
  assert (Hyoe : 0 <= yoe <= 399).
  { subst yoe. clearbody doe. Z.div_mod_to_equations. lia. }
  assert (Hdoy : 0 <= doy <= 365).
  { subst doy yoe. clearbody doe. Z.div_mod_to_equations. lia. }
  assert (Hmp : 0 <= mp <= 11).
  { subst mp. clearbody doy. Z.div_mod_to_equations. lia. }
  destruct (mp <? 10) eqn:E.
  - apply Z.ltb_lt in E. split; [lia|].
    clearbody doy. subst mp. Z.div_mod_to_equations. lia.
  - apply Z.ltb_ge in E. split; [lia|].
    clearbody doy. subst mp. Z.div_mod_to_equations. lia.
Qed.

(** The days from 1970-01-01 to 9999-12-31 fall in the years 1970 to
    9999. *)
Lemma civil_year (day : Z) :
  0 <= day <= 2932896 ->
  let '(y, m, d) := civilFromDays day in 1970 <= y <= 9999.
Proof.
  intros Hday. unfold civilFromDays.
  set (z := day + 719468).
  set (era := z / 146097).
  set (doe := z - era * 146097).
  set (yoe := (doe - doe / 1460 + doe / 36524 - doe / 146096) / 365).
  set (doy := doe - (365 * yoe + yoe / 4 - yoe / 100)).
  set (mp := (5 * doy + 2) / 153).
  assert (Hera : 4 <= era <= 24).
  { subst era z. Z.div_mod_to_equations. lia. }
  assert (Hdoe : 0 <= doe <= 146096).
  { subst doe era. pose proof (Z.mod_pos_bound z 146097 eq_refl).
    rewrite Z.mod_eq in H by lia. lia. }
  assert (Hz : z = era * 146097 + doe) by (subst doe; lia).
  assert (Hz2 : 719468 <= z <= 3652364) by (subst z; lia).
  clearbody era z. clear Hday.
  destruct (mp <? 10) eqn:E.
  - apply Z.ltb_lt in E.
    replace (mp + 3 <=? 2) with false
      by (symmetry; apply Z.leb_gt; subst mp doy yoe;
          Z.div_mod_to_equations; lia).
    subst mp doy yoe. Z.div_mod_to_equations. lia.
  - apply Z.ltb_ge in E.
    replace (mp - 9 <=? 2) with true
      by (symmetry; apply Z.leb_le; subst mp doy yoe;
          Z.div_mod_to_equations; lia).
    subst mp doy yoe. Z.div_mod_to_equations. lia.
Qed.

Lemma digitsValue_app (a b : list Z) :
  digitsValue (a ++ b)
  = fold_left (fun acc d => 10 * acc + (d - 48)) b (digitsValue a).
Proof. unfold digitsValue. apply fold_left_app. Qed.

(** The digits [padDigits] writes read back as the number, when it
    fits. *)
Lemma padDigits_value (n : nat) (v : Z) :
  0 <= v < 10 ^ Z.of_nat n -> digitsValue (padDigits n v) = v.
Proof.
  revert v. induction n as [|n IH]; intros v Hv.
  - cbn in *. lia.
  - cbn [padDigits]. rewrite digitsValue_app. cbn [fold_left].
    rewrite IH.
    + pose proof (Z.div_mod v 10 ltac:(lia)). lia.
    + rewrite Nat2Z.inj_succ, Z.pow_succ_r in Hv by lia.
      split; [apply Z.div_pos; lia|apply Z.div_lt_upper_bound; lia].
Qed.

(** X21.  For every instant from 1970 to the end of the year 9999 the
    date [logOutreach] stores, [toISOString().split('T')[0]], is ten
    characters: four digits of a year from 1970 to 9999, a hyphen, two
    digits of a month from 1 to 12, a hyphen, two digits of a day from
    1 to 31. *)
Theorem outreach_date_shape (today : Z) :
  0 <= today < 253402300800000 ->
  exists y m d,
    splitHead 84 (toISOString today)
    = padDigits 4 y ++ [45] ++ padDigits 2 m ++ [45] ++ padDigits 2 d
    /\ digitsValue (padDigits 4 y) = y /\ 1970 <= y <= 9999
    /\ digitsValue (padDigits 2 m) = m /\ 1 <= m <= 12
    /\ digitsValue (padDigits 2 d) = d /\ 1 <= d <= 31
    /\ List.length (splitHead 84 (toISOString today)) = 10%nat.
Proof.
  intros Ht. rewrite isoString_date. unfold isoDate.
  assert (Hday : 0 <= today / msPerDay <= 2932896).
  { unfold msPerDay. split; [apply Z.div_pos; lia|].
    apply Z.lt_succ_r, Z.div_lt_upper_bound; lia. }
  pose proof (civil_year _ Hday) as Hy.
  pose proof (civil_month_day (today / msPerDay)) as Hmd.
  destruct (civilFromDays (today / msPerDay)) as [[y m] d].
  unfold isoYear.
  replace ((0 <=? y) && (y <=? 9999)) with true
    by (symmetry; apply andb_true_iff; split; apply Z.leb_le; lia).
  exists y, m, d. repeat apply conj; try lia; try reflexivity.
  - apply padDigits_value. cbn. lia.
  - apply padDigits_value. cbn. lia.
  - apply padDigits_value. cbn. lia.
Qed.

Lemma outreach_date_shape_witness :
  exists y m d,
    splitHead 84 (toISOString 1704153600000)
    = padDigits 4 y ++ [45] ++ padDigits 2 m ++ [45] ++ padDigits 2 d
    /\ digitsValue (padDigits 4 y) = y /\ 1970 <= y <= 9999
    /\ digitsValue (padDigits 2 m) = m /\ 1 <= m <= 12
    /\ digitsValue (padDigits 2 d) = d /\ 1 <= d <= 31
    /\ List.length (splitHead 84 (toISOString 1704153600000)) = 10%nat.
Proof.
  apply (outreach_date_shape 1704153600000). lia.
Defined.

(** ** Keywords inside keywords *)

Lemma greeting_head (botName : list Z) :
  exists r, greeting botName = 72 :: r.
Proof. unfold greeting. cbn [str app map list_ascii_of_string]. eauto. Qed.

(** X22.  The first rule looks for [hi] anywhere in the text, so it also
    takes every text that has [hi] inside a word, [highlight] among
    them: such a text gets the greeting.  The reply about the highlight
    reel is therefore given only to a text that mentions [reel]. *)
Theorem reel_reply_needs_reel (botName userText : jsstring) :
  (forall word, includes word (str "hi") = true ->
     includes (toLowerCase userText) word = true ->
     respond botName userText = greeting botName)
  /\ (mentions (toLowerCase userText) "highlight" = true ->
      respond botName userText = greeting botName)
  /\ (respond botName userText = reelReply ->
      mentions (toLowerCase userText) "reel" = true
      /\ mentions (toLowerCase userText) "highlight" = false).
Proof.
  assert (Hword : forall word, includes word (str "hi") = true ->
     includes (toLowerCase userText) word = true ->
     respond botName userText = greeting botName).
  { intros word Hw Hin.
    assert (Hhi : includes (toLowerCase userText) (str "hi") = true)
      by apply (includes_trans _ _ _ Hin Hw).
    unfold respond. rewrite Hhi. now rewrite orb_true_r. }
  repeat apply conj.
  - exact Hword.
  - unfold mentions. intros H. now apply (Hword (str "highlight")).
  - intros Hreply. unfold mentions.
    destruct (includes (toLowerCase userText) (str "highlight")) eqn:Eh.
    + exfalso. rewrite (Hword (str "highlight") eq_refl Eh) in Hreply.
      destruct (greeting_head botName) as [r Hr]. rewrite Hr in Hreply.
      discriminate.
    + split; [|reflexivity]. unfold respond in Hreply. rewrite Eh in Hreply.
      destruct (greeting_head botName) as [r Hr]. rewrite Hr in Hreply.
      destruct (_ || _); [discriminate|].
      destruct (includes _ (str "profile")); [discriminate|].
      destruct (_ || _); [discriminate|].
      destruct (includes _ (str "outreach")); [discriminate|].
      cbn [orb] in Hreply.
      destruct (includes _ (str "reel")); [reflexivity|discriminate].
Qed.

Lemma reel_reply_needs_reel_witness :
  respond (str "Recruiting Bot") (str "Any tips for my Highlight video?")
  = greeting (str "Recruiting Bot")
  /\ respond (str "Recruiting Bot") (str "What about a scholarship?")
     = greeting (str "Recruiting Bot").
Proof.
  split.
  - apply (proj1 (proj2 (reel_reply_needs_reel (str "Recruiting Bot")
                           (str "Any tips for my Highlight video?")))).
    reflexivity.
  - apply (proj1 (reel_reply_needs_reel (str "Recruiting Bot")
                    (str "What about a scholarship?"))
             (str "scholarship")); reflexivity.
Defined.
(** ** A school from its addition to its removal *)

Lemma find_added (now : Z) (l : list School.t) (s : School.t) :
  (forall x, In x l -> School.id x <> now) -> School.id s = now ->
  find (fun x => School.id x =? now) (l ++ [s]) = Some s.
Proof.
  intros Hfresh Hid. induction l as [|x l IH]; cbn [app find].
  - now rewrite Hid, Z.eqb_refl.
  - assert (Hx : School.id x <> now) by (apply Hfresh; now left).
    apply Z.eqb_neq in Hx. rewrite Hx. apply IH.
    intros y Hy. apply Hfresh. now right.
Qed.

(** X23.  Adding a school, logging an outreach message to it and then
    removing it leaves the schools and the outreach log as they were,
    provided the clock reading that became the school's id is not the id
    of another school and no entry refers to it: the removal takes the
    entry with it. *)
Theorem school_lifecycle (now t today : Z)
  (name division contact message : jsstring) (st : AppState) :
  (forall s, In s (schools st) -> School.id s <> now) ->
  (forall o, In o (outreach st) -> Outreach.schoolId o <> now) ->
  trim name <> [] -> trim message <> [] ->
  let st1 := addSchool now name division contact st in
  let st2 := logOutreach t today now message st1 in
  List.length (outreach st2) = S (List.length (outreach st))
  /\ removeSchool now st2 = st.
Proof.
  intros Hs Ho Hname Hmsg st1 st2. subst st1 st2.
  unfold addSchool. destruct (trim name) eqn:En; [contradiction|].
  cbn [truthy negb]. unfold logOutreach. cbn [setSchools schools].
  rewrite (find_added now (schools st)
             (School.mk now name division contact
                (computeFitScore (Profile.gpa (profile st)))) Hs eq_refl).
  destruct (trim message) eqn:Em; [contradiction|].
  cbn [truthy negb]. split.
  - cbn [setOutreach setSchools outreach]. rewrite length_app.
    cbn [List.length]. lia.
  - destruct st as [p sc o b r bn btn].
    unfold removeSchool, setSchools, setOutreach. cbn in *.
    rewrite !filter_app. cbn [filter School.id Outreach.schoolId].
    rewrite Z.eqb_refl. cbn [negb]. rewrite !app_nil_r.
    rewrite !filter_all; [reflexivity| |].
    + intros x Hx. apply negb_true_iff, Z.eqb_neq. now apply Ho.
    + intros x Hx. apply negb_true_iff, Z.eqb_neq. now apply Hs.
Qed.

Lemma school_lifecycle_witness :
  removeSchool 1704412800000
    (logOutreach 1704412860000 1704412860000 1704412800000 (str "intro")
       (addSchool 1704412800000 (str "Coastal") (str "NCAA DII") []
          demoState))
  = demoState.
Proof.
  apply (school_lifecycle 1704412800000 1704412860000 1704412860000
           (str "Coastal") (str "NCAA DII") [] (str "intro") demoState).
  - intros s [<-|[<-|[]]]; vm_compute; lia.
  - intros o [<-|[<-|[<-|[]]]]; vm_compute; lia.
  - vm_compute. discriminate.
  - vm_compute. discriminate.
Defined.

(** ** From the first visit to the reload *)

Lemma wfString_app (a b : list Z) :
  wfString (a ++ b) = true <-> wfString a = true /\ wfString b = true.
Proof. unfold wfString. rewrite forallb_app. apply andb_true_iff. Qed.

Lemma digits_wf (l : list Z) :
  Forall (fun c => 48 <= c <= 57) l -> wfString l = true.
Proof.
  intros H. unfold wfString. apply forallb_forall. intros c Hc.
  rewrite Forall_forall in H. specialize (H c Hc).
  unfold isCodeUnit. apply andb_true_iff.
  split; [apply Z.leb_le|apply Z.ltb_lt]; lia.
Qed.

Lemma isoDate_wf (t : Z) : wfString (isoDate t) = true.
Proof.
  unfold isoDate. destruct (civilFromDays (t / msPerDay)) as [[y m] d].
  assert (D : forall n v, wfString (padDigits n v) = true).
  { intros n v. apply digits_wf, padDigits_digits. }
  assert (C : forall c l, isCodeUnit c = true -> wfString l = true ->
                wfString (c :: l) = true).
  { intros c l Hc Hl. unfold wfString in *. cbn [forallb].
    now rewrite Hc, Hl. }
  apply wfString_app. split.
  - unfold isoYear. destruct ((0 <=? y) && (y <=? 9999)); [apply D|].
    apply C; [now destruct (y <? 0)|apply D].
  - cbn [app]. apply C; [reflexivity|].
    apply wfString_app. split; [apply D|].
    apply C; [reflexivity|apply D].
Qed.

Lemma respond_wf (botName userText : list Z) :
  wfString botName = true -> wfString (respond botName userText) = true.
Proof.
  intros Hn. unfold respond.
  destruct (_ || _).
  { unfold greeting. repeat (apply wfString_app; split);
      try reflexivity; exact Hn. }
  destruct (includes _ (str "profile")); [reflexivity|].
  destruct (_ || _); [reflexivity|].
  destruct (includes _ (str "outreach")); [reflexivity|].
  destruct (_ || _); reflexivity.
Qed.

Lemma withField_wf (field : ProfileKey) (value : ProfileValue field)
  (p : Profile.t) :
  wfAction (ChangeProfile field value) -> wfProfile p ->
  wfProfile (withField field value p).
Proof.
  intros Hv (Hn & He & Hph & Hpo & Hh & Hw & Hg & Ht & Ha).
  destruct field; cbn [wfAction] in Hv; unfold wfProfile; cbn;
    repeat split; assumption.
Qed.

Ltac split_state :=
  refine (conj (conj _ (conj _ (conj _ _))) _); try assumption.

Lemma step_wf (st : AppState) (a : Action) :
  wfAction a ->
  wfState st /\ wfString (botName st) = true ->
  wfState (step st a) /\ wfString (botName (step st a)) = true.
Proof.
  intros Ha [(Hp & Hs & Ho & Hb) Hn]. unfold wfState.
  destruct a; cbn [step wfAction] in *.
  - split_state. now apply withField_wf.
  - unfold addAchievement.
    destruct (negb (truthy (trim text))); split_state.
    cbn [setProfile profile].
    destruct Hp as (H1 & H2 & H3 & H4 & H5 & H6 & H7 & H8 & H9).
    unfold wfProfile. cbn.
    refine (conj H1 (conj H2 (conj H3 (conj H4 (conj H5 (conj H6
              (conj H7 (conj H8 _)))))))).
    apply Forall_app. split; [exact H9|].
    constructor; [|constructor]. exact Ha.
  - split_state. cbn [removeAchievement setProfile profile].
    destruct Hp as (H1 & H2 & H3 & H4 & H5 & H6 & H7 & H8 & H9).
    unfold wfProfile. cbn.
    refine (conj H1 (conj H2 (conj H3 (conj H4 (conj H5 (conj H6
              (conj H7 (conj H8 _)))))))).
    now apply Forall_filter.
  - unfold addSchool.
    destruct (negb (truthy (trim name))); split_state.
    cbn [setSchools schools].
    apply Forall_app. split; [exact Hs|].
    constructor; [|constructor].
    destruct Ha as (A1 & A2 & A3 & A4). unfold wfSchool. cbn.
    refine (conj A1 (conj A2 (conj A3 (conj A4 _)))).
    apply computeFitScore_range.
  - split_state.
    + rewrite removeSchool_schools. now apply Forall_filter.
    + rewrite removeSchool_outreach. now apply Forall_filter.
  - unfold logOutreach.
    destruct (find _ (schools st)) as [school|] eqn:F; [|split_state].
    destruct (negb (truthy (trim message))); split_state.
    cbn [setOutreach outreach].
    apply Forall_app. split; [exact Ho|].
    constructor; [|constructor].
    apply find_some in F as [Hin _].
    rewrite Forall_forall in Hs. destruct (Hs school Hin) as (Hid & _).
    destruct Ha as (A1 & A2). unfold wfOutreach.
    cbn [Outreach.id Outreach.schoolId Outreach.date Outreach.message].
    refine (conj A1 (conj Hid (conj _ A2))).
    rewrite isoString_date. apply isoDate_wf.
  - unfold sendToBot.
    destruct (negb (truthy (trim userText))); split_state.
    cbn [setBotMessages botMessages].
    destruct Ha as (A1 & A2 & A3).
    repeat (apply Forall_app; split); try exact Hb.
    + constructor; [|constructor]. unfold wfBotMessage. cbn.
      split; assumption.
    + constructor; [|constructor]. unfold wfBotMessage. cbn.
      split; [exact A2|now apply respond_wf].
  - split_state.
  - split_state.
  - split_state.
Qed.

Lemma run_wf (actions : list Action) :
  forall st,
    Forall wfAction actions ->
    wfState st /\ wfString (botName st) = true ->
    wfState (run actions st).
Proof.
  unfold run.
  induction actions as [|a actions IH]; intros st Hall Hst; cbn [fold_left].
  - apply Hst.
  - inversion Hall as [|a0 l0 Ha Hrest]; subst.
    apply IH; [exact Hrest|]. now apply step_wf.
Qed.

(** Each cell kept as JSON is read back from what the effects wrote. *)
Lemma reload_cell (c : Cell) (st : AppState) (s : Storage) :
  wfState st -> loadCell c (persist st s) = cellValue c st.
Proof.
  intros (Hp & Hs & Ho & Hb). destruct c; cbn [loadCell cellValue].
  - unfold loadProfile.
    apply (loadJSON_stored _ _ _ _ _ (persist_profile st s));
      [discriminate|now apply parse_storedProfile].
  - unfold loadSchools.
    apply (loadJSON_stored _ _ _ _ _ (persist_schools st s));
      [discriminate|now apply parse_storedSchools].
  - unfold loadOutreach.
    apply (loadJSON_stored _ _ _ _ _ (persist_outreach st s));
      [discriminate|now apply parse_storedOutreach].
  - unfold loadBotMessages.
    apply (loadJSON_stored _ _ _ _ _ (persist_botMessages st s));
      [discriminate|now apply parse_storedBotMessages].
Qed.

Lemma initialState_wf :
  wfState initialState /\ wfString (botName initialState) = true.
Proof.
  split; [|reflexivity]. unfold wfState, wfProfile. cbn.
  repeat split; constructor.
Qed.

(** X24.  Whatever the user does from the first visit on through the
    handlers and setters, with strings that are lists of UTF-16 code
    units and clock readings that are safe integers, a reload finds the
    profile, the schools, the outreach log and the chat log exactly as
    they were: every handler keeps the state within what
    [JSON.stringify] and [JSON.parse] carry over without loss. *)
Theorem run_then_reload (actions : list Action) (s : Storage) (c : Cell) :
  Forall wfAction actions ->
  loadCell c (persist (run actions initialState) s)
  = cellValue c (run actions initialState).
Proof.
  intros Hall. apply reload_cell.
  now apply (run_wf actions initialState Hall), initialState_wf.
Qed.

Lemma sampleActions_wf : Forall wfAction sampleActions.
Proof.
  unfold sampleActions.
  repeat constructor; cbn; unfold safeInteger; try reflexivity; lia.
Qed.

Lemma run_then_reload_witness :
  loadCell CSchools (persist (run sampleActions initialState) [])
  = cellValue CSchools (run sampleActions initialState).
Proof.
  apply (run_then_reload sampleActions [] CSchools). exact sampleActions_wf.
Defined.

(** ** Rounding is monotone *)

Lemma Qround_even_mono (x y : Q) :
  (x <= y)%Q -> Qround_even x <= Qround_even y.
Proof.
  intros Hxy. pose proof (Qfloor_resp_le _ _ Hxy) as Hf.
  unfold Qround_even.
  destruct (Z.eq_dec (Qfloor x) (Qfloor y)) as [E|E].
  - rewrite <- E. set (f := Qfloor x) in *.
    assert (Hd : (x - inject_Z f <= y - inject_Z f)%Q).
    { apply Qplus_le_l with (z := inject_Z f). ring_simplify. exact Hxy. }
    destruct (x - inject_Z f ?= 1 # 2)%Q eqn:Cx;
    destruct (y - inject_Z f ?= 1 # 2)%Q eqn:Cy;
      try (destruct (Z.even f)); try lia; exfalso;
      first [apply Qeq_alt in Cx|apply Qlt_alt in Cx|apply Qgt_alt in Cx];
      first [apply Qeq_alt in Cy|apply Qlt_alt in Cy|apply Qgt_alt in Cy];
      apply (Qlt_irrefl (1 # 2));
      first [ rewrite Cx in Hd; eapply Qle_lt_trans; [exact Hd|exact Cy]
            | eapply Qlt_le_trans; [exact Cx|]; rewrite <- Cy; exact Hd
            | eapply Qlt_trans; [exact Cx|];
              eapply Qle_lt_trans; [exact Hd|exact Cy] ].
  - assert (Qfloor x + 1 <= Qfloor y) by lia.
    destruct (_ ?= _)%Q; destruct (_ ?= _)%Q;
      try (destruct (Z.even (Qfloor x))); try (destruct (Z.even (Qfloor y)));
      lia.
Qed.

Lemma binary64_nearest (x : Q) :
  binary64 x
  = match Qnum x with
    | 0 => Fin 0
    | _ =>
      if Qle_bool (2 ^ 1024)%Q (nearest64 (Qabs x))
      then (if Qnum x <? 0 then NInf else PInf)
      else Fin (Qred (if Qnum x <? 0 then - nearest64 (Qabs x)
                      else nearest64 (Qabs x))%Q)
    end.
Proof. reflexivity. Qed.

Lemma Qround_even_le (N : Z) (v : Q) :
  (v <= inject_Z N)%Q -> Qround_even v <= N.
Proof.
  intros H. rewrite <- (Qround_even_Z N). now apply Qround_even_mono.
Qed.

Lemma Qpower2_split (i j : Z) : (2 ^ (i + j) == 2 ^ i * 2 ^ j)%Q.
Proof. apply Qpower_plus. discriminate. Qed.

Lemma nearest64_nonneg (a : Q) : (0 <= a)%Q -> (0 <= nearest64 a)%Q.
Proof.
  intros Ha. unfold nearest64.
  set (e := Z.max (-1074) (Qlog2_floor a - 52)).
  apply Qmult_le_0_compat; [|apply Qlt_le_weak, Qpower2_pos].
  change 0%Q with (inject_Z 0). rewrite <- Zle_Qle.
  apply Qround_even_nonneg. apply Qle_shift_div_l; [apply Qpower2_pos|].
  now rewrite Qmult_0_l.
Qed.

Lemma nearest64_mono (a b : Q) :
  (0 < a)%Q -> (a <= b)%Q -> (nearest64 a <= nearest64 b)%Q.
Proof.
  intros Ha Hab.
  assert (Hb : (0 < b)%Q) by (eapply Qlt_le_trans; eauto).
  pose proof (Qlog2_floor_mono a b Ha Hab) as HL.
  destruct (Qlog2_floor_spec a Ha) as [_ Ha2].
  destruct (Qlog2_floor_spec b Hb) as [Hb1 _].
  unfold nearest64.
  set (La := Qlog2_floor a) in *. set (Lb := Qlog2_floor b) in *.
  set (ea := Z.max (-1074) (La - 52)). set (eb := Z.max (-1074) (Lb - 52)).
  destruct (Z.eq_dec ea eb) as [E|E].
  - rewrite <- E. apply Qmult_le_compat_r; [|apply Qlt_le_weak, Qpower2_pos].
    rewrite <- Zle_Qle. apply Qround_even_mono.
    apply Qmult_le_compat_r; [exact Hab|].
    apply Qlt_le_weak, Qinv_lt_0_compat, Qpower2_pos.
  - assert (Heb : eb = Lb - 52) by lia.
    assert (HLab : La + 1 <= Lb) by lia.
    assert (Hea : 0 <= Lb - ea) by lia.
    apply Qle_trans with (2 ^ Lb)%Q.
    + (* the smaller one stays at or below the power of two *)
      assert (Hm : Qround_even (a / 2 ^ ea) <= 2 ^ (Lb - ea)).
      { apply Qround_even_le. apply Qle_shift_div_r; [apply Qpower2_pos|].
        rewrite <- Qpower2_inject by exact Hea.
        rewrite <- Qpower2_split. replace (Lb - ea + ea) with Lb by lia.
        apply Qlt_le_weak. eapply Qlt_le_trans; [exact Ha2|].
        apply Qpower_le_compat_l; [lia|discriminate]. }
      rewrite Zle_Qle in Hm. rewrite <- Qpower2_inject in Hm by exact Hea.
      assert (Hpow : (2 ^ Lb == 2 ^ (Lb - ea) * 2 ^ ea)%Q).
      { rewrite <- Qpower2_split. now replace (Lb - ea + ea) with Lb by lia. }
      rewrite Hpow.
      apply Qmult_le_compat_r; [exact Hm|apply Qlt_le_weak, Qpower2_pos].
    + (* the larger one stays at or above it *)
      assert (Hm : 2 ^ 52 <= Qround_even (b / 2 ^ eb)).
      { apply Qround_even_ge. apply Qle_shift_div_l; [apply Qpower2_pos|].
        rewrite <- Qpower2_inject by lia.
        rewrite <- Qpower2_split. replace (52 + eb) with Lb by lia.
        exact Hb1. }
      rewrite Zle_Qle in Hm. rewrite <- Qpower2_inject in Hm by lia.
      assert (Hpow : (2 ^ Lb == 2 ^ 52 * 2 ^ eb)%Q).
      { rewrite <- Qpower2_split. now replace (52 + eb) with Lb by lia. }
      rewrite Hpow.
      apply Qmult_le_compat_r; [exact Hm|apply Qlt_le_weak, Qpower2_pos].
Qed.

Lemma Qle_bool_false (a b : Q) : Qle_bool a b = false -> (b < a)%Q.
Proof.
  intros H. apply Qnot_le_lt. intros C. apply Qle_bool_iff in C. congruence.
Qed.

(** Rounding to binary64 keeps the order. *)
Lemma binary64_mono (x y : Q) :
  (x <= y)%Q -> jsle (binary64 x) (binary64 y).
Proof.
  intros H. rewrite !binary64_nearest.
  destruct x as [nx dx], y as [ny dy]. cbn [Qnum].
  destruct nx as [|px|px], ny as [|py|py];
    cbn [Z.ltb Z.compare Qabs Z.abs Qnum Qden];
    try (exfalso; unfold Qle in H; cbn in H; lia).
  - cbn. apply Qle_refl.
  - destruct (Qle_bool _ _); [exact I|]. cbn [jsle].
    rewrite Qred_correct. now apply nearest64_nonneg.
  - pose proof (nearest64_mono (Z.pos px # dx) (Z.pos py # dy)
                  eq_refl H) as Hr.
    destruct (Qle_bool _ (nearest64 (Z.pos px # dx))) eqn:Bx;
      destruct (Qle_bool _ (nearest64 (Z.pos py # dy))) eqn:By;
      cbn [jsle]; try exact I.
    + apply Qle_bool_iff in Bx. apply Qle_bool_false in By.
      apply (Qlt_irrefl (2 ^ 1024)).
      eapply Qle_lt_trans; [exact Bx|]. eapply Qle_lt_trans; eauto.
    + now rewrite !Qred_correct.
  - destruct (Qle_bool _ _); [exact I|]. cbn [jsle].
    rewrite Qred_correct. apply (Qopp_le_compat 0).
    now apply nearest64_nonneg.
  - destruct (Qle_bool _ (nearest64 (Z.pos px # dx)));
      destruct (Qle_bool _ (nearest64 (Z.pos py # dy)));
      cbn [jsle]; try exact I.
    rewrite !Qred_correct.
    apply Qle_trans with 0%Q.
    + apply (Qopp_le_compat 0). now apply nearest64_nonneg.
    + now apply nearest64_nonneg.
  - assert (Habs : (Z.pos py # dy <= Z.pos px # dx)%Q).
    { unfold Qle in *. cbn in *. lia. }
    pose proof (nearest64_mono (Z.pos py # dy) (Z.pos px # dx)
                  eq_refl Habs) as Hr.
    destruct (Qle_bool _ (nearest64 (Z.pos px # dx))) eqn:Bx;
      destruct (Qle_bool _ (nearest64 (Z.pos py # dy))) eqn:By;
      cbn [jsle]; try exact I.
    + apply Qle_bool_iff in By. apply Qle_bool_false in Bx.
      apply (Qlt_irrefl (2 ^ 1024)).
      eapply Qle_lt_trans; [exact By|]. eapply Qle_lt_trans; eauto.
    + rewrite !Qred_correct. now apply Qopp_le_compat.
Qed.

Lemma jsle_NInf (z : jsnumber) : z <> NaN -> jsle NInf z.
Proof. destruct z; [contradiction|exact (fun _ => I)..]. Qed.

Lemma jsle_PInf (z : jsnumber) : z <> NaN -> jsle z PInf.
Proof. destruct z; [contradiction|exact (fun _ => I)..]. Qed.

Lemma binary64_not_NaN (x : Q) : binary64 x <> NaN.
Proof.
  destruct (binary64_cases x) as [H|[H|[r H]]]; rewrite H; discriminate.
Qed.

Lemma div_infinity (c : Z) :
  0 < c -> div PInf (num c) = PInf /\ div NInf (num c) = NInf.
Proof.
  intros Hc. unfold div, num, Qneg. cbn [Qnum inject_Z].
  replace (c <? 0) with false by (symmetry; apply Z.ltb_ge; lia).
  split; reflexivity.
Qed.

Lemma div_mono (c : Z) (x y : jsnumber) :
  0 < c -> jsle x y -> jsle (div x (num c)) (div y (num c)).
Proof.
  intros Hc. destruct (div_infinity c Hc) as [HP HN].
  assert (Hpos : (0 <= / inject_Z c)%Q).
  { apply Qinv_le_0_compat. change 0%Q with (inject_Z 0).
    rewrite <- Zle_Qle. lia. }
  destruct x as [| | |a], y as [| | |b]; cbn [jsle]; try contradiction;
    intros H; rewrite ?HP, ?HN, ?(div_by_pos _ c Hc); try exact I.
  - apply jsle_NInf, binary64_not_NaN.
  - apply jsle_PInf, binary64_not_NaN.
  - apply binary64_mono. now apply Qmult_le_compat_r.
Qed.

Lemma mul_mono (c : Z) (x y : jsnumber) :
  0 < c -> jsle x y -> jsle (mul x (num c)) (mul y (num c)).
Proof.
  intros Hc.
  assert (Hz : Qzero (inject_Z c) = false).
  { unfold Qzero. cbn [Qnum inject_Z]. apply Z.eqb_neq. lia. }
  assert (Hn : Qneg (inject_Z c) = false).
  { unfold Qneg. cbn [Qnum inject_Z]. apply Z.ltb_ge. lia. }
  assert (Hpos : (0 <= inject_Z c)%Q).
  { change 0%Q with (inject_Z 0). rewrite <- Zle_Qle. lia. }
  destruct x as [| | |a], y as [| | |b]; cbn [jsle]; try contradiction;
    intros H; unfold mul, num; rewrite ?Hz, ?Hn; cbn [jsle]; try exact I.
  - apply jsle_NInf, binary64_not_NaN.
  - apply jsle_PInf, binary64_not_NaN.
  - apply binary64_mono. now apply Qmult_le_compat_r.
Qed.

Lemma Math_round_mono (x y : jsnumber) :
  jsle x y -> jsle (Math_round x) (Math_round y).
Proof.
  destruct x as [| | |a], y as [| | |b]; cbn [jsle Math_round];
    try contradiction; intros H; try exact I.
  rewrite <- Zle_Qle. apply Qfloor_resp_le. now apply Qplus_le_l.
Qed.

Lemma Math_max_mono (c : Z) (x y : jsnumber) :
  jsle x y -> jsle (Math_max (num c) x) (Math_max (num c) y).
Proof.
  destruct x as [| | |a], y as [| | |b]; cbn [jsle]; try contradiction;
    intros H; unfold Math_max, num; cbn [jsle]; try exact I.
  - apply Qle_refl.
  - destruct (Qle_bool (inject_Z c) b) eqn:B; cbn [jsle];
      [now apply Qle_bool_iff|apply Qle_refl].
  - now destruct (Qle_bool (inject_Z c) a).
  - destruct (Qle_bool (inject_Z c) a) eqn:A;
      destruct (Qle_bool (inject_Z c) b) eqn:B; cbn [jsle].
    + exact H.
    + apply Qle_bool_iff in A. apply Qle_bool_false in B.
      exfalso. apply (Qlt_irrefl b).
      eapply Qlt_le_trans; [exact B|]. eapply Qle_trans; eauto.
    + now apply Qle_bool_iff.
    + apply Qle_refl.
Qed.

Lemma Math_min_mono (c : Z) (x y : jsnumber) :
  jsle x y -> jsle (Math_min (num c) x) (Math_min (num c) y).
Proof.
  destruct x as [| | |a], y as [| | |b]; cbn [jsle]; try contradiction;
    intros H; unfold Math_min, num; cbn [jsle]; try exact I.
  - apply Qle_refl.
  - now destruct (Qle_bool (inject_Z c) b).
  - destruct (Qle_bool (inject_Z c) a) eqn:A; cbn [jsle];
      [apply Qle_refl|].
    apply Qle_bool_false in A. now apply Qlt_le_weak.
  - destruct (Qle_bool (inject_Z c) a) eqn:A;
      destruct (Qle_bool (inject_Z c) b) eqn:B; cbn [jsle].
    + apply Qle_refl.
    + apply Qle_bool_iff in A. apply Qle_bool_false in B.
      exfalso. apply (Qlt_irrefl b).
      eapply Qlt_le_trans; [exact B|]. eapply Qle_trans; eauto.
    + apply Qle_bool_false in A. now apply Qlt_le_weak.
    + exact H.
Qed.

(** X26.  A better GPA never gives a lower fit score: when [parseFloat]
    reads two GPA texts as numbers, the first at most the second
    (infinities included), the fit score of the first is at most that
    of the second, whatever the binary64 roundings of the division and
    the multiplication do. *)
Theorem computeFitScore_monotone (g1 g2 : jsstring) :
  jsle (parseFloat g1) (parseFloat g2) ->
  exists n1 n2,
    computeFitScore g1 = num n1 /\ computeFitScore g2 = num n2
    /\ n1 <= n2.
Proof.
  intros H.
  destruct (computeFitScore_range g1) as (n1 & _ & E1).
  destruct (computeFitScore_range g2) as (n2 & _ & E2).
  exists n1, n2. split; [exact E1|]. split; [exact E2|].
  assert (Hle : jsle (computeFitScore g1) (computeFitScore g2)).
  { unfold computeFitScore.
    assert (N1 : isNaN (parseFloat g1) = false).
    { destruct (parseFloat g1); [contradiction|reflexivity..]. }
    assert (N2 : isNaN (parseFloat g2) = false).
    { destruct (parseFloat g1), (parseFloat g2);
        try contradiction; reflexivity. }
    rewrite N1, N2.
    apply Math_min_mono, Math_max_mono, Math_round_mono.
    apply mul_mono; [reflexivity|]. now apply div_mono. }
  rewrite E1, E2 in Hle. cbn [jsle num] in Hle. now rewrite Zle_Qle.
Qed.

Lemma computeFitScore_monotone_witness :
  exists n1 n2,
    computeFitScore (str "3.2") = num n1
    /\ computeFitScore (str "3.25 (weighted)") = num n2 /\ n1 <= n2.
Proof.
  apply (computeFitScore_monotone (str "3.2") (str "3.25 (weighted)")).
  vm_compute. discriminate.
Defined.

(** X27.  Filling a field or adding an achievement never lowers the
    completion: of two profiles, the one with at least as many filled
    scalar fields and achievements together has at least the completion
    of the other. *)
Theorem profileCompletion_monotone (p q : Profile.t) :
  completedFields p + Z.of_nat (List.length (Profile.achievements p))
  <= completedFields q + Z.of_nat (List.length (Profile.achievements q)) ->
  jsle (profileCompletion p) (profileCompletion q).
Proof.
  intros H. unfold profileCompletion.
  apply Math_round_mono. apply mul_mono; [reflexivity|].
  apply div_mono; [reflexivity|].
  unfold num. cbn [jsle]. now rewrite <- Zle_Qle.
Qed.

Lemma profileCompletion_monotone_witness :
  jsle (profileCompletion (fullProfile [mvp]))
       (profileCompletion (fullProfile [mvp; captain])).
Proof.
  apply (profileCompletion_monotone (fullProfile [mvp])
           (fullProfile [mvp; captain])).
  vm_compute. discriminate.
Defined.
